(** * UltraWatchTogether: the signaling and room server (src/server.js)

    A shallow embedding of the room/session engine of [server.js]: the room
    store, the three per-room indexes, the join / signal / chat / leave
    dispatcher, the close handler and the keepalive sweep, followed by the
    properties the specification states about them.

    Conventions of the embedding.
    - A JavaScript string is the list of its UTF-16 code units.
    - A JavaScript [Map] is an association list in insertion order, with
      [set] updating in place and [delete] removing the key: iteration order
      is observable (broadcast order, roster order).
    - A [WebSocket] object lives in a heap indexed by a handle; a room's
      [clients] index stores handles, so that several rooms can alias one
      socket.
    - Calls into the [ws] library ([send], [close], [terminate], [ping]) are
      recorded as an effect trace; [Date.now()] and [uuidv4()] are inputs.
    - A message sent is recorded as the message that its JSON text denotes:
      [JSON.stringify] is the identity on strings and integers, and rewrites
      the numbers of a relayed [data] that JSON cannot carry.
    - A handler that throws has no result ([None]): nothing in [server.js]
      catches an exception outside [JSON.parse].
    - Of the [ws] library the model keeps what the server reads back:
      [readyState], the membership of [wss.clients], the fact that the
      close event of a socket is delivered once, and the fact that a socket
      destroyed by [terminate()] emits its close event. *)

From Stdlib Require Import List Bool Arith ZArith NArith Lia String Ascii.
From Stdlib Require Import SpecFloat.
Import ListNotations.

Set Implicit Arguments.

(* ================================================================= *)
(** ** JavaScript strings *)

Definition jsstring := list N.

Definition js (s : string) : jsstring :=
  map N_of_ascii (list_ascii_of_string s).

Fixpoint str_eqb (a b : jsstring) : bool :=
  match a, b with
  | [], [] => true
  | x :: a', y :: b' => N.eqb x y && str_eqb a' b'
  | _, _ => false
  end.

Definition is_empty (s : jsstring) : bool :=
  match s with [] => true | _ :: _ => false end.

(** White space as [String.prototype.trim] sees it: the ECMAScript WhiteSpace
    and LineTerminator code units. *)
Definition is_ws (c : N) : bool :=
  ((9 <=? c) && (c <=? 13) || (c =? 32) || (c =? 160) || (c =? 5760)
   || (8192 <=? c) && (c <=? 8202) || (c =? 8232) || (c =? 8233)
   || (c =? 8239) || (c =? 8287) || (c =? 12288) || (c =? 65279))%N.

Fixpoint trim_start (s : jsstring) : jsstring :=
  match s with
  | [] => []
  | c :: s' => if is_ws c then trim_start s' else s
  end.

Definition trim (s : jsstring) : jsstring :=
  rev (trim_start (rev (trim_start s))).

(** [s.slice(0, n)] for a non-negative [n]. *)
Definition slice0 (n : nat) (s : jsstring) : jsstring := firstn n s.

(** [a || b] on strings: the empty string is falsy. *)
Definition str_or (a b : jsstring) : jsstring :=
  if is_empty a then b else a.

(* ================================================================= *)
(** ** JavaScript [Map] with string keys *)

Module JsMap.

Section Ops.
Variable V : Type.

Definition t := list (jsstring * V).

Definition empty : t := [].

Fixpoint get (k : jsstring) (m : t) : option V :=
  match m with
  | [] => None
  | (k', v) :: m' => if str_eqb k k' then Some v else get k m'
  end.

Definition has (k : jsstring) (m : t) : bool :=
  match get k m with Some _ => true | None => false end.

Fixpoint set (k : jsstring) (v : V) (m : t) : t :=
  match m with
  | [] => [(k, v)]
  | (k', v') :: m' =>
      if str_eqb k k' then (k', v) :: m' else (k', v') :: set k v m'
  end.

Definition delete (k : jsstring) (m : t) : t :=
  filter (fun e => negb (str_eqb k (fst e))) m.

Definition keys (m : t) : list jsstring := map fst m.
Definition values (m : t) : list V := map snd m.
Definition entries (m : t) : list (jsstring * V) := m.
Definition size (m : t) : nat := List.length m.
End Ops.

Arguments empty {V}.

(** What [set] and [delete] do to the sequence of keys. *)
Fixpoint ins_key (k : jsstring) (ks : list jsstring) : list jsstring :=
  match ks with
  | [] => [k]
  | k' :: ks' => if str_eqb k k' then ks else k' :: ins_key k ks'
  end.

Definition del_key (k : jsstring) (ks : list jsstring) : list jsstring :=
  filter (fun k' => negb (str_eqb k k')) ks.

End JsMap.

(* ================================================================= *)
(** ** Values read from a parsed message *)

(** A JSON value as the handlers observe it: through [ToBoolean], through
    [String(...)] and through [=== "..."].  [JOther] stands for a number, an
    array or an object, given by its truthiness and its [String()]
    rendering; the rendering is [None] when the conversion throws a
    [TypeError], as it does for an object with an own [toString] field that
    is not a function, such as the parse of [{"toString": 0}]. *)
Inductive jsval :=
| JUndefined
| JNull
| JBool (b : bool)
| JStr (s : jsstring)
| JOther (truthy : bool) (rendering : option jsstring).

Definition truthy (v : jsval) : bool :=
  match v with
  | JUndefined | JNull => false
  | JBool b => b
  | JStr s => negb (is_empty s)
  | JOther t _ => t
  end.

Definition toString (v : jsval) : option jsstring :=
  match v with
  | JUndefined => Some (js "undefined")
  | JNull => Some (js "null")
  | JBool true => Some (js "true")
  | JBool false => Some (js "false")
  | JStr s => Some s
  | JOther _ r => r
  end.

(** [String(v || '')]: the empty string stands in for a falsy value. *)
Definition string_or_empty (v : jsval) : option jsstring :=
  if truthy v then toString v else Some [].

(** [v === "lit"] *)
Definition is_str (v : jsval) (lit : jsstring) : bool :=
  match v with JStr s => str_eqb s lit | _ => false end.

(** A value as [JSON.parse] builds it, for the one field that the server
    hands on as it is ([data]).  A number is a double: a numeral beyond the
    range of doubles, such as [1e400], parses to an infinity, and [-0] to
    the negative zero.  An object is the list of its own properties in
    enumeration order. *)
Unset Elimination Schemes.
Inductive json :=
| JsonNull
| JsonBool (b : bool)
| JsonNumber (x : spec_float)
| JsonString (s : jsstring)
| JsonArray (items : list json)
| JsonObject (props : list (jsstring * json)).
Set Elimination Schemes.

(** What [JSON.stringify] writes for a number, as the value the text
    denotes: [null] for an infinity or a NaN, [0] for either zero, and
    digits that read back as the same double otherwise. *)
Definition written_number (x : spec_float) : json :=
  match x with
  | S754_finite _ _ _ => JsonNumber x
  | S754_zero _ => JsonNumber (S754_zero false)
  | S754_infinity _ | S754_nan => JsonNull
  end.

(** [JSON.stringify(v)] for a value that [JSON.parse] built, as the value
    the text denotes: what the receiver's [JSON.parse] makes of it.
    Strings, booleans and [null] are written as they are, arrays and objects
    element by element.  (This is [JSON.stringify] as ECMAScript defines it;
    the stack limit an engine puts on very deep values is not modelled.) *)
Fixpoint written (v : json) : json :=
  match v with
  | JsonNumber x => written_number x
  | JsonArray items => JsonArray (map written items)
  | JsonObject props =>
      JsonObject
        (map (fun kv : jsstring * json => let (k, v') := kv in (k, written v'))
             props)
  | _ => v
  end.

(** A value that JSON text can carry as it is: no number in it, at any
    depth, is an infinity, a NaN or the negative zero. *)
Fixpoint representable (v : json) : bool :=
  match v with
  | JsonNumber (S754_finite _ _ _) => true
  | JsonNumber (S754_zero negative) => negb negative
  | JsonNumber _ => false
  | JsonArray items => forallb representable items
  | JsonObject props =>
      forallb (fun kv : jsstring * json => let (_, v') := kv in
                                           representable v') props
  | _ => true
  end.

(** Induction on a value, with the property known of the elements of an
    array and of the property values of an object. *)
Section JsonInduction.
Variable P : json -> Prop.
Hypothesis P_null : P JsonNull.
Hypothesis P_bool : forall b, P (JsonBool b).
Hypothesis P_number : forall x, P (JsonNumber x).
Hypothesis P_string : forall s, P (JsonString s).
Hypothesis P_array : forall items, Forall P items -> P (JsonArray items).
Hypothesis P_object :
  forall props, Forall (fun kv => P (snd kv)) props -> P (JsonObject props).

Fixpoint json_ind (v : json) : P v :=
  match v with
  | JsonNull => P_null
  | JsonBool b => P_bool b
  | JsonNumber x => P_number x
  | JsonString s => P_string s
  | JsonArray items =>
      P_array
        ((fix all (l : list json) : Forall P l :=
            match l with
            | [] => Forall_nil P
            | x :: l' => Forall_cons x (json_ind x) (all l')
            end) items)
  | JsonObject props =>
      P_object
        ((fix all (l : list (jsstring * json))
            : Forall (fun kv => P (snd kv)) l :=
            match l with
            | [] => Forall_nil _
            | (k, x) :: l' =>
                Forall_cons (P := fun kv => P (snd kv)) (k, x)
                  (json_ind x) (all l')
            end) props)
  end.
End JsonInduction.

(** The fields of a parsed message that the server reads; a field the
    message does not have is [JUndefined], and [None] for [data]. *)
Record Msg := mkMsg {
  msg_type : jsval;
  msg_roomId : jsval;
  msg_role : jsval;
  msg_name : jsval;
  msg_to : jsval;
  msg_data : option json;
  msg_message : jsval
}.

(** What [JSON.parse(raw.toString("utf8"))] gives: a syntax error, the value
    [null] (whose [.type] cannot be read), or any other value. *)
Inductive inbound :=
| Unparseable
| ParsedNull
| Parsed (m : Msg).

(* ================================================================= *)
(** ** Data model *)

Definition handle := nat.

Inductive Role := Host | Viewer.

Definition Role_eqb (a b : Role) : bool :=
  match a, b with
  | Host, Host | Viewer, Viewer => true
  | _, _ => false
  end.

Inductive ReadyState := OPEN | CLOSING | CLOSED.

(** The fields of a [ws] object the server reads or writes. *)
Record WebSocket := mkWs {
  clientId : jsstring;
  roomId : option jsstring;
  role : option Role;
  isAlive : bool;
  readyState : ReadyState
}.

Record Room := mkRoom {
  room_roomId : jsstring;
  hostId : option jsstring;
  clients : JsMap.t handle;
  roles : JsMap.t Role;
  names : JsMap.t jsstring;
  createdAt : Z
}.

Record Descriptor := mkDesc { d_id : jsstring; d_name : jsstring }.

Record Roster := mkRoster {
  host : option Descriptor;
  viewers : list Descriptor
}.

(** Outbound messages, one constructor per [type]. *)
Inductive outmsg :=
| MHello (id : jsstring)
| MError (message : jsstring)
| MJoined (rid id : jsstring) (r : Role) (hostIdField : option jsstring)
          (ros : Roster)
| MSystem (message : jsstring)
| MHostReady (hid : jsstring)
| MViewerJoined (rid viewerId viewerName : jsstring)
| MViewerLeft (rid viewerId : jsstring)
| MHostLeft (rid message : jsstring)
| MSignal (rid from : jsstring) (data : option json)
| MChat (rid from name message : jsstring) (ts : Z).

(** Calls into the [ws] library. *)
Inductive effect :=
| WsSend (h : handle) (obj : outmsg)
| WsClose (h : handle)
| WsTerminate (h : handle)
| WsPing (h : handle).

(** The process state: the global [rooms] map, the heap of socket objects,
    and [wss.clients]. *)
Record Server := mkServer {
  rooms : JsMap.t Room;
  sockets : list WebSocket;
  wss_clients : list handle
}.

Definition init : Server := mkServer [] [] [].

(** *** Field updates *)

Definition set_rooms (rs : JsMap.t Room) (st : Server) : Server :=
  mkServer rs (sockets st) (wss_clients st).

Fixpoint list_upd {A} (n : nat) (x : A) (l : list A) : list A :=
  match l, n with
  | [], _ => []
  | _ :: l', O => x :: l'
  | y :: l', S n' => y :: list_upd n' x l'
  end.

Definition sock (st : Server) (h : handle) : option WebSocket :=
  nth_error (sockets st) h.

Definition set_sock (h : handle) (w : WebSocket) (st : Server) : Server :=
  mkServer (rooms st) (list_upd h w (sockets st)) (wss_clients st).

Definition set_membership (w : WebSocket) (rid : option jsstring)
  (r : option Role) : WebSocket :=
  mkWs (clientId w) rid r (isAlive w) (readyState w).

Definition set_isAlive (w : WebSocket) (b : bool) : WebSocket :=
  mkWs (clientId w) (roomId w) (role w) b (readyState w).

Definition set_readyState (w : WebSocket) (s : ReadyState) : WebSocket :=
  mkWs (clientId w) (roomId w) (role w) (isAlive w) s.

Definition set_hostId (hid : option jsstring) (room : Room) : Room :=
  mkRoom (room_roomId room) hid (clients room) (roles room) (names room)
         (createdAt room).

(** The three [set] calls of a join, and the three [delete] calls of a
    rollback or a close. *)
Definition insert_member (cid : jsstring) (h : handle) (r : Role)
  (name : jsstring) (room : Room) : Room :=
  mkRoom (room_roomId room) (hostId room)
         (JsMap.set cid h (clients room))
         (JsMap.set cid r (roles room))
         (JsMap.set cid name (names room))
         (createdAt room).

Definition remove_member (cid : jsstring) (room : Room) : Room :=
  mkRoom (room_roomId room) (hostId room)
         (JsMap.delete cid (clients room))
         (JsMap.delete cid (roles room))
         (JsMap.delete cid (names room))
         (createdAt room).

(** A room is an object held by reference in [rooms]: writing a field of
    the room is writing the entry of the map. *)
Definition put_room (rid : jsstring) (room : Room) (st : Server) : Server :=
  set_rooms (JsMap.set rid room (rooms st)) st.

(** *** The [ws] library, as far as the server's own reads depend on it *)

(** [ws.close()]: an open socket starts the closing handshake. *)
Definition lib_close (h : handle) (st : Server) : Server :=
  match sock st h with
  | Some w =>
      match readyState w with
      | OPEN => set_sock h (set_readyState w CLOSING) st
      | _ => st
      end
  | None => st
  end.

(** [ws.terminate()]: the socket is destroyed; it is [CLOSING] until its
    close event. *)
Definition lib_terminate (h : handle) (st : Server) : Server :=
  match sock st h with
  | Some w =>
      match readyState w with
      | CLOSED => st
      | _ => set_sock h (set_readyState w CLOSING) st
      end
  | None => st
  end.

(* ================================================================= *)
(** ** The helpers of server.js *)

Definition is_open (st : Server) (h : handle) : bool :=
  match sock st h with
  | Some w => match readyState w with OPEN => true | _ => false end
  | None => false
  end.

(** [JSON.stringify(obj)] for the object of an outbound message, as the
    message the text denotes.  Every field but the [data] of a relayed
    signal is a string or an integer, written as it is; a [data] that is
    [undefined] is left out. *)
Definition stringify (obj : outmsg) : outmsg :=
  match obj with
  | MSignal rid from data => MSignal rid from (option_map written data)
  | _ => obj
  end.

(** [safeSend(ws, obj)]: nothing for a missing socket or one that is not
    [OPEN], else [ws.send(JSON.stringify(obj))]. *)
Definition safeSend (st : Server) (ws : option handle) (obj : outmsg)
  : list effect :=
  match ws with
  | None => []
  | Some h => if is_open st h then [WsSend h (stringify obj)] else []
  end.

Definition broadcast (st : Server) (room : Room) (obj : outmsg)
  : list effect :=
  flat_map (fun h => safeSend st (Some h) obj) (JsMap.values (clients room)).

Definition getRoom (rid : jsstring) (st : Server) : option Room :=
  JsMap.get rid (rooms st).

Definition ensureRoom (now : Z) (rid : jsstring) (st : Server)
  : Room * Server :=
  match JsMap.get rid (rooms st) with
  | Some room => (room, st)
  | None =>
      let room := mkRoom rid None JsMap.empty JsMap.empty JsMap.empty now in
      (room, put_room rid room st)
  end.

Definition deleteRoom (rid : jsstring) (st : Server) : Server :=
  set_rooms (JsMap.delete rid (rooms st)) st.

(** [m.get(k) || dflt] for a map of strings. *)
Definition get_or (k : jsstring) (m : JsMap.t jsstring) (dflt : jsstring)
  : jsstring :=
  match JsMap.get k m with
  | Some s => str_or s dflt
  | None => dflt
  end.

(** Truthiness of [room.hostId] and of [ws.roomId]: [null] and the empty
    string are falsy. *)
Definition truthy_id (o : option jsstring) : bool :=
  match o with
  | Some (_ :: _) => true
  | _ => false
  end.

(** [m.get(o)] for a key that may be [null]. *)
Definition get_opt {V} (o : option jsstring) (m : JsMap.t V) : option V :=
  match o with
  | Some k => JsMap.get k m
  | None => None
  end.

Definition viewer_descriptors (room : Room) : list Descriptor :=
  flat_map (fun e : jsstring * Role =>
              match snd e with
              | Viewer => [mkDesc (fst e) (get_or (fst e) (names room) (js "Viewer"))]
              | Host => []
              end)
           (JsMap.entries (roles room)).

Definition roster (room : Room) : Roster :=
  mkRoster
    (match hostId room with
     | Some hid =>
         if truthy_id (Some hid)
         then Some (mkDesc hid (get_or hid (names room) (js "Host")))
         else None
     | None => None
     end)
    (viewer_descriptors room).

(* ================================================================= *)
(** ** The message handlers *)

Definition default_name (r : Role) : jsstring :=
  match r with Host => js "Host" | Viewer => js "Viewer" end.

Definition join_roomId (m : Msg) : option jsstring :=
  option_map trim (string_or_empty (msg_roomId m)).

Definition join_role (m : Msg) : Role :=
  if is_str (msg_role m) (js "host") then Host else Viewer.

Definition join_name (m : Msg) : option jsstring :=
  option_map
    (fun s => str_or (slice0 40 (trim s)) (default_name (join_role m)))
    (string_or_empty (msg_name m)).

(** [!room.hostId || !room.clients.get(room.hostId)] *)
Definition host_absent (room : Room) : bool :=
  negb (truthy_id (hostId room))
  || match get_opt (hostId room) (clients room) with
     | Some _ => false
     | None => true
     end.

(** The [host_ready] loop over [room.roles.entries()]. *)
Definition notify_viewers (st : Server) (room : Room) (cid : jsstring)
  : list effect :=
  flat_map (fun e : jsstring * Role =>
              match snd e with
              | Viewer =>
                  if str_eqb (fst e) cid then []
                  else safeSend st (JsMap.get (fst e) (clients room))
                                (MHostReady cid)
              | Host => []
              end)
           (JsMap.entries (roles room)).

(** The join handler once [roomId], [role] and [name] are computed. *)
Definition join_room (now : Z) (h : handle) (ws : WebSocket)
  (rid : jsstring) (r : Role) (name : jsstring) (st : Server)
  : Server * list effect :=
  if is_empty rid
  then (st, safeSend st (Some h) (MError (js "Missing roomId")))
  else
    let (room0, st1) := ensureRoom now rid st in
    let cid := clientId ws in
    let room1 := insert_member cid h r name room0 in
    match r with
    | Host =>
        let room2 := set_hostId (Some cid) room1 in
        let st2 :=
          put_room rid room2
            (set_sock h (set_membership ws (Some rid) (Some r)) st1) in
        (st2,
         safeSend st2 (Some h) (MJoined rid cid r None (roster room2))
         ++ broadcast st2 room2
              (MSystem (name ++ js " is hosting room " ++ rid))
         ++ notify_viewers st2 room2 cid)
    | Viewer =>
        if host_absent room1
        then
          let room2 := remove_member cid room1 in
          let st2 :=
            put_room rid room2 (set_sock h (set_membership ws None None) st1) in
          (st2,
           safeSend st2 (Some h)
             (MError (js "Room exists but host is not online yet.")))
        else
          let st2 :=
            put_room rid room1
              (set_sock h (set_membership ws (Some rid) (Some r)) st1) in
          (st2,
           safeSend st2 (Some h)
             (MJoined rid cid r (hostId room1) (roster room1))
           ++ safeSend st2 (get_opt (hostId room1) (clients room1))
                (MViewerJoined rid cid name)
           ++ broadcast st2 room1 (MSystem (name ++ js " joined.")))
    end.

(** [type === "join"]; [None] when a [String(...)] conversion throws. *)
Definition on_join (now : Z) (h : handle) (ws : WebSocket) (m : Msg)
  (st : Server) : option (Server * list effect) :=
  match join_roomId m with
  | None => None
  | Some rid =>
      match join_name m with
      | None => None
      | Some name => Some (join_room now h ws rid (join_role m) name st)
      end
  end.

(** The guard shared by [signal] and [chat]: [ws.roomId] is set and names a
    room of the store. *)
Definition current_room (ws : WebSocket) (st : Server)
  : jsstring * option Room + jsstring :=
  if truthy_id (roomId ws)
  then match roomId ws with
       | Some rid => inl (rid, getRoom rid st)
       | None => inr (js "Not in a room")
       end
  else inr (js "Not in a room").

Definition signal_target (m : Msg) : option jsstring :=
  option_map trim (string_or_empty (msg_to m)).

(** [type === "signal"] *)
Definition on_signal (h : handle) (ws : WebSocket) (m : Msg) (st : Server)
  : option (Server * list effect) :=
  match current_room ws st with
  | inr e => Some (st, safeSend st (Some h) (MError e))
  | inl (_, None) =>
      Some (st, safeSend st (Some h) (MError (js "Room not found")))
  | inl (rid, Some room) =>
      match signal_target m with
      | None => None
      | Some to =>
          if is_empty to || negb (JsMap.has to (clients room))
          then Some (st, safeSend st (Some h)
                           (MError (js "Invalid 'to' target")))
          else Some (st, safeSend st (JsMap.get to (clients room))
                           (MSignal rid (clientId ws) (msg_data m)))
      end
  end.

Definition chat_text (m : Msg) : option jsstring :=
  option_map (slice0 2000) (string_or_empty (msg_message m)).

(** [type === "chat"] *)
Definition on_chat (now : Z) (h : handle) (ws : WebSocket) (m : Msg)
  (st : Server) : option (Server * list effect) :=
  match current_room ws st with
  | inr e => Some (st, safeSend st (Some h) (MError e))
  | inl (_, None) =>
      Some (st, safeSend st (Some h) (MError (js "Room not found")))
  | inl (rid, Some room) =>
      match chat_text m with
      | None => None
      | Some message =>
          let senderName := get_or (clientId ws) (names room) (js "User") in
          Some (st, broadcast st room
                      (MChat rid (clientId ws) senderName message now))
      end
  end.

(** [type === "leave"] *)
Definition on_leave (h : handle) (st : Server) : Server * list effect :=
  (lib_close h st, [WsClose h]).

(** The fall-through of the dispatcher; the template literal converts
    [type] to a string. *)
Definition on_unknown (h : handle) (m : Msg) (st : Server)
  : option (Server * list effect) :=
  match toString (msg_type m) with
  | None => None
  | Some t =>
      Some (st, safeSend st (Some h)
                  (MError (js "Unknown message type: " ++ t)))
  end.

Definition dispatch (now : Z) (h : handle) (ws : WebSocket) (m : Msg)
  (st : Server) : option (Server * list effect) :=
  if is_str (msg_type m) (js "join") then on_join now h ws m st
  else if is_str (msg_type m) (js "signal") then on_signal h ws m st
  else if is_str (msg_type m) (js "chat") then on_chat now h ws m st
  else if is_str (msg_type m) (js "leave") then Some (on_leave h st)
  else on_unknown h m st.

(** [ws.on("message")]; [None] is a [TypeError] that nothing catches: the
    one of reading [.type] of [null], or one thrown by a handler. *)
Definition on_message (now : Z) (h : handle) (ws : WebSocket) (raw : inbound)
  (st : Server) : option (Server * list effect) :=
  match raw with
  | Unparseable => Some (st, safeSend st (Some h) (MError (js "Invalid JSON")))
  | ParsedNull => None
  | Parsed m => dispatch now h ws m st
  end.

(* ================================================================= *)
(** ** The close handler *)

(** [for (const otherWs of room.clients.values()) otherWs.close()] *)
Definition close_all (hs : list handle) (st : Server) : Server :=
  fold_left (fun s h' => lib_close h' s) hs st.

(** [ws.on("close")] *)
Definition on_close (h : handle) (ws : WebSocket) (st : Server)
  : Server * list effect :=
  match current_room ws st with
  | inr _ => (st, [])
  | inl (_, None) => (st, [])
  | inl (rid, Some room) =>
      let cid := clientId ws in
      let name :=
        get_or cid (names room)
          (match role ws with Some Host => js "Host" | _ => js "Viewer" end) in
      let room1 := remove_member cid room in
      let st1 := put_room rid room1 st in
      if match hostId room1 with Some hid => str_eqb hid cid | None => false end
      then
        let others := JsMap.values (clients room1) in
        (deleteRoom rid (close_all others st1),
         broadcast st1 room1
           (MHostLeft rid (js "Host left. Room closed."))
         ++ map WsClose others)
      else
        let to_host :=
          if truthy_id (hostId room1)
             && match get_opt (hostId room1) (clients room1) with
                | Some _ => true
                | None => false
                end
          then safeSend st1 (get_opt (hostId room1) (clients room1))
                 (MViewerLeft rid cid)
          else [] in
        let st2 :=
          if Nat.eqb (JsMap.size (clients room1)) 0
          then deleteRoom rid st1 else st1 in
        (st2, to_host ++ broadcast st1 room1 (MSystem (name ++ js " left.")))
  end.

(* ================================================================= *)
(** ** Keepalive *)

(** One iteration of the [setInterval] loop body. *)
Definition sweep_one (acc : Server * list effect) (h : handle)
  : Server * list effect :=
  let (st, out) := acc in
  match sock st h with
  | None => acc
  | Some w =>
      if isAlive w
      then (set_sock h (set_isAlive w false) st, out ++ [WsPing h])
      else (lib_terminate h st, out ++ [WsTerminate h])
  end.

(** [for (const ws of wss.clients) ...] *)
Definition sweep (st : Server) : Server * list effect :=
  fold_left sweep_one (wss_clients st) (st, []).

(* ================================================================= *)
(** ** The event loop *)

(** What the runtime delivers to the server: a new connection with the
    [uuidv4()] drawn for it, a message, a pong, the close event of a socket,
    and a timer tick. *)
Inductive event :=
| Connect (uuid : jsstring)
| Message (h : handle) (raw : inbound) (now : Z)
| Pong (h : handle)
| Closed (h : handle)
| Tick.

(** [wss.on("connection")] *)
Definition on_connection (uuid : jsstring) (st : Server)
  : Server * list effect :=
  let h := List.length (sockets st) in
  let st1 :=
    mkServer (rooms st)
             (sockets st ++ [mkWs uuid None None true OPEN])
             (wss_clients st ++ [h]) in
  (st1, safeSend st1 (Some h) (MHello uuid)).

Definition deregister (h : handle) (st : Server) : Server :=
  mkServer (rooms st) (sockets st)
           (filter (fun h' => negb (Nat.eqb h h')) (wss_clients st)).

(** The close event of socket [h], whose record is [w]: the library marks
    it [CLOSED] and drops it from [wss.clients], then the close handler
    runs. *)
Definition close_event (h : handle) (w : WebSocket) (st : Server)
  : Server * list effect :=
  let w' := set_readyState w CLOSED in
  on_close h w' (deregister h (set_sock h w' st)).

(** One event.  The library delivers messages and pongs only for a socket
    that has not closed, and the close event of a socket once.  [None]: the
    event cannot occur, or the handler threw. *)
Definition step (st : Server) (e : event) : option (Server * list effect) :=
  match e with
  | Connect uuid => Some (on_connection uuid st)
  | Message h raw now =>
      match sock st h with
      | Some w =>
          match readyState w with
          | CLOSED => None
          | _ => on_message now h w raw st
          end
      | None => None
      end
  | Pong h =>
      match sock st h with
      | Some w =>
          match readyState w with
          | CLOSED => None
          | _ => Some (set_sock h (set_isAlive w true) st, [])
          end
      | None => None
      end
  | Closed h =>
      match sock st h with
      | Some w =>
          match readyState w with
          | CLOSED => None
          | _ => Some (close_event h w st)
          end
      | None => None
      end
  | Tick => Some (sweep st)
  end.

(** A run from a state: the final state and the whole trace. *)
Fixpoint run (st : Server) (evs : list event)
  : option (Server * list effect) :=
  match evs with
  | [] => Some (st, [])
  | e :: evs' =>
      match step st e with
      | Some (st1, out1) =>
          match run st1 evs' with
          | Some (st2, out2) => Some (st2, out1 ++ out2)
          | None => None
          end
      | None => None
      end
  end.

Definition reachable (st : Server) : Prop :=
  exists evs out, run init evs = Some (st, out).

(* ================================================================= *)
(** ** Predicates used by the properties *)

(** The three indexes of a room have the same keys, in the same order. *)
Definition index_consistent (room : Room) : Prop :=
  JsMap.keys (clients room) = JsMap.keys (roles room)
  /\ JsMap.keys (roles room) = JsMap.keys (names room).

(** A property of every room of the store. *)
Definition every_room (P : Room -> Prop) (st : Server) : Prop :=
  Forall (fun e => P (snd e)) (rooms st).

Definition rooms_consistent : Server -> Prop := every_room index_consistent.

(** A [Map] holds each key once. *)
Definition map_wf {V} (m : JsMap.t V) : Prop := NoDup (JsMap.keys m).

Definition room_wf (room : Room) : Prop :=
  map_wf (clients room) /\ map_wf (roles room) /\ map_wf (names room).

(** The room a join works on: the room fetched or created under the
    requested identifier, with the joiner inserted in the three indexes. *)
Definition join_target (now : Z) (h : handle) (ws : WebSocket)
  (rid : jsstring) (r : Role) (name : jsstring) (st : Server) : Room :=
  insert_member (clientId ws) h r name (fst (ensureRoom now rid st)).

Definition is_error (e : effect) : Prop :=
  exists h msg, e = WsSend h (MError msg).

(** *** How sockets change along a run *)

Definition alive (st : Server) (h : handle) : option bool :=
  option_map isAlive (sock st h).

(** A socket is [CLOSED] after the step exactly when it was before. *)
Definition same_closed (w w' : WebSocket) : Prop :=
  readyState w' = CLOSED <-> readyState w = CLOSED.

(** ... and its liveness flag is untouched. *)
Definition stable (w w' : WebSocket) : Prop :=
  isAlive w' = isAlive w /\ same_closed w w'.

Definition evolves (R : WebSocket -> WebSocket -> Prop) (st st' : Server)
  : Prop :=
  wss_clients st' = wss_clients st
  /\ forall h w, sock st h = Some w ->
                 exists w', sock st' h = Some w' /\ R w w'.

(** [wss.clients] is a set of sockets that have not closed. *)
Definition registry_ok (st : Server) : Prop :=
  NoDup (wss_clients st)
  /\ forall h, In h (wss_clients st) ->
               exists w, sock st h = Some w /\ readyState w <> CLOSED.

(** An event that is neither a pong of [h], nor its close event, nor a
    sweep. *)
Definition quiet (h : handle) (e : event) : Prop :=
  e <> Pong h /\ e <> Closed h /\ e <> Tick.

(** The keepalive calls made on the socket [h]. *)
Definition about (h : handle) (e : effect) : Prop :=
  e = WsPing h \/ e = WsTerminate h.

(* ================================================================= *)
(** ** Sample messages and runs *)

Definition no_fields : Msg :=
  mkMsg JUndefined JUndefined JUndefined JUndefined JUndefined None
        JUndefined.

Definition join_msg (rid r name : string) : Msg :=
  mkMsg (JStr (js "join")) (JStr (js rid)) (JStr (js r)) (JStr (js name))
        JUndefined None JUndefined.

Definition signal_msg (to : string) (data : option json) : Msg :=
  mkMsg (JStr (js "signal")) JUndefined JUndefined JUndefined
        (JStr (js to)) data JUndefined.

Definition chat_msg (text : string) : Msg :=
  mkMsg (JStr (js "chat")) JUndefined JUndefined JUndefined JUndefined
        None (JStr (js text)).

Definition typed_msg (ty : string) : Msg :=
  mkMsg (JStr (js ty)) JUndefined JUndefined JUndefined JUndefined
        None JUndefined.

(** The parse of [{"type": {"toString": 0}}]. *)
Definition unprintable_type_msg : Msg :=
  mkMsg (JOther true None) JUndefined JUndefined JUndefined JUndefined
        None JUndefined.

Definition final (r : option (Server * list effect)) : Server :=
  match r with Some (st, _) => st | None => init end.

Definition trace (r : option (Server * list effect)) : list effect :=
  match r with Some (_, out) => out | None => [] end.

(** The room stored under a key, or an empty room when there is none. *)
Definition room_at (rid : string) (st : Server) : Room :=
  match getRoom (js rid) st with
  | Some room => room
  | None => mkRoom [] None [] [] [] 0
  end.

(** The socket behind a handle, or a closed anonymous one. *)
Definition sock_at (h : handle) (st : Server) : WebSocket :=
  match sock st h with
  | Some w => w
  | None => mkWs [] None None false CLOSED
  end.

(** Socket 0 (identifier "H") hosts room "r1"; socket 1 (identifier "V")
    views it. *)
Definition hosted_room_events : list event :=
  [ Connect (js "H"); Connect (js "V");
    Message 0 (Parsed (join_msg "r1" "host" "Ann")) 100;
    Message 1 (Parsed (join_msg "r1" "viewer" "Bob")) 101 ].

Definition hosted_room : Server := final (run init hosted_room_events).

(** A viewer asks for a room nobody has named before. *)
Definition unseen_room_events : list event :=
  [ Connect (js "V");
    Message 0 (Parsed (join_msg "zz" "viewer" "Bob")) 100 ].

(** The host of "r1" joins a second room "r2", then its socket closes. *)
Definition second_join_events : list event :=
  hosted_room_events
  ++ [ Message 0 (Parsed (join_msg "r2" "host" "Ann")) 102 ].

Definition second_join : Server := final (run init second_join_events).

Definition stale_host_events : list event :=
  second_join_events ++ [ Closed 0 ].

(** A third connection arrives and takes "r1" over from socket 0. *)
Definition before_takeover : Server :=
  final (run init (hosted_room_events ++ [Connect (js "H2")])).

Definition takeover_events : list event :=
  hosted_room_events
  ++ [ Connect (js "H2");
       Message 2 (Parsed (join_msg "r1" "host" "Cid")) 103 ].

Definition takeover : Server := final (run init takeover_events).

(** A viewer chats between two sweeps; nobody answers a ping. *)
Definition silent_events : list event :=
  [ Message 1 (Parsed (chat_msg "hi")) 150 ].

(* ================================================================= *)
(** ** The room-identifier endpoint and the client's pure helpers *)

(** [s.split("-")[0]]: the code units before the first dash. *)
Fixpoint first_segment (s : jsstring) : jsstring :=
  match s with
  | [] => []
  | c :: s' => if N.eqb c 45 then [] else c :: first_segment s'
  end.

(** [GET /api/new-room]: the [roomId] of the reply, from the [uuidv4()]
    drawn for the request. *)
Definition new_room (uuid : jsstring) : jsstring := first_segment uuid.

(** [s.replaceAll(c, r)] for a pattern of one code unit and a replacement
    without [$]. *)
Definition replaceAll (c : N) (r : jsstring) (s : jsstring) : jsstring :=
  flat_map (fun x => if N.eqb x c then r else [x]) s.

(** The five replacements of [escapeHtml] in client.js, in their order. *)
Definition escape_text (s : jsstring) : jsstring :=
  replaceAll 39 (js "&#039;")
    (replaceAll 34 (js "&quot;")
       (replaceAll 62 (js "&gt;")
          (replaceAll 60 (js "&lt;")
             (replaceAll 38 (js "&amp;") s)))).

(** [escapeHtml(s)] of client.js, which starts with [String(s)]. *)
Definition escapeHtml (v : jsval) : option jsstring :=
  option_map escape_text (toString v).

(** What one code unit becomes in [escapeHtml]. *)
Definition escape_unit (c : N) : jsstring :=
  if N.eqb c 38 then js "&amp;"
  else if N.eqb c 60 then js "&lt;"
  else if N.eqb c 62 then js "&gt;"
  else if N.eqb c 34 then js "&quot;"
  else if N.eqb c 39 then js "&#039;"
  else [c].

Definition markup_unit (c : N) : bool :=
  N.eqb c 38 || N.eqb c 60 || N.eqb c 62 || N.eqb c 34 || N.eqb c 39.

(* ================================================================= *)
(** ** Invariants of the store *)

Definition name_ok (n : jsstring) : Prop :=
  n <> [] /\ List.length n <= 40.

(** What holds of the room stored under [rid]: it carries its key, the key
    is a trimmed non-empty string, a non-empty host identifier is a member,
    a room without host identifier has no member, names are non-empty and
    short, and each member's handle is a socket carrying the member's
    identifier. *)
Definition room_ok (st : Server) (rid : jsstring) (room : Room) : Prop :=
  room_roomId room = rid
  /\ rid <> []
  /\ trim rid = rid
  /\ (forall hid, hostId room = Some hid -> hid <> [] ->
                  JsMap.has hid (clients room) = true)
  /\ (hostId room = None -> clients room = [])
  /\ (forall id n, In (id, n) (names room) -> name_ok n)
  /\ (forall id h, In (id, h) (clients room) ->
                   exists w, sock st h = Some w /\ clientId w = id).

Definition store_ok (st : Server) : Prop :=
  map_wf (rooms st)
  /\ Forall (fun e => room_ok st (fst e) (snd e)) (rooms st).

(** The identifiers carried by the sockets of the heap, by handle. *)
Definition ids (st : Server) : list jsstring := map clientId (sockets st).

(** A send on the socket [h]. *)
Definition is_send_to (h : handle) (e : effect) : Prop :=
  exists obj, e = WsSend h obj.

Definition leave_msg : Msg :=
  mkMsg (JStr (js "leave")) JUndefined JUndefined JUndefined JUndefined
        None JUndefined.

(** A join whose [roomId] is white space only. *)
Definition blank_join_msg : Msg :=
  mkMsg (JStr (js "join")) (JStr [32; 9; 32]%N) (JStr (js "host"))
        JUndefined JUndefined None JUndefined.

(** Socket 1 leaves room "r1" of [hosted_room] by closing. *)
Definition viewer_gone : Server :=
  fst (close_event 1 (sock_at 1 hosted_room) hosted_room).


(** The socket a library call is made on. *)
Definition call_target (e : effect) : handle :=
  match e with
  | WsSend h _ | WsClose h | WsTerminate h | WsPing h => h
  end.

(** A lower-case hexadecimal digit, as [uuidv4()] prints them. *)
Definition is_hex (c : N) : bool :=
  ((48 <=? c) && (c <=? 57) || (97 <=? c) && (c <=? 102))%N.

(** Socket 0, the host of "r1", closes in [hosted_room]. *)
Definition host_gone : Server :=
  fst (close_event 0 (sock_at 0 hosted_room) hosted_room).

(** The state a rejected join for the unseen room "zz" leaves behind. *)
Definition after_unseen_join : Server := final (run init unseen_room_events).


(** Socket 0 hosts "r1"; socket 1 is connected and has not joined. *)
Definition host_only : Server :=
  final (run init
    [ Connect (js "H"); Connect (js "V");
      Message 0 (Parsed (join_msg "r1" "host" "Ann")) 100 ]).


(** What the close handler makes of [hosted_room] when the viewer's socket
    is the one that closes. *)
Definition viewer_gone_rooms_state : Server :=
  fst (on_close 1 (sock_at 1 hosted_room) hosted_room).


(** The identifiers drawn for the connections among a list of events. *)
Definition uuids (evs : list event) : list jsstring :=
  flat_map (fun e => match e with Connect u => [u] | _ => [] end) evs.

(** An event that is neither the close event of [h] nor a sweep. *)
Definition undisturbed (h : handle) (e : event) : Prop :=
  e <> Closed h /\ e <> Tick.

(** [hosted_room] after one sweep. *)
Definition swept : Server := fst (sweep hosted_room).

(** ... after socket 1 has answered the ping, and a chat line of socket 0. *)
Definition answered_events : list event :=
  [ Message 0 (Parsed (chat_msg "hi")) 300; Pong 1 ].

Definition answered : Server :=
  final (run (final (step swept (Pong 1))) answered_events).


(** [hosted_room] after socket 1 has asked to leave. *)
Definition leaving : Server :=
  final (step hosted_room (Message 1 (Parsed leave_msg) 300)).


(** A room identifier as [/api/new-room] makes it, and the join of the host
    that has just asked for it. *)
Definition sample_uuid : jsstring := js "3f2a9c1e-7b2d-4c1a-9e0f-5a6b7c8d9e0f".

Definition new_room_join : Msg :=
  mkMsg (JStr (js "join")) (JStr (new_room sample_uuid)) (JStr (js "host"))
        JUndefined JUndefined None JUndefined.

(** The code units that [escapeHtml] leaves in no output. *)
Definition delimiter (c : N) : bool :=
  N.eqb c 60 || N.eqb c 62 || N.eqb c 34 || N.eqb c 39.


(** A [data] payload as the page sends it (client.js, line 202): the parse
    of [{"description": {"type": "offer", "sdp": "v=0"}}]. *)
Definition offer : json :=
  JsonObject
    [(js "description",
      JsonObject [(js "type", JsonString (js "offer"));
                  (js "sdp", JsonString (js "v=0"))])].

(** The parse of the numeral [1e400], beyond the range of doubles. *)
Definition overflow : json := JsonNumber (S754_infinity false).


(** Whether [id] is a key of the handle, the role and the name index of the
    room stored under [rid]; all [false] when no room is stored there. *)
Definition in_indexes (id rid : jsstring) (st : Server) : bool * bool * bool :=
  match getRoom rid st with
  | Some room =>
      (JsMap.has id (clients room), JsMap.has id (roles room),
       JsMap.has id (names room))
  | None => (false, false, false)
  end.

(** Whether a join that reached the room [rid] keeps the joiner in it: a
    host always, a viewer unless the test of line 156 sends it away. *)
Definition join_kept (now : Z) (h : handle) (ws : WebSocket) (rid : jsstring)
  (r : Role) (name : jsstring) (st : Server) : bool :=
  match r with
  | Host => true
  | Viewer => negb (host_absent (join_target now h ws rid r name st))
  end.


(* ================================================================= *)
(** ** What the library does after a sweep *)

(** The sockets that a list of library calls destroys. *)
Definition terminated (out : list effect) : list handle :=
  flat_map (fun e => match e with WsTerminate h => [h] | _ => [] end) out.

(** [ws.terminate()] destroys the socket, and the library emits the close
    event of a socket that is destroyed: the close events that the calls of
    a handler bring about, in the order of the calls. *)
Definition emitted (out : list effect) : list event :=
  map Closed (terminated out).

(** A tick of the keepalive timer with what the library makes of it: the
    sweep, then the close events of the sockets the sweep destroyed. *)
Definition reap (st : Server) : option (Server * list effect) :=
  run st (Tick :: emitted (snd (sweep st))).

(** The tick played at [st] reaps the socket [h], whose record is [w]: the
    sweep calls [terminate()] on it; its close event is among those the
    tick brings about, once; after the tick the socket is [CLOSED] and out
    of [wss.clients], its identifier is in no index of the room it was in,
    and its close event cannot occur again. *)
Definition reaped (h : handle) (w : WebSocket) (st : Server) : Prop :=
  exists st' out',
    reap st = Some (st', out')
    /\ In (WsTerminate h) out'
    /\ (exists a b,
          emitted (snd (sweep st)) = a ++ Closed h :: b
          /\ ~ In (Closed h) a /\ ~ In (Closed h) b)
    /\ ~ In h (wss_clients st')
    /\ (exists w', sock st' h = Some w' /\ readyState w' = CLOSED)
    /\ (forall rid, roomId w = Some rid -> rid <> [] ->
          in_indexes (clientId w) rid st' = (false, false, false))
    /\ (forall evs r, run st' evs = Some r -> ~ In (Closed h) evs).

(** The identifier and the current room of a socket. *)
Definition identity (st : Server) (h : handle)
  : option (jsstring * option jsstring) :=
  option_map (fun w => (clientId w, roomId w)) (sock st h).


(** [hosted_room] after a tick that nobody answers and a chat line of
    socket 1. *)
Definition unanswered : Server :=
  final (run (final (reap hosted_room)) silent_events).


(** The parse of
    [{"type": "join", "roomId": "r1", "role": "host", "name": {"toString": 0}}]:
    [String(msg.name)] throws. *)
Definition unprintable_name_msg : Msg :=
  mkMsg (JStr (js "join")) (JStr (js "r1")) (JStr (js "host"))
        (JOther true None) JUndefined None JUndefined.

(** The parse of [{"type": "chat", "message": {"toString": 0}}]. *)
Definition unprintable_chat_msg : Msg :=
  mkMsg (JStr (js "chat")) JUndefined JUndefined JUndefined JUndefined None
        (JOther true None).

(** The host of "r1" closes, which deletes the room and calls [close()] on
    the viewer's socket; before the viewer's close event, a third connection
    makes a room "r1" again. *)
Definition recreated_events : list event :=
  hosted_room_events
  ++ [ Closed 0; Connect (js "H2");
       Message 2 (Parsed (join_msg "r1" "host" "Cid")) 103 ].

Definition recreated : Server := final (run init recreated_events).

(** The viewer of "r1" joins "r1" again, under another name. *)
Definition renamed : Server :=
  final (step hosted_room
           (Message 1 (Parsed (join_msg "r1" "viewer" "Rob")) 200)).


(* ################################################################# *)
(** * Properties *)

(* ================================================================= *)
(** ** Facts about strings and maps *)

Lemma str_eqb_eq (a b : jsstring) : str_eqb a b = true <-> a = b.
Proof.
  revert b; induction a as [|x a IH]; intros [|y b]; simpl;
    try (split; [discriminate | discriminate]); try tauto.
  rewrite andb_true_iff, N.eqb_eq, IH.
  split; [intros [-> ->]; reflexivity | intros E; injection E; auto].
Qed.

Lemma str_eqb_refl (a : jsstring) : str_eqb a a = true.
Proof. apply str_eqb_eq; reflexivity. Qed.

Lemma str_eqb_neq (a b : jsstring) : str_eqb a b = false <-> a <> b.
Proof.
  split.
  - intros E ->. rewrite str_eqb_refl in E. discriminate.
  - intros N. destruct (str_eqb a b) eqn:E; [|reflexivity].
    apply str_eqb_eq in E. contradiction.
Qed.

Lemma str_eqb_sym (a b : jsstring) : str_eqb a b = str_eqb b a.
Proof.
  destruct (str_eqb a b) eqn:E.
  - apply str_eqb_eq in E. subst. symmetry. apply str_eqb_refl.
  - symmetry. apply str_eqb_neq. apply str_eqb_neq in E. congruence.
Qed.

Lemma is_empty_true (s : jsstring) : is_empty s = true <-> s = [].
Proof. destruct s; simpl; split; congruence. Qed.

Section MapFacts.
Variable V : Type.
Implicit Types (m : JsMap.t V) (k : jsstring) (v : V).

Lemma get_set_same k v m : JsMap.get k (JsMap.set k v m) = Some v.
Proof.
  induction m as [|[k' v'] m IH]; simpl.
  - now rewrite str_eqb_refl.
  - destruct (str_eqb k k') eqn:E; simpl; rewrite E; auto.
Qed.

Lemma get_set_other k k' v m :
  k <> k' -> JsMap.get k' (JsMap.set k v m) = JsMap.get k' m.
Proof.
  intros N. induction m as [|[k0 v0] m IH]; simpl.
  - assert (str_eqb k' k = false) as -> by (apply str_eqb_neq; congruence).
    reflexivity.
  - destruct (str_eqb k k0) eqn:E; simpl.
    + apply str_eqb_eq in E. subst k0.
      assert (str_eqb k' k = false) as -> by (apply str_eqb_neq; congruence).
      reflexivity.
    + destruct (str_eqb k' k0); auto.
Qed.

Lemma get_delete_same k m : JsMap.get k (JsMap.delete k m) = None.
Proof.
  induction m as [|[k' v'] m IH]; simpl; auto.
  destruct (str_eqb k k') eqn:E; simpl; auto. now rewrite E.
Qed.

Lemma get_delete_other k k' m :
  k <> k' -> JsMap.get k' (JsMap.delete k m) = JsMap.get k' m.
Proof.
  intros N. induction m as [|[k0 v0] m IH]; simpl; auto.
  destruct (str_eqb k k0) eqn:E; simpl.
  - apply str_eqb_eq in E. subst k0.
    assert (str_eqb k' k = false) as -> by (apply str_eqb_neq; congruence).
    exact IH.
  - destruct (str_eqb k' k0); auto.
Qed.

Lemma keys_set k v m :
  JsMap.keys (JsMap.set k v m) = JsMap.ins_key k (JsMap.keys m).
Proof.
  induction m as [|[k' v'] m IH]; simpl; auto.
  destruct (str_eqb k k'); simpl; auto. now f_equal.
Qed.

Lemma keys_delete k m :
  JsMap.keys (JsMap.delete k m) = JsMap.del_key k (JsMap.keys m).
Proof.
  induction m as [|[k' v'] m IH]; simpl; auto.
  destruct (str_eqb k k'); simpl; auto. now f_equal.
Qed.

Lemma get_some_in k v m : JsMap.get k m = Some v -> In (k, v) m.
Proof.
  induction m as [|[k' v'] m IH]; simpl; [discriminate|].
  destruct (str_eqb k k') eqn:E; intros H.
  - apply str_eqb_eq in E. left. congruence.
  - right. auto.
Qed.

Lemma get_none_keys k m : JsMap.get k m = None <-> ~ In k (JsMap.keys m).
Proof.
  induction m as [|[k' v'] m IH]; simpl; [tauto|].
  destruct (str_eqb k k') eqn:E.
  - apply str_eqb_eq in E. subst. split; [discriminate | tauto].
  - apply str_eqb_neq in E. rewrite IH. split; [intros H [A|A]|]; auto.
Qed.

Lemma has_keys k m : JsMap.has k m = true <-> In k (JsMap.keys m).
Proof.
  unfold JsMap.has. destruct (JsMap.get k m) eqn:E.
  - split; [intros _|reflexivity].
    apply get_some_in in E. change k with (fst (k, v)). now apply in_map.
  - split; [discriminate|]. intros H. now apply get_none_keys in E.
Qed.

Lemma in_delete k e m :
  In e (JsMap.delete k m) <-> In e m /\ fst e <> k.
Proof.
  unfold JsMap.delete. rewrite filter_In, negb_true_iff, str_eqb_neq.
  split; intros [A B]; split; auto.
Qed.
End MapFacts.

(* ================================================================= *)
(** ** Room invariants *)

Lemma insert_member_consistent cid h r name room :
  index_consistent room ->
  index_consistent (insert_member cid h r name room).
Proof.
  intros [A B]. unfold index_consistent, insert_member; simpl.
  rewrite !keys_set, A, B. auto.
Qed.

Lemma remove_member_consistent cid room :
  index_consistent room -> index_consistent (remove_member cid room).
Proof.
  intros [A B]. unfold index_consistent, remove_member; simpl.
  rewrite !keys_delete, A, B. auto.
Qed.

Lemma in_ins_key k k' ks :
  In k' (JsMap.ins_key k ks) -> k' = k \/ In k' ks.
Proof.
  induction ks as [|k0 ks IH]; simpl.
  - intros [E|[]]; auto.
  - destruct (str_eqb k k0); simpl; [tauto|]. intros [E|I]; auto.
    destruct (IH I); auto.
Qed.

Lemma NoDup_ins_key k ks : NoDup ks -> NoDup (JsMap.ins_key k ks).
Proof.
  induction 1 as [|k0 ks NI ND IH]; simpl.
  - repeat constructor. intros [].
  - destruct (str_eqb k k0) eqn:E; [now constructor|].
    constructor; auto. intros I. apply in_ins_key in I.
    destruct I as [->|I]; [|contradiction].
    rewrite str_eqb_refl in E. discriminate.
Qed.

Lemma wf_set (V : Type) k (v : V) m : map_wf m -> map_wf (JsMap.set k v m).
Proof. unfold map_wf. rewrite keys_set. apply NoDup_ins_key. Qed.

Lemma wf_delete (V : Type) k (m : JsMap.t V) :
  map_wf m -> map_wf (JsMap.delete k m).
Proof. unfold map_wf. rewrite keys_delete. apply NoDup_filter. Qed.

Lemma insert_member_wf cid h r name room :
  room_wf room -> room_wf (insert_member cid h r name room).
Proof. intros (A & B & C). repeat split; simpl; now apply wf_set. Qed.

Lemma remove_member_wf cid room :
  room_wf room -> room_wf (remove_member cid room).
Proof. intros (A & B & C). repeat split; simpl; now apply wf_delete. Qed.

Section ForallMap.
Variable V : Type.
Variable P : V -> Prop.
Implicit Types (m : JsMap.t V).

Lemma Forall_set k v m :
  Forall (fun e => P (snd e)) m -> P v ->
  Forall (fun e => P (snd e)) (JsMap.set k v m).
Proof.
  intros F Pv. induction F as [|[k' v'] m Pe F IH]; simpl.
  - constructor; auto.
  - destruct (str_eqb k k'); constructor; auto.
Qed.

Lemma Forall_delete k m :
  Forall (fun e => P (snd e)) m ->
  Forall (fun e => P (snd e)) (JsMap.delete k m).
Proof.
  intros F. unfold JsMap.delete. apply Forall_forall. intros e He.
  apply filter_In in He. rewrite Forall_forall in F. apply F. tauto.
Qed.

Lemma Forall_get k v m :
  Forall (fun e => P (snd e)) m -> JsMap.get k m = Some v -> P v.
Proof.
  intros F G. apply get_some_in in G. rewrite Forall_forall in F.
  apply (F _ G).
Qed.
End ForallMap.

(** The library stubs and the keepalive sweep never touch [rooms]. *)
Lemma rooms_lib_close h st : rooms (lib_close h st) = rooms st.
Proof.
  unfold lib_close. destruct (sock st h) as [w|]; auto.
  destruct (readyState w); auto.
Qed.

Lemma rooms_lib_terminate h st : rooms (lib_terminate h st) = rooms st.
Proof.
  unfold lib_terminate. destruct (sock st h) as [w|]; auto.
  destruct (readyState w); auto.
Qed.

Lemma rooms_close_all hs st : rooms (close_all hs st) = rooms st.
Proof.
  unfold close_all. revert st. induction hs as [|h hs IH]; intros st; simpl; auto.
  rewrite IH. apply rooms_lib_close.
Qed.

Lemma rooms_sweep_fold hs acc :
  rooms (fst (fold_left sweep_one hs acc)) = rooms (fst acc).
Proof.
  revert acc. induction hs as [|h hs IH]; intros acc; simpl; auto.
  rewrite IH. destruct acc as [st out]; simpl.
  destruct (sock st h) as [w|]; simpl; auto.
  destruct (isAlive w); simpl; auto using rooms_lib_terminate.
Qed.

(** Splitting the result of a handler that may throw. *)
Lemma some_pair (x : Server * list effect) st' out :
  Some x = Some (st', out) -> st' = fst x /\ out = snd x.
Proof. intros E. injection E as ->. auto. Qed.

Ltac same_result E :=
  apply some_pair in E; destruct E as [-> _].

(** A property of rooms that holds of a new room and that the three-index
    insertion and removal preserve holds of every room of every state of a
    run. *)
Section RoomInvariant.
Variable P : Room -> Prop.
Hypothesis P_new : forall rid now, P (mkRoom rid None [] [] [] now).
Hypothesis P_insert :
  forall cid h r name room, P room -> P (insert_member cid h r name room).
Hypothesis P_remove : forall cid room, P room -> P (remove_member cid room).
Hypothesis P_host : forall hid room, P room -> P (set_hostId hid room).

Lemma ensureRoom_inv now rid st :
  every_room P st ->
  P (fst (ensureRoom now rid st)) /\ every_room P (snd (ensureRoom now rid st)).
Proof.
  intros C. unfold ensureRoom. destruct (JsMap.get rid (rooms st)) eqn:G; simpl.
  - split; auto. exact (@Forall_get _ P _ _ _ C G).
  - split; auto. apply Forall_set; auto.
Qed.

Lemma join_room_inv now h ws rid r name st :
  every_room P st -> every_room P (fst (join_room now h ws rid r name st)).
Proof.
  intros C. unfold join_room.
  destruct (is_empty rid); simpl; auto.
  destruct (ensureRoom_inv now rid C) as [C0 C1].
  destruct (ensureRoom now rid st) as [room0 st1]; simpl in *.
  pose proof (P_insert (clientId ws) h r name C0) as Ci.
  destruct r; simpl.
  - apply Forall_set; auto.
  - destruct (host_absent _); simpl; apply Forall_set; auto.
Qed.

Lemma on_close_inv h ws st :
  every_room P st -> every_room P (fst (on_close h ws st)).
Proof.
  intros C. unfold on_close.
  destruct (current_room ws st) as [[rid [room|]]|e] eqn:CR; simpl; auto.
  assert (G : JsMap.get rid (rooms st) = Some room).
  { unfold current_room in CR. destruct (truthy_id (roomId ws)); [|discriminate].
    destruct (roomId ws); [|discriminate]. unfold getRoom in CR. congruence. }
  pose proof (P_remove (clientId ws) (@Forall_get _ P _ _ _ C G)) as Cr.
  assert (C1 : every_room P (put_room rid (remove_member (clientId ws) room) st))
    by (apply Forall_set; auto).
  destruct (match hostId room with
            | Some hid => str_eqb hid (clientId ws)
            | None => false
            end); simpl.
  - unfold every_room. simpl. rewrite rooms_close_all. now apply Forall_delete.
  - destruct (Nat.eqb _ 0); auto. now apply Forall_delete.
Qed.

Lemma dispatch_inv now h ws m st st' out :
  every_room P st -> dispatch now h ws m st = Some (st', out) ->
  every_room P st'.
Proof.
  intros C. unfold dispatch.
  destruct (is_str (msg_type m) (js "join")).
  { unfold on_join. destruct (join_roomId m) as [rid|]; [|discriminate].
    destruct (join_name m) as [name|]; [|discriminate].
    intros E. same_result E. now apply join_room_inv. }
  destruct (is_str (msg_type m) (js "signal")).
  { unfold on_signal.
    destruct (current_room ws st) as [[rid [room|]]|e];
      try (intros E; same_result E; exact C).
    destruct (signal_target m) as [to|]; [|discriminate].
    destruct (_ || _); intros E; same_result E; exact C. }
  destruct (is_str (msg_type m) (js "chat")).
  { unfold on_chat.
    destruct (current_room ws st) as [[rid [room|]]|e];
      try (intros E; same_result E; exact C).
    destruct (chat_text m) as [text|]; [|discriminate].
    intros E; same_result E; exact C. }
  destruct (is_str (msg_type m) (js "leave")).
  { intros E; same_result E.
    unfold every_room. simpl. now rewrite rooms_lib_close. }
  unfold on_unknown. destruct (toString (msg_type m)); [|discriminate].
  intros E; same_result E; exact C.
Qed.

Lemma step_inv st e st' out :
  every_room P st -> step st e = Some (st', out) -> every_room P st'.
Proof.
  intros C S.
  assert (K : forall r, Some r = Some (st', out) ->
                        every_room P (fst r) -> every_room P st').
  { intros r E H. same_result E. exact H. }
  destruct e as [uuid|h raw now|h|h|]; simpl in S.
  - apply (K _ S). exact C.
  - destruct (sock st h) as [w|]; [|discriminate].
    assert (M : on_message now h w raw st = Some (st', out))
      by (destruct (readyState w); congruence).
    destruct raw as [| |m]; simpl in M; try discriminate.
    + apply (K _ M). exact C.
    + eapply dispatch_inv; eauto.
  - destruct (sock st h) as [w|]; [|discriminate].
    destruct (readyState w); try discriminate; apply (K _ S); exact C.
  - destruct (sock st h) as [w|]; [|discriminate].
    destruct (readyState w); try discriminate; apply (K _ S);
      apply on_close_inv; exact C.
  - apply (K _ S). unfold every_room, sweep.
    rewrite rooms_sweep_fold. exact C.
Qed.

Lemma run_inv evs : forall st st' out,
  every_room P st -> run st evs = Some (st', out) -> every_room P st'.
Proof.
  induction evs as [|e evs IH]; intros st st' out C R; simpl in R.
  - injection R as <- _. exact C.
  - destruct (step st e) as [[st1 out1]|] eqn:S; [|discriminate].
    destruct (run st1 evs) as [[st2 out2]|] eqn:R1; [|discriminate].
    injection R as <- _. eapply IH; [|exact R1].
    eapply step_inv; eauto.
Qed.

Lemma reachable_inv st : reachable st -> every_room P st.
Proof.
  intros (evs & out & R). eapply run_inv; [|exact R]. constructor.
Qed.
End RoomInvariant.

Lemma reachable_consistent st : reachable st -> rooms_consistent st.
Proof.
  apply reachable_inv.
  - intros rid now. split; reflexivity.
  - apply insert_member_consistent.
  - apply remove_member_consistent.
  - intros hid room H. exact H.
Qed.

(** In a reachable state the indexes of every room are proper maps. *)
Lemma reachable_wf st : reachable st -> every_room room_wf st.
Proof.
  apply reachable_inv.
  - intros rid now. repeat split; constructor.
  - apply insert_member_wf.
  - apply remove_member_wf.
  - intros hid room H. exact H.
Qed.

Lemma has_same_keys (A B : Type) (k : jsstring) (m1 : JsMap.t A)
  (m2 : JsMap.t B) :
  JsMap.keys m1 = JsMap.keys m2 -> JsMap.has k m1 = JsMap.has k m2.
Proof.
  intros E.
  destruct (JsMap.has k m1) eqn:H1; destruct (JsMap.has k m2) eqn:H2; auto.
  - apply has_keys in H1. rewrite E in H1. apply has_keys in H1. congruence.
  - apply has_keys in H2. rewrite <- E in H2. apply has_keys in H2. congruence.
Qed.

(** In every reachable state every room of the store has the same
    connection identifiers as keys of its handle, role and name indexes, in
    the same order. *)
Lemma reachable_same_keys (st : Server) :
  reachable st ->
  forall rid room, In (rid, room) (rooms st) ->
    JsMap.keys (clients room) = JsMap.keys (roles room)
    /\ JsMap.keys (roles room) = JsMap.keys (names room)
    /\ forall id,
         JsMap.has id (clients room) = JsMap.has id (roles room)
         /\ JsMap.has id (roles room) = JsMap.has id (names room).
Proof.
  intros Re rid room I.
  assert (C : rooms_consistent st) by now apply reachable_consistent.
  unfold rooms_consistent, every_room in C. rewrite Forall_forall in C.
  destruct (C _ I) as [A B]. simpl in A, B.
  repeat split; auto using has_same_keys.
Qed.

(* ================================================================= *)
(** ** The roster *)

Lemma in_get_wf (V : Type) (k : jsstring) (v : V) (m : JsMap.t V) :
  map_wf m -> In (k, v) m -> JsMap.get k m = Some v.
Proof.
  unfold map_wf. induction m as [|[k' v'] m IH]; simpl; [tauto|].
  intros ND [E|I].
  - injection E as -> ->. now rewrite str_eqb_refl.
  - inversion ND as [|? ? NI ND']; subst.
    destruct (str_eqb k k') eqn:E.
    + apply str_eqb_eq in E. subst k'. exfalso. apply NI.
      change k with (fst (k, v)). now apply in_map.
    + auto.
Qed.

Lemma viewer_descriptors_filter (room : Room) :
  viewer_descriptors room
  = map (fun e => mkDesc (fst e) (get_or (fst e) (names room) (js "Viewer")))
        (filter (fun e => Role_eqb (snd e) Viewer)
                (JsMap.entries (roles room))).
Proof.
  unfold viewer_descriptors, JsMap.entries.
  induction (roles room) as [|[id r] m IH]; simpl; auto.
  destruct r; simpl; [exact IH | now f_equal].
Qed.

Lemma in_viewer_descriptors (room : Room) (d : Descriptor) :
  In d (viewer_descriptors room) <->
  exists id, In (id, Viewer) (roles room)
             /\ d = mkDesc id (get_or id (names room) (js "Viewer")).
Proof.
  unfold viewer_descriptors, JsMap.entries. rewrite in_flat_map. split.
  - intros ([id r] & I & D). simpl in D. destruct r; [destruct D|].
    destruct D as [<-|[]]. exists id. auto.
  - intros (id & I & ->). exists (id, Viewer). simpl. auto.
Qed.

(** C10. The roster of a room lists as viewers exactly the identifiers whose
    role-index value is "viewer" (in index order, each with its display
    name or "Viewer"), and as host the descriptor of the room's host
    identifier when it is set (none when it is unset).  So a member whose
    role is "host" but whose identifier is not the room's host identifier -
    a superseded former host - is in neither the host field nor the viewers
    list. *)
Theorem roster_spec (room : Room) :
  map_wf (roles room) ->
  viewers (roster room)
  = map (fun e => mkDesc (fst e) (get_or (fst e) (names room) (js "Viewer")))
        (filter (fun e => Role_eqb (snd e) Viewer)
                (JsMap.entries (roles room)))
  /\ (forall d, In d (viewers (roster room)) <->
        exists id, JsMap.get id (roles room) = Some Viewer
                   /\ d = mkDesc id (get_or id (names room) (js "Viewer")))
  /\ (forall hid, hostId room = Some hid -> hid <> [] ->
        host (roster room)
        = Some (mkDesc hid (get_or hid (names room) (js "Host"))))
  /\ (hostId room = None -> host (roster room) = None)
  /\ (forall id,
        JsMap.get id (roles room) = Some Host ->
        hostId room <> Some id ->
        (forall d, host (roster room) = Some d -> d_id d <> id)
        /\ (forall d, In d (viewers (roster room)) -> d_id d <> id)).
Proof.
  intros WF.
  assert (V : forall d, In d (viewers (roster room)) <->
        exists id, JsMap.get id (roles room) = Some Viewer
                   /\ d = mkDesc id (get_or id (names room) (js "Viewer"))).
  { intros d. simpl. rewrite in_viewer_descriptors. split.
    - intros (id & I & E). exists id. split; auto. now apply in_get_wf.
    - intros (id & G & E). exists id. split; auto. now apply get_some_in. }
  split; [apply viewer_descriptors_filter|].
  split; [exact V|].
  split; [|split].
  - intros hid E NE. unfold roster; simpl. rewrite E.
    destruct hid; [congruence | reflexivity].
  - intros E. unfold roster; simpl. now rewrite E.
  - intros id G NH. split.
    + intros d. unfold roster; simpl.
      destruct (hostId room) as [[|c hid]|]; simpl; try discriminate.
      intros E. injection E as <-. simpl. congruence.
    + intros d I. apply V in I. destruct I as (id' & G' & ->). simpl.
      intros ->. congruence.
Qed.

Lemma roster_spec_witness :
  map_wf (roles (room_at "r1" takeover))
  /\ JsMap.get (js "H") (clients (room_at "r1" takeover)) = Some 0
  /\ JsMap.get (js "H") (roles (room_at "r1" takeover)) = Some Host
  /\ hostId (room_at "r1" takeover) = Some (js "H2")
  /\ host (roster (room_at "r1" takeover))
     = Some (mkDesc (js "H2") (js "Cid"))
  /\ viewers (roster (room_at "r1" takeover)) = [mkDesc (js "V") (js "Bob")]
  /\ (forall d, host (roster (room_at "r1" takeover)) = Some d ->
                d_id d <> js "H")
  /\ (forall d, In d (viewers (roster (room_at "r1" takeover))) ->
                d_id d <> js "H").
Proof.
  assert (WF : map_wf (roles (room_at "r1" takeover))).
  { vm_compute.
    repeat (constructor; [simpl; intuition discriminate|]). constructor. }
  destruct (@roster_spec (room_at "r1" takeover) WF) as (_ & _ & _ & _ & S).
  assert (G : JsMap.get (js "H") (roles (room_at "r1" takeover)) = Some Host)
    by (vm_compute; reflexivity).
  assert (NH : hostId (room_at "r1" takeover) <> Some (js "H"))
    by (vm_compute; discriminate).
  destruct (S _ G NH) as [A B].
  split; [exact WF|]. split; [vm_compute; reflexivity|].
  split; [exact G|]. split; [vm_compute; reflexivity|].
  split; [vm_compute; reflexivity|]. split; [vm_compute; reflexivity|].
  split; [exact A | exact B].
Defined.

(* ================================================================= *)
(** ** Reading the store after a write *)

Lemma getRoom_put_same rid room st :
  getRoom rid (put_room rid room st) = Some room.
Proof. unfold getRoom, put_room; simpl. apply get_set_same. Qed.

Lemma getRoom_put_other rid rid' room st :
  rid <> rid' -> getRoom rid' (put_room rid room st) = getRoom rid' st.
Proof. intros N. unfold getRoom, put_room; simpl. now apply get_set_other. Qed.

Lemma getRoom_set_sock rid h w st :
  getRoom rid (set_sock h w st) = getRoom rid st.
Proof. reflexivity. Qed.

Lemma ensureRoom_existing now rid st room :
  getRoom rid st = Some room -> ensureRoom now rid st = (room, st).
Proof. unfold getRoom, ensureRoom. now intros ->. Qed.

Lemma ensureRoom_fresh now rid st :
  getRoom rid st = None ->
  ensureRoom now rid st
  = (mkRoom rid None [] [] [] now,
     put_room rid (mkRoom rid None [] [] [] now) st).
Proof. unfold getRoom, ensureRoom. now intros ->. Qed.

Lemma getRoom_ensureRoom_other now rid rid' st :
  rid <> rid' -> getRoom rid' (snd (ensureRoom now rid st)) = getRoom rid' st.
Proof.
  intros N. unfold ensureRoom. destruct (JsMap.get rid (rooms st)); simpl; auto.
  now apply getRoom_put_other.
Qed.

Lemma is_empty_false (s : jsstring) : is_empty s = false <-> s <> [].
Proof. destruct s; simpl; split; congruence. Qed.

(* ================================================================= *)
(** ** Host join *)

(** X23. A join with role host whose [roomId] and [name] fields convert to
    strings and whose room identifier (after trimming) is not empty is
    accepted, and sets the room's host identifier to the joining
    connection's identifier whatever it was before; the entries of a
    previous host in the room's three indexes stay as they were. *)
Theorem host_join_takes_over now h ws m st rid name :
  join_roomId m = Some rid ->
  join_name m = Some name ->
  join_role m = Host ->
  rid <> [] ->
  exists st' out room',
    on_join now h ws m st = Some (st', out)
    /\ getRoom rid st' = Some room'
    /\ hostId room' = Some (clientId ws)
    /\ JsMap.get (clientId ws) (clients room') = Some h
    /\ forall room0 prev,
         getRoom rid st = Some room0 ->
         hostId room0 = Some prev ->
         prev <> clientId ws ->
         JsMap.get prev (clients room') = JsMap.get prev (clients room0)
         /\ JsMap.get prev (roles room') = JsMap.get prev (roles room0)
         /\ JsMap.get prev (names room') = JsMap.get prev (names room0).
Proof.
  intros ER EN R NE. unfold on_join. rewrite ER, EN, R. unfold join_room.
  apply is_empty_false in NE. rewrite NE.
  destruct (ensureRoom now rid st) as [room0 st1] eqn:E.
  do 3 eexists. split; [reflexivity|].
  split; [apply getRoom_put_same|].
  simpl. split; [reflexivity|].
  split; [apply get_set_same|].
  intros room0' prev G Hp NP.
  rewrite (ensureRoom_existing now _ _ G) in E. injection E as <- <-.
  repeat split; apply get_set_other; congruence.
Qed.

Lemma host_join_takes_over_witness :
  hostId (room_at "r1" before_takeover) = Some (js "H")
  /\ exists room',
       getRoom (js "r1") takeover = Some room'
       /\ hostId room' = Some (js "H2")
       /\ JsMap.get (js "H2") (clients room') = Some 2
       /\ JsMap.get (js "H") (clients room') = Some 0
       /\ JsMap.get (js "H") (roles room') = Some Host
       /\ JsMap.get (js "H") (names room') = Some (js "Ann").
Proof.
  split; [vm_compute; reflexivity|].
  assert (ER : join_roomId (join_msg "r1" "host" "Cid") = Some (js "r1"))
    by (vm_compute; reflexivity).
  assert (EN : join_name (join_msg "r1" "host" "Cid") = Some (js "Cid"))
    by (vm_compute; reflexivity).
  assert (R : join_role (join_msg "r1" "host" "Cid") = Host)
    by (vm_compute; reflexivity).
  assert (NE : js "r1" <> []) by (vm_compute; discriminate).
  destruct (@host_join_takes_over 103 2 (sock_at 2 before_takeover)
              (join_msg "r1" "host" "Cid") before_takeover _ _ ER EN R NE)
    as (st' & out & room' & J & G & Hh & Hc & K).
  assert (T : takeover = st').
  { assert (St : step before_takeover
                   (Message 2 (Parsed (join_msg "r1" "host" "Cid")) 103)
                 = Some (takeover,
                         trace (step before_takeover
                           (Message 2 (Parsed (join_msg "r1" "host" "Cid"))
                              103))))
      by (vm_compute; reflexivity).
    assert (St' : step before_takeover
                    (Message 2 (Parsed (join_msg "r1" "host" "Cid")) 103)
                  = on_join 103 2 (sock_at 2 before_takeover)
                      (join_msg "r1" "host" "Cid") before_takeover)
      by reflexivity.
    rewrite St', J in St. apply some_pair in St. exact (proj1 St). }
  assert (G0 : getRoom (js "r1") before_takeover
               = Some (room_at "r1" before_takeover))
    by (vm_compute; reflexivity).
  assert (Hp : hostId (room_at "r1" before_takeover) = Some (js "H"))
    by (vm_compute; reflexivity).
  assert (NP : js "H" <> clientId (sock_at 2 before_takeover))
    by (vm_compute; discriminate).
  destruct (K _ _ G0 Hp NP) as (K1 & K2 & K3).
  exists room'. rewrite T. split; [exact G|]. split; [exact Hh|].
  split; [exact Hc|].
  split; [rewrite K1; vm_compute; reflexivity|].
  split; [rewrite K2; vm_compute; reflexivity|].
  rewrite K3; vm_compute; reflexivity.
Defined.

(* ================================================================= *)
(** ** Relay and broadcast *)

Lemma current_room_joined ws st rid :
  roomId ws = Some rid -> rid <> [] ->
  current_room ws st = inl (rid, getRoom rid st).
Proof.
  intros E NE. unfold current_room. rewrite E.
  destruct rid; [congruence | reflexivity].
Qed.

Lemma safeSend_open st h obj :
  is_open st h = true -> safeSend st (Some h) obj = [WsSend h (stringify obj)].
Proof. intros O. unfold safeSend. now rewrite O. Qed.

Lemma safeSend_not_open st h obj :
  is_open st h = false -> safeSend st (Some h) obj = [].
Proof. intros O. unfold safeSend. now rewrite O. Qed.

Lemma in_safeSend st h obj e :
  In e (safeSend st (Some h) obj) ->
  e = WsSend h (stringify obj) /\ is_open st h = true.
Proof.
  unfold safeSend. destruct (is_open st h); simpl; [|tauto].
  intros [<-|[]]. auto.
Qed.

Lemma in_broadcast st room obj e :
  In e (broadcast st room obj) <->
  exists id hm, In (id, hm) (clients room)
                /\ is_open st hm = true /\ e = WsSend hm (stringify obj).
Proof.
  unfold broadcast, JsMap.values. rewrite in_flat_map. split.
  - intros (hm & I & S). apply in_map_iff in I. destruct I as ([id hm'] & <- & I).
    apply in_safeSend in S. destruct S as [-> O]. exists id, hm'. auto.
  - intros (id & hm & I & O & ->). exists hm. split.
    + change hm with (snd (id, hm)). now apply in_map.
    + rewrite safeSend_open; simpl; auto.
Qed.

Lemma written_number_representable x :
  representable (JsonNumber x) = true -> written_number x = JsonNumber x.
Proof. destruct x as [[|]| | |]; simpl; congruence. Qed.

(** A value without infinity, NaN or negative zero is written as it is. *)
Lemma written_representable v : representable v = true -> written v = v.
Proof.
  induction v as [|b|x|s|items IH|props IH] using json_ind; auto.
  - apply written_number_representable.
  - simpl. intros F. f_equal. induction IH as [|x l Px _ IHl]; auto.
    simpl in *. apply andb_true_iff in F. destruct F as [F1 F2].
    now rewrite Px, IHl.
  - simpl. intros F. f_equal. induction IH as [|[k x] l Px _ IHl]; auto.
    simpl in *. apply andb_true_iff in F. destruct F as [F1 F2].
    now rewrite Px, IHl.
Qed.

(** What has been written once is written as it is the next time. *)
Lemma written_twice v : written (written v) = written v.
Proof.
  induction v as [|b|x|s|items IH|props IH] using json_ind; auto.
  - destruct x as [[|]|[|]| |]; reflexivity.
  - simpl. f_equal. rewrite map_map.
    induction IH as [|x l Px _ IHl]; auto. simpl. now rewrite Px, IHl.
  - simpl. f_equal. rewrite map_map.
    induction IH as [|[k x] l Px _ IHl]; auto. simpl in *.
    now rewrite Px, IHl.
Qed.

(** C5 (amended). A signal from a sender whose current room is a room of
    the store and whose [to] field converts to a string, the target being
    that string trimmed.  When the target names a member B of the room, the
    only effect is a best-effort send to B's socket - and to no other - of
    the signal carrying the room, the sender's identifier as [from] and the
    [data] as [JSON.stringify] writes it: one [ws.send] when B's socket is
    open, nothing otherwise; a [data] in which no number is an infinity, a
    NaN or the negative zero arrives as it was.  When the target is empty or
    names no member, the only effect is the error reply to the sender.  The
    state is unchanged either way. *)
Theorem signal_relay h ws m st rid room to :
  roomId ws = Some rid -> rid <> [] ->
  getRoom rid st = Some room ->
  signal_target m = Some to ->
  (forall hB,
     to <> [] ->
     JsMap.get to (clients room) = Some hB ->
     on_signal h ws m st
     = Some (st, safeSend st (Some hB)
                   (MSignal rid (clientId ws) (msg_data m)))
     /\ (is_open st hB = true ->
         on_signal h ws m st
         = Some (st, [WsSend hB (MSignal rid (clientId ws)
                                   (option_map written (msg_data m)))])
         /\ ((forall d, msg_data m = Some d -> representable d = true) ->
             on_signal h ws m st
             = Some (st, [WsSend hB (MSignal rid (clientId ws)
                                       (msg_data m))])))
     /\ (is_open st hB = false -> on_signal h ws m st = Some (st, [])))
  /\ (to = [] \/ JsMap.get to (clients room) = None ->
      on_signal h ws m st
      = Some (st, safeSend st (Some h) (MError (js "Invalid 'to' target")))
      /\ forall e,
           In e (safeSend st (Some h) (MError (js "Invalid 'to' target"))) ->
           e = WsSend h (MError (js "Invalid 'to' target"))).
Proof.
  intros E NE G T. unfold on_signal.
  rewrite (current_room_joined ws st E NE), G, T. unfold JsMap.has.
  split.
  - intros hB NT GB. apply is_empty_false in NT. rewrite NT, GB.
    cbn [orb negb]. split; [reflexivity|]. split; intros O.
    + rewrite safeSend_open by exact O. cbn [stringify].
      split; [reflexivity|]. intros R.
      destruct (msg_data m) as [d|]; [|reflexivity]. simpl.
      now rewrite (written_representable d (R d eq_refl)).
    + now rewrite safeSend_not_open.
  - intros D. split.
    + destruct D as [ET|GN].
      * now rewrite ET.
      * rewrite GN. now rewrite orb_true_r.
    + intros e I. now apply in_safeSend in I.
Qed.

Lemma signal_relay_witness :
  on_signal 1 (sock_at 1 hosted_room) (signal_msg "H" (Some offer)) hosted_room
  = Some (hosted_room, [WsSend 0 (MSignal (js "r1") (js "V") (Some offer))])
  /\ on_signal 1 (sock_at 1 hosted_room) (signal_msg "nobody" None)
       hosted_room
     = Some (hosted_room, [WsSend 1 (MError (js "Invalid 'to' target"))]).
Proof.
  assert (E : roomId (sock_at 1 hosted_room) = Some (js "r1"))
    by (vm_compute; reflexivity).
  assert (NE : js "r1" <> []) by (vm_compute; discriminate).
  assert (G : getRoom (js "r1") hosted_room = Some (room_at "r1" hosted_room))
    by (vm_compute; reflexivity).
  split.
  - assert (T : signal_target (signal_msg "H" (Some offer)) = Some (js "H"))
      by (vm_compute; reflexivity).
    destruct (@signal_relay 1 (sock_at 1 hosted_room)
                (signal_msg "H" (Some offer))
                hosted_room (js "r1") (room_at "r1" hosted_room) (js "H")
                E NE G T)
      as (K & _).
    assert (NT : js "H" <> []) by (vm_compute; discriminate).
    assert (GB : JsMap.get (js "H") (clients (room_at "r1" hosted_room))
                 = Some 0)
      by (vm_compute; reflexivity).
    destruct (K 0 NT GB) as (_ & O & _).
    assert (Op : is_open hosted_room 0 = true) by (vm_compute; reflexivity).
    destruct (O Op) as [_ R]. apply R.
    intros d Ed. injection Ed as <-. vm_compute. reflexivity.
  - assert (T : signal_target (signal_msg "nobody" None)
                = Some (js "nobody")) by (vm_compute; reflexivity).
    destruct (@signal_relay 1 (sock_at 1 hosted_room)
                (signal_msg "nobody" None)
                hosted_room (js "r1") (room_at "r1" hosted_room)
                (js "nobody") E NE G T)
      as (_ & K).
    assert (GN : JsMap.get (js "nobody") (clients (room_at "r1" hosted_room))
                 = None)
      by (vm_compute; reflexivity).
    destruct (K (or_intror GN)) as (S & _).
    rewrite S. vm_compute. reflexivity.
Defined.

(** C5, the claim as stated fails: the viewer of "r1" relays to the host a
    [data] that is the parse of [1e400]; the host is sent [null]. *)
Lemma signal_relay_rewrites_data :
  on_signal 1 (sock_at 1 hosted_room) (signal_msg "H" (Some overflow))
    hosted_room
  = Some (hosted_room, [WsSend 0 (MSignal (js "r1") (js "V") (Some JsonNull))])
  /\ Some JsonNull <> Some overflow.
Proof. split; [vm_compute; reflexivity | discriminate]. Qed.

(** X24. A chat whose [message] field converts to a string, from a sender
    whose current room is a room of the store, is never answered with an
    error: the text is cut to its first 2000 code units (unchanged when it
    has no more), and one chat message carrying the room, the sender's
    identifier, a display name and the timestamp read by the server is
    sent, best effort, to the socket of every member of the room and to no
    other.  The display name is the sender's entry of the name index when
    it has one, and the sender's own socket is among the recipients when the
    sender is a member.  The state is unchanged. *)
Theorem chat_broadcast now h ws m st rid room raw :
  roomId ws = Some rid -> rid <> [] ->
  getRoom rid st = Some room ->
  string_or_empty (msg_message m) = Some raw ->
  let text := firstn 2000 raw in
  let name := get_or (clientId ws) (names room) (js "User") in
  let obj := MChat rid (clientId ws) name text now in
  on_chat now h ws m st = Some (st, broadcast st room obj)
  /\ List.length text <= 2000
  /\ (List.length raw <= 2000 -> text = raw)
  /\ (forall n, JsMap.get (clientId ws) (names room) = Some n -> n <> [] ->
                name = n)
  /\ broadcast st room obj
     = flat_map (fun hm => safeSend st (Some hm) obj)
                (JsMap.values (clients room))
  /\ (forall id hm,
        JsMap.get id (clients room) = Some hm -> is_open st hm = true ->
        In (WsSend hm obj) (broadcast st room obj))
  /\ (forall e, In e (broadcast st room obj) ->
                exists id hm, In (id, hm) (clients room) /\ e = WsSend hm obj).
Proof.
  intros E NE G T text name obj. unfold on_chat, chat_text.
  rewrite (current_room_joined ws st E NE), G, T. simpl.
  split; [reflexivity|].
  split; [apply firstn_le_length|].
  split; [intros L; now apply firstn_all2|].
  split.
  { intros n Gn Nn. unfold name, get_or. rewrite Gn. unfold str_or.
    apply is_empty_false in Nn. now rewrite Nn. }
  split; [reflexivity|]. split.
  - intros id hm Gm O. apply in_broadcast. exists id, hm.
    split; [now apply get_some_in|]. auto.
  - intros e I. apply in_broadcast in I. destruct I as (id & hm & I & _ & ->).
    eauto.
Qed.

Lemma chat_broadcast_witness :
  on_chat 200 1 (sock_at 1 hosted_room) (chat_msg "hi") hosted_room
  = Some (hosted_room,
          [WsSend 0 (MChat (js "r1") (js "V") (js "Bob") (js "hi") 200);
           WsSend 1 (MChat (js "r1") (js "V") (js "Bob") (js "hi") 200)]).
Proof.
  assert (E : roomId (sock_at 1 hosted_room) = Some (js "r1"))
    by (vm_compute; reflexivity).
  assert (NE : js "r1" <> []) by (vm_compute; discriminate).
  assert (G : getRoom (js "r1") hosted_room = Some (room_at "r1" hosted_room))
    by (vm_compute; reflexivity).
  assert (T : string_or_empty (msg_message (chat_msg "hi")) = Some (js "hi"))
    by (vm_compute; reflexivity).
  destruct (@chat_broadcast 200 1 (sock_at 1 hosted_room) (chat_msg "hi")
              hosted_room (js "r1") (room_at "r1" hosted_room) (js "hi")
              E NE G T)
    as (S & _).
  rewrite S. vm_compute. reflexivity.
Defined.

(** A parsed message whose type is none of join, signal, chat, leave and can
    be rendered as a string has one effect, the best-effort error reply to
    the sender; the state is returned unchanged. *)
Lemma unknown_type_error_reply now h ws m st t :
  is_str (msg_type m) (js "join") = false ->
  is_str (msg_type m) (js "signal") = false ->
  is_str (msg_type m) (js "chat") = false ->
  is_str (msg_type m) (js "leave") = false ->
  toString (msg_type m) = Some t ->
  let reply := MError (js "Unknown message type: " ++ t) in
  on_message now h ws (Parsed m) st = Some (st, safeSend st (Some h) reply)
  /\ (is_open st h = true ->
      on_message now h ws (Parsed m) st = Some (st, [WsSend h reply]))
  /\ (forall e, In e (safeSend st (Some h) reply) -> e = WsSend h reply).
Proof.
  intros J S C L T reply. unfold on_message, dispatch. rewrite J, S, C, L.
  unfold on_unknown. rewrite T. fold reply.
  split; [reflexivity|]. split.
  - intros O. now rewrite safeSend_open.
  - intros e I. now apply in_safeSend in I.
Qed.

Example unknown_type_error_reply_ping :
  on_message 200 1 (sock_at 1 hosted_room) (Parsed (typed_msg "ping"))
    hosted_room
  = Some (hosted_room,
          [WsSend 1 (MError (js "Unknown message type: ping"))])
  /\ on_message 200 1 (sock_at 1 hosted_room) (Parsed no_fields) hosted_room
     = Some (hosted_room,
             [WsSend 1 (MError (js "Unknown message type: undefined"))]).
Proof.
  split.
  - apply (@unknown_type_error_reply 200 1 (sock_at 1 hosted_room)
             (typed_msg "ping") hosted_room (js "ping"));
      vm_compute; reflexivity.
  - apply (@unknown_type_error_reply 200 1 (sock_at 1 hosted_room)
             no_fields hosted_room (js "undefined"));
      vm_compute; reflexivity.
Qed.

(** C7 (fails on the code). Two messages that parse and whose type is none
    of join, signal, chat, leave get no error reply, because the handler
    throws: the JSON text [null], whose [.type] cannot be read, and an
    object whose [type] is itself an object with a [toString] field that is
    not a function, which the template literal of the reply cannot render. *)
Theorem unknown_type_can_throw now h ws st :
  on_message now h ws ParsedNull st = None
  /\ is_str (msg_type unprintable_type_msg) (js "join") = false
  /\ is_str (msg_type unprintable_type_msg) (js "signal") = false
  /\ is_str (msg_type unprintable_type_msg) (js "chat") = false
  /\ is_str (msg_type unprintable_type_msg) (js "leave") = false
  /\ on_message now h ws (Parsed unprintable_type_msg) st = None.
Proof. repeat split. Qed.

(* ================================================================= *)
(** ** Joining again *)

Lemma nth_error_list_upd_same (A : Type) (l : list A) n x y :
  nth_error l n = Some y -> nth_error (list_upd n x l) n = Some x.
Proof.
  revert n. induction l as [|a l IH]; intros [|n]; simpl; try discriminate; auto.
Qed.

Lemma nth_error_list_upd_other (A : Type) (l : list A) n n' x :
  n <> n' -> nth_error (list_upd n x l) n' = nth_error l n'.
Proof.
  revert n n'. induction l as [|a l IH]; intros [|n] [|n'] N; simpl; auto;
    congruence.
Qed.

Lemma length_list_upd (A : Type) (l : list A) n x :
  List.length (list_upd n x l) = List.length l.
Proof. revert n. induction l as [|a l IH]; intros [|n]; simpl; auto. Qed.

Lemma sockets_ensureRoom now rid st :
  sockets (snd (ensureRoom now rid st)) = sockets st.
Proof. unfold ensureRoom. destruct (JsMap.get rid (rooms st)); reflexivity. Qed.

Lemma stringify_error obj msg : stringify obj = MError msg -> obj = MError msg.
Proof. destruct obj; simpl; congruence. Qed.

Lemma not_error_broadcast st room obj e :
  (forall msg, obj <> MError msg) ->
  In e (broadcast st room obj) -> ~ is_error e.
Proof.
  intros Hn I (h & msg & Ee). subst e. apply in_broadcast in I.
  destruct I as (id & hm & _ & _ & E). injection E as E1 E2.
  symmetry in E2. apply stringify_error in E2. now apply (Hn msg).
Qed.

Lemma not_error_safeSend st t obj e :
  (forall msg, obj <> MError msg) ->
  In e (safeSend st t obj) -> ~ is_error e.
Proof.
  intros Hn I (h & msg & Ee). subst e. destruct t as [h'|]; [|destruct I].
  apply in_safeSend in I. destruct I as [E _]. injection E as E1 E2.
  symmetry in E2. apply stringify_error in E2. now apply (Hn msg).
Qed.

Lemma not_error_notify st room cid e :
  In e (notify_viewers st room cid) -> ~ is_error e.
Proof.
  unfold notify_viewers. rewrite in_flat_map. intros ([id r] & _ & I). simpl in I.
  destruct r; [destruct I|]. destruct (str_eqb id cid); [destruct I|].
  revert I. apply not_error_safeSend. discriminate.
Qed.

Lemma join_room_accepts now h ws rid r name st :
  (forall e, In e (snd (join_room now h ws rid r name st)) -> is_error e ->
     rid = []
     \/ (r = Viewer
         /\ host_absent (join_target now h ws rid r name st) = true))
  /\ (forall r1 room1,
        sock st h = Some ws ->
        roomId ws = Some r1 ->
        getRoom r1 st = Some room1 ->
        JsMap.has (clientId ws) (clients room1) = true ->
        rid <> [] ->
        rid <> r1 ->
        r = Host \/ host_absent (join_target now h ws rid r name st) = false ->
        (forall e, In e (snd (join_room now h ws rid r name st)) ->
                   ~ is_error e)
        /\ (exists room',
              getRoom rid (fst (join_room now h ws rid r name st))
              = Some room'
              /\ JsMap.get (clientId ws) (clients room') = Some h
              /\ JsMap.get (clientId ws) (roles room') = Some r
              /\ JsMap.get (clientId ws) (names room') = Some name)
        /\ sock (fst (join_room now h ws rid r name st)) h
           = Some (set_membership ws (Some rid) (Some r))
        /\ getRoom r1 (fst (join_room now h ws rid r name st)) = Some room1).
Proof.
  assert (OK : forall e,
    rid <> [] ->
    r = Host \/ host_absent (join_target now h ws rid r name st) = false ->
    In e (snd (join_room now h ws rid r name st)) -> ~ is_error e).
  { intros e NE D. unfold join_room, join_target in *.
    apply is_empty_false in NE. rewrite NE.
    destruct (ensureRoom now rid st) as [room0 st1]. simpl in D.
    destruct r.
    - cbn [snd]. rewrite !in_app_iff. intros [I|[I|I]].
      + revert I. apply not_error_safeSend. discriminate.
      + revert I. apply not_error_broadcast. discriminate.
      + revert I. apply not_error_notify.
    - destruct D as [D|D]; [discriminate|]. rewrite D. cbn [snd].
      rewrite !in_app_iff. intros [I|[I|I]].
      + revert I. apply not_error_safeSend. discriminate.
      + revert I. apply not_error_safeSend. discriminate.
      + revert I. apply not_error_broadcast. discriminate. }
  split.
  - intros e I Er.
    destruct (list_eq_dec N.eq_dec rid []) as [RID|RID]; [now left|]. right.
    destruct r.
    + exfalso. apply (OK e); [exact RID | now left | exact I | exact Er].
    + split; auto.
      destruct (host_absent (join_target now h ws rid Viewer name st)) eqn:HA;
        auto.
      exfalso. apply (OK e); [exact RID | now right | exact I | exact Er].
  - intros r1 room1 S E1 G1 M1 NE NR D.
    split; [intros e; now apply OK|].
    assert (NE' := NE). apply is_empty_false in NE'.
    pose proof (sockets_ensureRoom now rid st) as SK.
    pose proof (getRoom_ensureRoom_other now st NR) as GO.
    unfold join_room, join_target in *. rewrite NE'.
    destruct (ensureRoom now rid st) as [room0 st1].
    simpl in D, SK, GO.
    assert (S1 : sock st1 h = Some ws) by (unfold sock; now rewrite SK).
    assert (P : forall w room,
      let st2 := put_room rid room (set_sock h w st1) in
      getRoom rid st2 = Some room
      /\ sock st2 h = Some w /\ getRoom r1 st2 = Some room1).
    { intros w room st2. split; [apply getRoom_put_same|]. split.
      - unfold st2, sock; simpl. eapply nth_error_list_upd_same. exact S1.
      - unfold st2. rewrite getRoom_put_other by auto.
        rewrite getRoom_set_sock. congruence. }
    assert (Q : forall room,
      room = insert_member (clientId ws) h r name room0
      \/ room = set_hostId (Some (clientId ws))
                  (insert_member (clientId ws) h r name room0) ->
      JsMap.get (clientId ws) (clients room) = Some h
      /\ JsMap.get (clientId ws) (roles room) = Some r
      /\ JsMap.get (clientId ws) (names room) = Some name).
    { intros room [-> | ->]; simpl; repeat split; apply get_set_same. }
    destruct r.
    + cbn [fst]. edestruct P as (A & B & C).
      split; [eexists; split; [exact A|]; apply Q; right; reflexivity|].
      split; [exact B | exact C].
    + destruct D as [D|D]; [discriminate|]. rewrite D. cbn [fst].
      edestruct P as (A & B & C).
      split; [eexists; split; [exact A|]; apply Q; left; reflexivity|].
      split; [exact B | exact C].
Qed.

(* ================================================================= *)
(** ** Rejected viewer join *)

Lemma delete_set_absent (V : Type) (k : jsstring) (v : V) (m : JsMap.t V) :
  JsMap.get k m = None -> JsMap.delete k (JsMap.set k v m) = m.
Proof.
  induction m as [|[k' v'] m IH]; simpl.
  - now rewrite str_eqb_refl.
  - destruct (str_eqb k k') eqn:E; [discriminate|]. intros G.
    simpl. rewrite E. simpl. f_equal. auto.
Qed.

Lemma set_get_same (V : Type) (k : jsstring) (v : V) (m : JsMap.t V) :
  JsMap.get k m = Some v -> JsMap.set k v m = m.
Proof.
  induction m as [|[k' v'] m IH]; simpl; [discriminate|].
  destruct (str_eqb k k') eqn:E; intros G.
  - congruence.
  - f_equal. auto.
Qed.

Lemma remove_insert_absent cid h r name room :
  JsMap.get cid (clients room) = None ->
  JsMap.get cid (roles room) = None ->
  JsMap.get cid (names room) = None ->
  remove_member cid (insert_member cid h r name room) = room.
Proof.
  intros A B C. destruct room. unfold remove_member, insert_member; simpl in *.
  f_equal; now apply delete_set_absent.
Qed.

(** A viewer join that is rejected for a room already in the store, by a
    connection that is not a member of it, leaves the store as it was and
    clears the connection's current room and role. *)
Lemma viewer_join_rejected_existing_room now h ws rid name st room0 :
  sock st h = Some ws ->
  rid <> [] ->
  getRoom rid st = Some room0 ->
  host_absent (join_target now h ws rid Viewer name st) = true ->
  JsMap.get (clientId ws) (clients room0) = None ->
  JsMap.get (clientId ws) (roles room0) = None ->
  JsMap.get (clientId ws) (names room0) = None ->
  rooms (fst (join_room now h ws rid Viewer name st)) = rooms st
  /\ sockets (fst (join_room now h ws rid Viewer name st))
     = list_upd h (set_membership ws None None) (sockets st)
  /\ snd (join_room now h ws rid Viewer name st)
     = safeSend st (Some h)
         (MError (js "Room exists but host is not online yet.")).
Proof.
  intros S NE G HA A B C. unfold join_room, join_target in *.
  apply is_empty_false in NE. rewrite NE.
  rewrite (ensureRoom_existing now _ _ G) in *. cbn [fst] in HA.
  rewrite HA. rewrite remove_insert_absent by assumption.
  cbn [fst snd]. split; [|split].
  - unfold put_room; simpl. now apply set_get_same.
  - reflexivity.
  - unfold safeSend, is_open, sock in *; simpl.
    now rewrite (nth_error_list_upd_same _ _ _ S), S.
Qed.

(** A viewer join naming a room that is not in the store creates the room
    and, after the rollback, leaves it there: empty, without host. *)
Lemma viewer_join_unseen_room now h ws rid name st :
  rid <> [] ->
  getRoom rid st = None ->
  getRoom rid (fst (join_room now h ws rid Viewer name st))
  = Some (mkRoom rid None [] [] [] now).
Proof.
  intros NE G. unfold join_room.
  apply is_empty_false in NE. rewrite NE.
  rewrite (ensureRoom_fresh now _ _ G).
  unfold host_absent, insert_member; cbn [hostId truthy_id negb orb fst].
  rewrite getRoom_put_same. unfold remove_member; simpl.
  now rewrite str_eqb_refl.
Qed.

(** C2 (fails on the code). A viewer join naming a room identifier the store
    has never seen is answered with the error, and the three insertions are
    rolled back, but the room that [ensureRoom] created for the request
    stays in the store: the store gains an entry. *)
Theorem rejected_viewer_join_leaves_room :
  getRoom (js "zz") (final (run init [Connect (js "V")])) = None
  /\ run init unseen_room_events
     = Some (mkServer [(js "zz", mkRoom (js "zz") None [] [] [] 100)]
               [mkWs (js "V") None None true OPEN] [0],
             [WsSend 0 (MHello (js "V"));
              WsSend 0
                (MError (js "Room exists but host is not online yet."))])
  /\ rooms (final (run init unseen_room_events))
     <> rooms (final (run init [Connect (js "V")])).
Proof.
  split; [vm_compute; reflexivity|].
  split; [vm_compute; reflexivity|].
  vm_compute. discriminate.
Qed.

(* ================================================================= *)
(** ** Departure of the host *)

(** When the closing connection's current room is a room of the store whose
    host identifier is the connection's own, the close handler notifies the
    remaining members, calls [close()] on each of them and deletes the
    room. *)
Lemma host_close_cascade h ws st rid room :
  roomId ws = Some rid -> rid <> [] ->
  getRoom rid st = Some room ->
  hostId room = Some (clientId ws) ->
  let room1 := remove_member (clientId ws) room in
  let notice := MHostLeft rid (js "Host left. Room closed.") in
  getRoom rid (fst (on_close h ws st)) = None
  /\ snd (on_close h ws st)
     = flat_map (fun hm => safeSend st (Some hm) notice)
                (JsMap.values (clients room1))
       ++ map WsClose (JsMap.values (clients room1))
  /\ forall id hm,
       In (id, hm) (clients room) -> id <> clientId ws ->
       In (WsClose hm) (snd (on_close h ws st))
       /\ (is_open st hm = true ->
           In (WsSend hm notice) (snd (on_close h ws st))).
Proof.
  intros E NE G Hh room1 notice. unfold on_close.
  rewrite (current_room_joined ws st E NE), G.
  cbn [hostId remove_member]. rewrite Hh, str_eqb_refl. cbn [fst snd].
  fold room1. split; [|split].
  - unfold getRoom, deleteRoom; simpl. rewrite rooms_close_all.
    apply get_delete_same.
  - reflexivity.
  - intros id hm I N.
    assert (I1 : In (id, hm) (clients room1)).
    { unfold room1; simpl. apply in_delete. auto. }
    assert (I2 : In hm (JsMap.values (clients room1))).
    { unfold JsMap.values. change hm with (snd (id, hm)). now apply in_map. }
    rewrite !in_app_iff. split.
    + right. now apply in_map.
    + intros O. left. change (In (WsSend hm notice)
        (broadcast (put_room rid room1 st) room1 notice)).
      apply in_broadcast. exists id, hm. auto.
Qed.

(** C4 (fails on the code). The connection with identifier "H" hosts room
    "r1", then joins room "r2"; when its socket closes, the close handler
    works on "r2" alone.  Room "r1" stays in the store with host identifier
    "H", its viewer is sent nothing and is not closed. *)
Theorem stale_host_close_keeps_room :
  hostId (room_at "r1" second_join) = Some (js "H")
  /\ clientId (sock_at 0 second_join) = js "H"
  /\ JsMap.keys (clients (room_at "r1" second_join)) = [js "H"; js "V"]
  /\ step second_join (Closed 0)
     = Some (final (run init stale_host_events), [])
  /\ readyState (sock_at 0 (final (run init stale_host_events))) = CLOSED
  /\ wss_clients (final (run init stale_host_events)) = [1]
  /\ getRoom (js "r1") (final (run init stale_host_events))
     = Some (room_at "r1" second_join)
  /\ getRoom (js "r2") (final (run init stale_host_events)) = None
  /\ is_open (final (run init stale_host_events)) 1 = true.
Proof.
  repeat split; vm_compute; reflexivity.
Qed.

(* ================================================================= *)
(** ** Sockets along a run *)

Lemma same_closed_refl w : same_closed w w.
Proof. unfold same_closed; tauto. Qed.

Lemma same_closed_trans a b c :
  same_closed a b -> same_closed b c -> same_closed a c.
Proof. unfold same_closed; tauto. Qed.

Lemma stable_refl w : stable w w.
Proof. split; [reflexivity | apply same_closed_refl]. Qed.

Lemma stable_trans a b c : stable a b -> stable b c -> stable a c.
Proof.
  intros [A1 A2] [B1 B2]. split; [congruence|].
  eapply same_closed_trans; eauto.
Qed.

Lemma stable_same_closed a b : stable a b -> same_closed a b.
Proof. now intros [_ H]. Qed.

Create HintDb sockdb.
#[local] Hint Resolve same_closed_refl stable_refl : sockdb.

Section Evolves.
Variable R : WebSocket -> WebSocket -> Prop.
Hypothesis R_refl : forall w, R w w.
Hypothesis R_trans : forall a b c, R a b -> R b c -> R a c.

Lemma evolves_refl st : evolves R st st.
Proof. split; eauto. Qed.

Lemma evolves_trans a b c : evolves R a b -> evolves R b c -> evolves R a c.
Proof.
  intros [A1 A2] [B1 B2]. split; [congruence|].
  intros h w S. destruct (A2 _ _ S) as (w1 & S1 & R1).
  destruct (B2 _ _ S1) as (w2 & S2 & R2). eauto.
Qed.

Lemma evolves_ext a a' b b' :
  sockets a' = sockets a -> wss_clients a' = wss_clients a ->
  sockets b' = sockets b -> wss_clients b' = wss_clients b ->
  evolves R a b -> evolves R a' b'.
Proof.
  unfold evolves, sock. intros -> -> -> ->. auto.
Qed.

Lemma evolves_set_sock st h0 w0 w :
  sock st h0 = Some w0 -> R w0 w -> evolves R st (set_sock h0 w st).
Proof.
  intros S0 Rw. split; [reflexivity|]. intros h x S.
  unfold sock, set_sock in *; simpl.
  destruct (Nat.eq_dec h0 h) as [<-|N].
  - rewrite (nth_error_list_upd_same _ _ _ S0). exists w. split; congruence.
  - rewrite nth_error_list_upd_other by auto. eauto.
Qed.
End Evolves.

Lemma evolves_weaken (R R' : WebSocket -> WebSocket -> Prop) a b :
  (forall x y, R x y -> R' x y) -> evolves R a b -> evolves R' a b.
Proof.
  intros W [A1 A2]. split; auto.
  intros h w S. destruct (A2 _ _ S) as (w' & S' & Rw). eauto.
Qed.

Lemma evolves_lib_close h st : evolves stable st (lib_close h st).
Proof.
  unfold lib_close. destruct (sock st h) as [w|] eqn:S;
    [|apply evolves_refl; auto with sockdb].
  destruct (readyState w) eqn:RS; try (apply evolves_refl; auto with sockdb).
  apply evolves_set_sock with (w0 := w); auto with sockdb.
  split; [reflexivity|]. unfold same_closed; simpl. rewrite RS.
  split; discriminate.
Qed.

Lemma evolves_lib_terminate h st : evolves stable st (lib_terminate h st).
Proof.
  unfold lib_terminate. destruct (sock st h) as [w|] eqn:S;
    [|apply evolves_refl; auto with sockdb].
  destruct (readyState w) eqn:RS; try (apply evolves_refl; auto with sockdb);
    (apply evolves_set_sock with (w0 := w); auto with sockdb;
     split; [reflexivity|]; unfold same_closed; simpl; rewrite RS;
     split; discriminate).
Qed.

Lemma evolves_close_all hs st : evolves stable st (close_all hs st).
Proof.
  unfold close_all. revert st. induction hs as [|h hs IH]; intros st; simpl.
  - apply evolves_refl; auto with sockdb.
  - eapply evolves_trans; [exact stable_trans | apply evolves_lib_close | apply IH].
Qed.

Lemma wss_clients_ensureRoom now rid st :
  wss_clients (snd (ensureRoom now rid st)) = wss_clients st.
Proof. unfold ensureRoom. destruct (JsMap.get rid (rooms st)); reflexivity. Qed.

Lemma evolves_join_room now h ws rid r name st :
  sock st h = Some ws ->
  evolves stable st (fst (join_room now h ws rid r name st)).
Proof.
  intros S. unfold join_room.
  destruct (is_empty rid); [apply evolves_refl; auto with sockdb|].
  pose proof (sockets_ensureRoom now rid st) as SK.
  pose proof (wss_clients_ensureRoom now rid st) as WK.
  destruct (ensureRoom now rid st) as [room0 st1]. simpl in SK, WK.
  assert (S1 : sock st1 h = Some ws) by (unfold sock; now rewrite SK).
  assert (K : forall rid w room,
    stable ws w -> evolves stable st (put_room rid room (set_sock h w st1))).
  { intros rid' w room St.
    apply evolves_ext with (a := st1) (b := set_sock h w st1); auto.
    eapply evolves_set_sock; eauto with sockdb. }
  assert (M : forall rid' r', stable ws (set_membership ws rid' r')).
  { intros rid' r'. split; [reflexivity | unfold same_closed; simpl; tauto]. }
  destruct r; cbn [fst].
  - apply K, M.
  - destruct (host_absent _); cbn [fst]; apply K, M.
Qed.

Lemma evolves_dispatch now h ws m st st' out :
  sock st h = Some ws -> dispatch now h ws m st = Some (st', out) ->
  evolves stable st st'.
Proof.
  intros S. unfold dispatch.
  assert (Same : forall o, Some (st, o) = Some (st', out) ->
                           evolves stable st st').
  { intros o E. apply some_pair in E. destruct E as [-> _].
    apply evolves_refl; auto with sockdb. }
  destruct (is_str (msg_type m) (js "join")).
  { unfold on_join. destruct (join_roomId m) as [rid|]; [|discriminate].
    destruct (join_name m) as [name|]; [|discriminate].
    intros E. apply some_pair in E. destruct E as [-> _].
    now apply evolves_join_room. }
  destruct (is_str (msg_type m) (js "signal")).
  { unfold on_signal. destruct (current_room ws st) as [[rid [room|]]|e];
      try apply Same.
    destruct (signal_target m) as [to|]; [|discriminate].
    destruct (_ || _); apply Same. }
  destruct (is_str (msg_type m) (js "chat")).
  { unfold on_chat. destruct (current_room ws st) as [[rid [room|]]|e];
      try apply Same.
    destruct (chat_text m) as [text|]; [|discriminate]. apply Same. }
  destruct (is_str (msg_type m) (js "leave")).
  - intros E. apply some_pair in E. destruct E as [-> _].
    apply evolves_lib_close.
  - unfold on_unknown. destruct (toString (msg_type m)); [|discriminate].
    apply Same.
Qed.

Lemma evolves_on_close h ws st : evolves stable st (fst (on_close h ws st)).
Proof.
  unfold on_close.
  destruct (current_room ws st) as [[rid [room|]]|e];
    try (apply evolves_refl; auto with sockdb).
  set (room1 := remove_member (clientId ws) room).
  destruct (match hostId room1 with
            | Some hid => str_eqb hid (clientId ws)
            | None => false
            end); cbn [fst].
  - apply evolves_ext with (a := put_room rid room1 st)
      (b := close_all (JsMap.values (clients room1)) (put_room rid room1 st));
      auto.
    apply evolves_close_all.
  - destruct (Nat.eqb _ 0); apply evolves_ext with (a := st) (b := st); auto;
      apply evolves_refl; auto with sockdb.
Qed.

Lemma evolves_sweep_fold hs acc :
  evolves same_closed (fst acc) (fst (fold_left sweep_one hs acc)).
Proof.
  revert acc. induction hs as [|h hs IH]; intros acc; simpl.
  - apply evolves_refl; auto with sockdb.
  - eapply evolves_trans; [exact same_closed_trans | | apply IH].
    destruct acc as [st out]; simpl.
    destruct (sock st h) as [w|] eqn:S; [|apply evolves_refl; auto with sockdb].
    destruct (isAlive w); cbn [fst].
    + eapply evolves_set_sock; eauto with sockdb.
      unfold same_closed; simpl; tauto.
    + eapply evolves_weaken; [exact stable_same_closed|].
      apply evolves_lib_terminate.
Qed.

(** *** One event *)

Lemma step_connect st uuid :
  step st (Connect uuid) = Some (on_connection uuid st).
Proof. reflexivity. Qed.

Lemma step_tick st : step st Tick = Some (sweep st).
Proof. reflexivity. Qed.

Lemma step_message_evolves st h raw now st' out :
  step st (Message h raw now) = Some (st', out) -> evolves stable st st'.
Proof.
  simpl. destruct (sock st h) as [w|] eqn:S; [|discriminate].
  intros M.
  assert (M' : on_message now h w raw st = Some (st', out))
    by (destruct (readyState w); congruence).
  destruct raw as [| |m]; simpl in M'; try discriminate.
  - apply some_pair in M'. destruct M' as [-> _].
    apply evolves_refl; auto with sockdb.
  - eapply evolves_dispatch; eauto.
Qed.

Lemma step_pong_inv st h st' out :
  step st (Pong h) = Some (st', out) ->
  exists w, sock st h = Some w /\ readyState w <> CLOSED
            /\ st' = set_sock h (set_isAlive w true) st.
Proof.
  simpl. destruct (sock st h) as [w|] eqn:S; [|discriminate].
  destruct (readyState w) eqn:RS; try discriminate;
    intros E; apply some_pair in E; destruct E as [-> _];
    exists w; repeat split; congruence.
Qed.

Lemma step_closed_inv st h st' out :
  step st (Closed h) = Some (st', out) ->
  exists w,
    sock st h = Some w /\ readyState w <> CLOSED
    /\ (st', out)
       = on_close h (set_readyState w CLOSED)
           (deregister h (set_sock h (set_readyState w CLOSED) st)).
Proof.
  simpl. destruct (sock st h) as [w|] eqn:S; [|discriminate].
  unfold close_event.
  destruct (readyState w) eqn:RS; try discriminate;
    intros E; injection E as E; exists w; repeat split; congruence.
Qed.

Lemma step_closed_enabled st h w :
  sock st h = Some w -> readyState w <> CLOSED ->
  step st (Closed h) = Some (close_event h w st).
Proof.
  intros S N. simpl. rewrite S.
  destruct (readyState w); [reflexivity | reflexivity | congruence].
Qed.

Lemma sock_connection uuid st h w :
  sock st h = Some w -> sock (fst (on_connection uuid st)) h = Some w.
Proof.
  unfold sock; simpl. intros S. rewrite nth_error_app1; auto.
  apply nth_error_Some. congruence.
Qed.

(** Every event but the close event of [h] leaves [h] closed or not as it
    was. *)
Lemma step_same_closed st e st' out h w :
  step st e = Some (st', out) -> e <> Closed h -> sock st h = Some w ->
  exists w', sock st' h = Some w' /\ same_closed w w'.
Proof.
  intros St NC S. destruct e as [uuid|h0 raw now|h0|h0|].
  - rewrite step_connect in St. apply some_pair in St. destruct St as [-> _].
    exists w. split; auto with sockdb. now apply sock_connection.
  - apply step_message_evolves in St. destruct St as [_ K].
    destruct (K _ _ S) as (w' & S' & R). eauto using stable_same_closed.
  - apply step_pong_inv in St. destruct St as (w0 & S0 & _ & ->).
    assert (E : evolves same_closed st (set_sock h0 (set_isAlive w0 true) st)).
    { eapply evolves_set_sock; eauto with sockdb.
      unfold same_closed; simpl; tauto. }
    destruct E as [_ K]. now apply K.
  - assert (N : h0 <> h) by congruence.
    apply step_closed_inv in St. destruct St as (w0 & S0 & _ & E).
    pose proof (evolves_on_close h0 (set_readyState w0 CLOSED)
      (deregister h0 (set_sock h0 (set_readyState w0 CLOSED) st))) as [_ K].
    rewrite <- E in K. simpl in K.
    destruct (K h w) as (w' & S' & R).
    { unfold sock; simpl. rewrite nth_error_list_upd_other; auto. }
    eauto using stable_same_closed.
  - rewrite step_tick in St. apply some_pair in St. destruct St as [-> _].
    pose proof (evolves_sweep_fold (wss_clients st) (st, [])) as [_ K].
    now apply K.
Qed.

Lemma registry_ok_evolves st st' :
  evolves same_closed st st' -> registry_ok st -> registry_ok st'.
Proof.
  intros [W K] [ND A]. split; [now rewrite W|].
  intros h I. rewrite W in I. destruct (A _ I) as (w & S & NC).
  destruct (K _ _ S) as (w' & S' & R). exists w'. split; auto.
  unfold same_closed in R. tauto.
Qed.

Lemma step_registry_ok st e st' out :
  registry_ok st -> step st e = Some (st', out) -> registry_ok st'.
Proof.
  intros RO St. destruct e as [uuid|h0 raw now|h0|h0|].
  - rewrite step_connect in St. apply some_pair in St. destruct St as [-> _].
    destruct RO as [ND A]. split.
    + simpl. apply NoDup_app; [exact ND | repeat constructor; auto |].
      intros x I1 [E|[]]. destruct (A _ I1) as (w & S & _).
      assert (x < List.length (sockets st))
        by (apply nth_error_Some; unfold sock in S; congruence).
      lia.
    + intros h I. simpl in I. apply in_app_iff in I. destruct I as [I|[<-|[]]].
      * destruct (A _ I) as (w & S & NC). exists w. split; auto.
        now apply sock_connection.
      * eexists. split.
        -- unfold sock; simpl. rewrite nth_error_app2 by lia.
           rewrite Nat.sub_diag. reflexivity.
        -- simpl. discriminate.
  - apply step_message_evolves in St.
    eapply registry_ok_evolves; eauto.
    eapply evolves_weaken; [exact stable_same_closed | exact St].
  - apply step_pong_inv in St. destruct St as (w0 & S0 & _ & ->).
    eapply registry_ok_evolves; eauto.
    eapply evolves_set_sock; eauto with sockdb.
    unfold same_closed; simpl; tauto.
  - apply step_closed_inv in St. destruct St as (w0 & S0 & _ & E).
    pose proof (evolves_on_close h0 (set_readyState w0 CLOSED)
      (deregister h0 (set_sock h0 (set_readyState w0 CLOSED) st))) as K.
    rewrite <- E in K. simpl in K.
    eapply registry_ok_evolves;
      [eapply evolves_weaken; [exact stable_same_closed | exact K]|].
    destruct RO as [ND A]. split.
    + simpl. now apply NoDup_filter.
    + intros h I. simpl in I. apply filter_In in I. destruct I as [I N].
      apply negb_true_iff, Nat.eqb_neq in N.
      destruct (A _ I) as (w & S & NC). exists w. split; auto.
      unfold sock; simpl. rewrite nth_error_list_upd_other; auto.
  - rewrite step_tick in St. apply some_pair in St. destruct St as [-> _].
    pose proof (evolves_sweep_fold (wss_clients st) (st, [])) as K.
    eapply registry_ok_evolves; eauto.
Qed.

Lemma run_registry_ok evs : forall st st' out,
  registry_ok st -> run st evs = Some (st', out) -> registry_ok st'.
Proof.
  induction evs as [|e evs IH]; intros st st' out C Rn; simpl in Rn.
  - injection Rn as <- _. exact C.
  - destruct (step st e) as [[st1 out1]|] eqn:S; [|discriminate].
    destruct (run st1 evs) as [[st2 out2]|] eqn:R1; [|discriminate].
    injection Rn as <- _. eapply IH; [|exact R1].
    eapply step_registry_ok; eauto.
Qed.

Lemma reachable_registry_ok st : reachable st -> registry_ok st.
Proof.
  intros (evs & out & Rn). eapply run_registry_ok; [|exact Rn].
  split; [constructor | intros h []].
Qed.

Lemma run_app evs1 : forall evs2 st st1 out1 st2 out2,
  run st evs1 = Some (st1, out1) -> run st1 evs2 = Some (st2, out2) ->
  run st (evs1 ++ evs2) = Some (st2, out1 ++ out2).
Proof.
  induction evs1 as [|e evs1 IH]; intros evs2 st st1 out1 st2 out2 R1 R2;
    simpl in *.
  - injection R1 as <- <-. exact R2.
  - destruct (step st e) as [[sa oa]|]; [|discriminate].
    destruct (run sa evs1) as [[sb ob]|] eqn:Rb; [|discriminate].
    injection R1 as <- <-. rewrite (IH _ _ _ _ _ _ Rb R2).
    now rewrite app_assoc.
Qed.

Lemma reachable_run st evs st' out :
  reachable st -> run st evs = Some (st', out) -> reachable st'.
Proof.
  intros (evs0 & out0 & R0) R1. exists (evs0 ++ evs), (out0 ++ out).
  eapply run_app; eauto.
Qed.

Lemma reachable_step st e st' out :
  reachable st -> step st e = Some (st', out) -> reachable st'.
Proof.
  intros Re St. apply (@reachable_run st [e] st' (out ++ [])); auto.
  simpl. now rewrite St.
Qed.

(* ================================================================= *)
(** ** The keepalive sweep *)

Lemma sock_lib_terminate_other h' h st :
  h' <> h -> sock (lib_terminate h' st) h = sock st h.
Proof.
  intros N. unfold lib_terminate. destruct (sock st h') as [w|]; auto.
  destruct (readyState w); auto; unfold sock; simpl;
    now rewrite nth_error_list_upd_other.
Qed.

Lemma sweep_one_other h h' acc :
  h' <> h ->
  sock (fst (sweep_one acc h')) h = sock (fst acc) h
  /\ forall e, about h e -> (In e (snd (sweep_one acc h')) <-> In e (snd acc)).
Proof.
  intros N. destruct acc as [st out]. unfold sweep_one.
  destruct (sock st h') as [w|]; [|simpl; split; [reflexivity|tauto]].
  assert (A : forall e x, about h e -> (x = WsPing h' \/ x = WsTerminate h') ->
                          (In e (out ++ [x]) <-> In e out)).
  { intros e x Ab X. rewrite in_app_iff. simpl. split; [|tauto].
    intros [I|[E|[]]]; auto. exfalso.
    destruct Ab as [-> | ->], X as [-> | ->]; congruence. }
  destruct (isAlive w); cbn [fst snd]; split; auto.
  - unfold sock; simpl. now rewrite nth_error_list_upd_other.
  - now apply sock_lib_terminate_other.
Qed.

Lemma sweep_fold_absent h hs : forall acc,
  ~ In h hs ->
  sock (fst (fold_left sweep_one hs acc)) h = sock (fst acc) h
  /\ forall e, about h e ->
       (In e (snd (fold_left sweep_one hs acc)) <-> In e (snd acc)).
Proof.
  induction hs as [|h0 hs IH]; intros acc NI; simpl.
  - split; [reflexivity | tauto].
  - simpl in NI.
    destruct (IH (sweep_one acc h0)) as [A B]; [tauto|].
    destruct (@sweep_one_other h h0 acc) as [C D]; [tauto|].
    split; [congruence|]. intros e Ab. rewrite (B e Ab). now apply D.
Qed.

Lemma sweep_fold_present h w hs : forall acc,
  NoDup hs -> In h hs ->
  sock (fst acc) h = Some w ->
  (forall e, about h e -> ~ In e (snd acc)) ->
  let res := fold_left sweep_one hs acc in
  if isAlive w
  then sock (fst res) h = Some (set_isAlive w false)
       /\ In (WsPing h) (snd res) /\ ~ In (WsTerminate h) (snd res)
  else alive (fst res) h = Some false
       /\ In (WsTerminate h) (snd res) /\ ~ In (WsPing h) (snd res).
Proof.
  induction hs as [|h0 hs IH]; intros acc ND I S NE; [destruct I|].
  inversion ND as [|? ? NI ND']; subst. simpl.
  destruct (Nat.eq_dec h0 h) as [->|N].
  - destruct (@sweep_fold_absent h hs (sweep_one acc h) NI) as [A B].
    destruct acc as [st out]. simpl in S, NE.
    unfold sweep_one in *. rewrite S in *.
    destruct (isAlive w) eqn:AL; cbn [fst snd] in *.
    + split; [|split].
      * rewrite A. unfold sock; simpl.
        apply (nth_error_list_upd_same _ _ _ S).
      * apply B; [now left|]. apply in_app_iff. right. now left.
      * rewrite B by now right. rewrite in_app_iff. simpl.
        intros [X|[X|[]]]; [|discriminate]. apply (NE (WsTerminate h)); auto.
        now right.
    + split; [|split].
      * unfold alive. rewrite A.
        destruct (evolves_lib_terminate h st) as [_ K].
        destruct (K _ _ S) as (w' & S' & [AL' _]). rewrite S'. simpl. congruence.
      * apply B; [now right|]. apply in_app_iff. right. now left.
      * rewrite B by now left. rewrite in_app_iff. simpl.
        intros [X|[X|[]]]; [|discriminate]. apply (NE (WsPing h)); auto.
        now left.
  - destruct I as [I|I]; [congruence|].
    destruct (@sweep_one_other h h0 acc N) as [C D].
    apply IH; auto; [congruence|].
    intros e Ab. rewrite (D e Ab). now apply NE.
Qed.

Lemma wss_clients_sweep st : wss_clients (fst (sweep st)) = wss_clients st.
Proof.
  destruct (evolves_sweep_fold (wss_clients st) (st, [])) as [W _]. exact W.
Qed.

(** An event that is not a pong of [h], its close event or a sweep leaves
    [h] registered with the liveness flag it had. *)
Lemma step_quiet st e st' out h w :
  step st e = Some (st', out) -> quiet h e ->
  In h (wss_clients st) -> sock st h = Some w ->
  In h (wss_clients st')
  /\ exists w', sock st' h = Some w' /\ isAlive w' = isAlive w.
Proof.
  intros St (NP & NC & NT) I S. destruct e as [uuid|h0 raw now|h0|h0|].
  - rewrite step_connect in St. apply some_pair in St. destruct St as [-> _].
    split; [simpl; apply in_app_iff; now left|].
    exists w. split; auto. now apply sock_connection.
  - apply step_message_evolves in St. destruct St as [W K].
    split; [now rewrite W|]. destruct (K _ _ S) as (w' & S' & [A _]). eauto.
  - assert (N : h0 <> h) by congruence.
    apply step_pong_inv in St. destruct St as (w0 & S0 & _ & ->).
    split; [exact I|]. exists w. split; auto.
    unfold sock; simpl. now rewrite nth_error_list_upd_other.
  - assert (N : h0 <> h) by congruence.
    apply step_closed_inv in St. destruct St as (w0 & S0 & _ & E).
    pose proof (evolves_on_close h0 (set_readyState w0 CLOSED)
      (deregister h0 (set_sock h0 (set_readyState w0 CLOSED) st))) as [W K].
    rewrite <- E in W, K. simpl in W, K. split.
    + rewrite W. apply filter_In. split; auto.
      apply negb_true_iff, Nat.eqb_neq. exact N.
    + destruct (K h w) as (w' & S' & [A _]); eauto.
      unfold sock; simpl. now rewrite nth_error_list_upd_other.
  - congruence.
Qed.

Lemma run_quiet evs : forall st st' out h w,
  run st evs = Some (st', out) -> Forall (quiet h) evs ->
  In h (wss_clients st) -> sock st h = Some w ->
  In h (wss_clients st')
  /\ exists w', sock st' h = Some w' /\ isAlive w' = isAlive w.
Proof.
  induction evs as [|e evs IH]; intros st st' out h w Rn Q I S; simpl in Rn.
  - injection Rn as <- _. eauto.
  - inversion Q as [|? ? Qe Qs]; subst.
    destruct (step st e) as [[st1 out1]|] eqn:St; [|discriminate].
    destruct (run st1 evs) as [[st2 out2]|] eqn:R1; [|discriminate].
    injection Rn as <- _.
    destruct (step_quiet _ St Qe I S) as (I1 & w1 & S1 & A1).
    destruct (IH _ _ _ _ _ R1 Qs I1 S1) as (I2 & w2 & S2 & A2).
    split; auto. exists w2. split; congruence.
Qed.

(** Once a socket is [CLOSED] its close event cannot occur. *)
Lemma closed_forever evs : forall st r h w,
  sock st h = Some w -> readyState w = CLOSED ->
  run st evs = Some r -> ~ In (Closed h) evs.
Proof.
  induction evs as [|e evs IH]; intros st r h w S C Rn; simpl; [tauto|].
  simpl in Rn.
  destruct (step st e) as [[st1 out1]|] eqn:St; [|discriminate].
  destruct (run st1 evs) as [r1|] eqn:R1; [|discriminate].
  intros [E|I].
  - subst e. apply step_closed_inv in St. destruct St as (w0 & S0 & N & _).
    congruence.
  - assert (NC : e <> Closed h).
    { intros ->. apply step_closed_inv in St.
      destruct St as (w0 & S0 & N & _). congruence. }
    destruct (step_same_closed _ St NC S) as (w' & S' & R).
    apply (IH _ _ _ _ S' (proj2 R C) R1 I).
Qed.

Lemma close_event_final st h w :
  sock st h = Some w ->
  ~ In h (wss_clients (fst (close_event h w st)))
  /\ exists w', sock (fst (close_event h w st)) h = Some w'
                /\ readyState w' = CLOSED.
Proof.
  intros S. unfold close_event.
  destruct (evolves_on_close h (set_readyState w CLOSED)
    (deregister h (set_sock h (set_readyState w CLOSED) st))) as [W K].
  split.
  - rewrite W. simpl. intros I. apply filter_In in I. destruct I as [_ N].
    rewrite Nat.eqb_refl in N. discriminate.
  - destruct (K h (set_readyState w CLOSED)) as (w' & S' & [_ R]).
    { unfold sock; simpl. apply (nth_error_list_upd_same _ _ _ S). }
    exists w'. split; auto. apply R. reflexivity.
Qed.

(* ################################################################# *)
(** * Further properties of the handlers *)

(* ================================================================= *)
(** ** Trimming *)

Lemma trim_start_split (s : jsstring) :
  exists p, s = p ++ trim_start s /\ forallb is_ws p = true.
Proof.
  induction s as [|c s (p & E & F)]; simpl.
  - exists []. auto.
  - destruct (is_ws c) eqn:W.
    + exists (c :: p). simpl. rewrite W, F. split; [now f_equal | reflexivity].
    + exists []. auto.
Qed.

Lemma trim_start_head (s : jsstring) c t :
  trim_start s = c :: t -> is_ws c = false.
Proof.
  induction s as [|x s IH]; simpl; [discriminate|].
  destruct (is_ws x) eqn:W; auto. intros E. injection E as <- _. exact W.
Qed.

Lemma trim_start_fixed (s : jsstring) :
  (forall c t, s = c :: t -> is_ws c = false) -> trim_start s = s.
Proof.
  destruct s as [|c t]; simpl; auto. intros H. now rewrite (H c t eq_refl).
Qed.

Lemma trim_start_idem (s : jsstring) :
  trim_start (trim_start s) = trim_start s.
Proof.
  apply trim_start_fixed. intros c t E. now apply trim_start_head in E.
Qed.

Lemma trim_start_blank (s : jsstring) :
  forallb is_ws s = true -> trim_start s = [].
Proof.
  induction s as [|c s IH]; simpl; auto.
  destruct (is_ws c); simpl; [exact IH | discriminate].
Qed.

Lemma trim_blank (s : jsstring) : forallb is_ws s = true -> trim s = [].
Proof. intros B. unfold trim. now rewrite (trim_start_blank _ B). Qed.

Lemma trim_idem (s : jsstring) : trim (trim s) = trim s.
Proof.
  unfold trim.
  set (a := trim_start s). set (b := trim_start (rev a)).
  assert (F : trim_start (rev b) = rev b).
  { apply trim_start_fixed. intros c t E.
    destruct (trim_start_split (rev a)) as (p & Ep & _). fold b in Ep.
    assert (Ea : a = rev b ++ rev p).
    { rewrite <- (rev_involutive a), Ep. apply rev_app_distr. }
    rewrite E in Ea. simpl in Ea. unfold a in Ea.
    now apply trim_start_head in Ea. }
  rewrite F, rev_involutive. unfold b. now rewrite trim_start_idem.
Qed.

(* ================================================================= *)
(** ** The fields of a join *)

Lemma join_roomId_trimmed m rid : join_roomId m = Some rid -> trim rid = rid.
Proof.
  unfold join_roomId. destruct (string_or_empty (msg_roomId m)); simpl;
    [|discriminate].
  intros E. injection E as <-. apply trim_idem.
Qed.

Lemma join_name_ok m name : join_name m = Some name -> name_ok name.
Proof.
  unfold join_name, name_ok.
  destruct (string_or_empty (msg_name m)) as [s|]; simpl; [|discriminate].
  intros E. injection E as <-. unfold str_or, slice0.
  destruct (trim s) as [|c t].
  - simpl. destruct (join_role m); split; try discriminate; vm_compute; lia.
  - cbn [firstn is_empty]. split; [discriminate|].
    apply (firstn_le_length 40 (c :: t)).
Qed.

(** X1. The display name a join computes is never empty and has at most 40
    code units: it is the [name] field as a trimmed string cut to 40, or,
    when that is empty, "Host" or "Viewer" by role. *)
Theorem join_name_bounds m name :
  join_name m = Some name ->
  name <> []
  /\ List.length name <= 40
  /\ exists s, string_or_empty (msg_name m) = Some s
               /\ (trim s = [] -> name = default_name (join_role m))
               /\ (trim s <> [] -> name = firstn 40 (trim s)).
Proof.
  unfold join_name. destruct (string_or_empty (msg_name m)) as [s|]; simpl;
    [|discriminate].
  intros E. injection E as <-. unfold str_or, slice0.
  destruct (trim s) as [|c t] eqn:T.
  - simpl. split; [destruct (join_role m); discriminate|].
    split; [destruct (join_role m); vm_compute; lia|].
    exists s. split; auto. split; [reflexivity | congruence].
  - cbn [firstn is_empty]. split; [discriminate|].
    split; [apply (firstn_le_length 40 (c :: t))|].
    exists s. split; auto. rewrite T. split; [discriminate | reflexivity].
Qed.

Lemma join_name_bounds_witness :
  join_name (join_msg "r1" "viewer" "  Bob  ") = Some (js "Bob")
  /\ js "Bob" <> []
  /\ List.length (js "Bob") <= 40.
Proof.
  assert (E : join_name (join_msg "r1" "viewer" "  Bob  ") = Some (js "Bob"))
    by (vm_compute; reflexivity).
  destruct (@join_name_bounds _ _ E) as (A & B & _).
  split; [exact E|]. split; [exact A | exact B].
Defined.

(** X2. A join whose [roomId] is missing, falsy or white space only: when
    its [name] field converts to a string it is answered with "Missing
    roomId" and nothing else happens; when the conversion of [name] throws,
    the handler throws (line 125 comes before the test of line 127) and
    nothing is sent. *)
Theorem join_missing_roomId now h ws m st :
  truthy (msg_roomId m) = false
  \/ (exists s, msg_roomId m = JStr s /\ forallb is_ws s = true) ->
  on_join now h ws m st
  = match join_name m with
    | Some _ =>
        Some (st, safeSend st (Some h) (MError (js "Missing roomId")))
    | None => None
    end.
Proof.
  intros B.
  assert (ER : join_roomId m = Some []).
  { unfold join_roomId, string_or_empty. destruct B as [F|(s & E & W)].
    - now rewrite F.
    - rewrite E. simpl. destruct (is_empty s); simpl;
        [reflexivity | now rewrite (trim_blank _ W)]. }
  unfold on_join. rewrite ER. now destruct (join_name m).
Qed.

Lemma join_missing_roomId_witness :
  on_join 100 1 (sock_at 1 hosted_room) blank_join_msg hosted_room
  = Some (hosted_room, [WsSend 1 (MError (js "Missing roomId"))]).
Proof.
  assert (B : truthy (msg_roomId blank_join_msg) = false
              \/ (exists s, msg_roomId blank_join_msg = JStr s
                            /\ forallb is_ws s = true)).
  { right. eexists. split; [reflexivity | vm_compute; reflexivity]. }
  rewrite (@join_missing_roomId 100 1 (sock_at 1 hosted_room) blank_join_msg
             hosted_room B).
  vm_compute. reflexivity.
Defined.

(* ================================================================= *)
(** ** The identifiers carried by the sockets *)

Lemma sock_ids st h id :
  (exists w, sock st h = Some w /\ clientId w = id)
  <-> nth_error (ids st) h = Some id.
Proof.
  unfold ids, sock. rewrite nth_error_map.
  destruct (nth_error (sockets st) h) as [w|]; simpl; split.
  - intros (w' & E & <-). congruence.
  - intros E. exists w. split; congruence.
  - intros (w' & E & _). discriminate.
  - discriminate.
Qed.

Lemma map_list_upd_same (l : list WebSocket) n w w0 :
  nth_error l n = Some w0 -> clientId w = clientId w0 ->
  map clientId (list_upd n w l) = map clientId l.
Proof.
  revert n. induction l as [|a l IH]; intros [|n]; simpl; try discriminate.
  - intros E C. injection E as ->. now rewrite C.
  - intros E C. f_equal. now apply IH.
Qed.

Lemma ids_set_sock st h w w0 :
  sock st h = Some w0 -> clientId w = clientId w0 ->
  ids (set_sock h w st) = ids st.
Proof. intros S C. unfold ids; simpl. eapply map_list_upd_same; eauto. Qed.

Lemma ids_lib_close h st : ids (lib_close h st) = ids st.
Proof.
  unfold lib_close. destruct (sock st h) as [w|] eqn:S; auto.
  destruct (readyState w); auto. eapply ids_set_sock; eauto.
Qed.

Lemma ids_lib_terminate h st : ids (lib_terminate h st) = ids st.
Proof.
  unfold lib_terminate. destruct (sock st h) as [w|] eqn:S; auto.
  destruct (readyState w); auto; eapply ids_set_sock; eauto.
Qed.

Lemma ids_close_all hs st : ids (close_all hs st) = ids st.
Proof.
  unfold close_all. revert st. induction hs as [|h hs IH]; intros st; simpl; auto.
  rewrite IH. apply ids_lib_close.
Qed.

Lemma ids_sweep_fold hs acc :
  ids (fst (fold_left sweep_one hs acc)) = ids (fst acc).
Proof.
  revert acc. induction hs as [|h hs IH]; intros acc; simpl; auto.
  rewrite IH. destruct acc as [s out]; simpl.
  destruct (sock s h) as [w|] eqn:S; auto.
  destruct (isAlive w); simpl.
  - eapply ids_set_sock; eauto.
  - apply ids_lib_terminate.
Qed.

Lemma ids_sweep st : ids (fst (sweep st)) = ids st.
Proof. apply (ids_sweep_fold (wss_clients st) (st, [])). Qed.

Lemma ids_on_close h ws st : ids (fst (on_close h ws st)) = ids st.
Proof.
  unfold on_close. destruct (current_room ws st) as [[rid [room|]]|e]; auto.
  destruct (match hostId (remove_member (clientId ws) room) with
            | Some hid => str_eqb hid (clientId ws)
            | None => false
            end); cbn [fst].
  - unfold ids, deleteRoom; simpl. apply ids_close_all.
  - destruct (Nat.eqb _ 0); reflexivity.
Qed.

Lemma ids_join_room now h ws rid r name st :
  sock st h = Some ws ->
  ids (fst (join_room now h ws rid r name st)) = ids st.
Proof.
  intros S. unfold join_room. destruct (is_empty rid); auto.
  pose proof (sockets_ensureRoom now rid st) as SK.
  destruct (ensureRoom now rid st) as [room0 st1]. simpl in SK.
  assert (K : forall rid' room a b,
    ids (put_room rid' room (set_sock h (set_membership ws a b) st1)) = ids st).
  { intros. unfold ids, put_room, set_rooms; simpl. rewrite SK.
    eapply map_list_upd_same; eauto. }
  destruct r; cbn [fst]; [apply K|].
  destruct (host_absent _); cbn [fst]; apply K.
Qed.

(* ================================================================= *)
(** ** The store invariant *)

Lemma in_set_inv (V : Type) k (v : V) m k' v' :
  In (k', v') (JsMap.set k v m) -> In (k', v') m \/ (k' = k /\ v' = v).
Proof.
  induction m as [|[k0 v0] m IH]; simpl.
  - intros [E|[]]. injection E as <- <-. auto.
  - destruct (str_eqb k k0) eqn:E; simpl.
    + apply str_eqb_eq in E. subst k0. intros [X|I]; auto.
      injection X as <- <-. auto.
    + intros [X|I]; auto. destruct (IH I); auto.
Qed.

Lemma has_set (V : Type) k k' (v : V) m :
  JsMap.has k' m = true -> JsMap.has k' (JsMap.set k v m) = true.
Proof.
  unfold JsMap.has. destruct (list_eq_dec N.eq_dec k k') as [->|N].
  - now rewrite get_set_same.
  - now rewrite get_set_other.
Qed.

Lemma Forall_pair_set (V : Type) (P : jsstring -> V -> Prop) k v m :
  Forall (fun e => P (fst e) (snd e)) m -> P k v ->
  Forall (fun e => P (fst e) (snd e)) (JsMap.set k v m).
Proof.
  intros F Pv. rewrite Forall_forall in *. intros [k' v'] I.
  apply in_set_inv in I. destruct I as [I|[-> ->]]; [exact (F _ I) | exact Pv].
Qed.

Ltac room_ok_parts :=
  unfold room_ok;
  refine (conj _ (conj _ (conj _ (conj _ (conj _ (conj _ _)))))).

Lemma room_ok_handles st st' rid room :
  (forall h id, nth_error (ids st) h = Some id ->
                nth_error (ids st') h = Some id) ->
  room_ok st rid room -> room_ok st' rid room.
Proof.
  intros K (A & B & C & D & E & F & G).
  split; [exact A|]. split; [exact B|]. split; [exact C|].
  split; [exact D|]. split; [exact E|]. split; [exact F|].
  intros i h0 I. apply sock_ids, K, sock_ids. now apply G.
Qed.

Lemma store_ok_sockets st st' :
  rooms st' = rooms st ->
  (forall h id, nth_error (ids st) h = Some id ->
                nth_error (ids st') h = Some id) ->
  store_ok st -> store_ok st'.
Proof.
  intros R K [W F]. split; rewrite R; auto.
  rewrite Forall_forall in *. intros e I.
  eapply room_ok_handles; eauto.
Qed.

Lemma store_ok_get st rid room :
  store_ok st -> getRoom rid st = Some room -> room_ok st rid room.
Proof.
  intros [_ F] G. apply get_some_in in G. rewrite Forall_forall in F.
  exact (F _ G).
Qed.

Lemma store_ok_ensureRoom now rid st :
  store_ok st -> rid <> [] -> trim rid = rid ->
  room_ok st rid (fst (ensureRoom now rid st))
  /\ store_ok (snd (ensureRoom now rid st)).
Proof.
  intros SO NE T. unfold ensureRoom.
  destruct (JsMap.get rid (rooms st)) eqn:G; simpl.
  - split; auto. now apply store_ok_get.
  - assert (N : room_ok st rid (mkRoom rid None [] [] [] now)).
    { split; [reflexivity|]. split; [exact NE|]. split; [exact T|].
      split; [intros hid E; discriminate|]. split; [reflexivity|].
      split; [intros i n []|intros i h0 []]. }
    split; auto. destruct SO as [W F]. split; simpl.
    + now apply wf_set.
    + apply Forall_pair_set; auto.
Qed.

Lemma store_ok_join_room now h ws rid r name st :
  store_ok st -> sock st h = Some ws ->
  trim rid = rid -> name_ok name ->
  store_ok (fst (join_room now h ws rid r name st)).
Proof.
  intros SO S T NO. unfold join_room.
  destruct (is_empty rid) eqn:NE; auto. apply is_empty_false in NE.
  destruct (store_ok_ensureRoom now SO NE T) as [R0 SO1].
  pose proof (sockets_ensureRoom now rid st) as SK.
  destruct (ensureRoom now rid st) as [room0 st1]. simpl in R0, SO1, SK.
  set (cid := clientId ws).
  set (room1 := insert_member cid h r name room0).
  assert (S1 : nth_error (sockets st1) h = Some ws)
    by (unfold sock in S; now rewrite SK).
  assert (IDS : forall room a b,
    ids (put_room rid room (set_sock h (set_membership ws a b) st1))
    = ids st1).
  { intros. unfold ids; simpl. eapply map_list_upd_same; eauto. }
  assert (K : forall room a b,
    room_ok (put_room rid room (set_sock h (set_membership ws a b) st1))
      rid room ->
    store_ok (put_room rid room (set_sock h (set_membership ws a b) st1))).
  { intros room a b RO. destruct SO1 as [W F]. split.
    - simpl. now apply wf_set.
    - simpl. apply Forall_pair_set; auto.
      rewrite Forall_forall in *. intros e I.
      eapply room_ok_handles; [|exact (F _ I)].
      intros h' i E. now rewrite IDS. }
  assert (H2 : forall room a b i h',
    In (i, h') (clients room1) ->
    exists w, sock (put_room rid room
                      (set_sock h (set_membership ws a b) st1)) h' = Some w
              /\ clientId w = i).
  { intros room a b i h' I. destruct R0 as (_ & _ & _ & _ & _ & _ & G).
    unfold room1 in I; simpl in I. apply in_set_inv in I.
    destruct I as [I|[-> ->]].
    - apply sock_ids. rewrite IDS. unfold ids. rewrite SK.
      apply sock_ids. now apply G.
    - exists (set_membership ws a b). split; auto.
      unfold sock; simpl. eapply nth_error_list_upd_same. exact S1. }
  assert (N1 : forall id n, In (id, n) (names room1) -> name_ok n).
  { intros id n I. destruct R0 as (_ & _ & _ & _ & _ & F & _).
    unfold room1 in I; simpl in I. apply in_set_inv in I.
    destruct I as [I|[_ ->]]; eauto. }
  destruct R0 as (A0 & _ & _ & D0 & E0 & _ & _).
  destruct r; cbn [fst].
  - apply K. room_ok_parts;
      [exact A0 | exact NE | exact T | | | exact N1 | intros i h' I; now apply H2].
    + simpl. intros hid E _. injection E as <-. unfold JsMap.has.
      now rewrite get_set_same.
    + simpl. discriminate.
  - destruct (host_absent room1) eqn:HA; cbn [fst]; apply K.
    + room_ok_parts; [exact A0 | exact NE | exact T | | | | ].
      * simpl. intros hid E NH. exfalso.
        assert (Hs : JsMap.has hid (clients room1) = true)
          by (unfold room1; simpl; apply has_set; auto).
        unfold host_absent in HA. unfold room1 in HA at 1 2. simpl in HA.
        rewrite E in HA. cbn [get_opt] in HA.
        unfold room1 in Hs. simpl in Hs. unfold JsMap.has in Hs.
        destruct (JsMap.get hid (JsMap.set cid h (clients room0)));
          [|discriminate].
        destruct hid; [congruence | discriminate].
      * simpl. intros E. rewrite (E0 E). simpl.
        now rewrite str_eqb_refl.
      * intros i n I. simpl in I. apply in_delete in I. apply (N1 i n), I.
      * intros i h' I. simpl in I. apply in_delete in I.
        apply H2. apply I.
    + room_ok_parts;
        [exact A0 | exact NE | exact T | | | exact N1
         | intros i h' I; now apply H2].
      * intros hid E NH. unfold host_absent in HA.
        rewrite E in HA. cbn [get_opt] in HA. unfold JsMap.has.
        destruct (JsMap.get hid (clients room1)); [reflexivity|].
        rewrite orb_true_r in HA. discriminate.
      * intros E. unfold host_absent in HA. rewrite E in HA. discriminate.
Qed.

Lemma delete_set_same (V : Type) k (v : V) m :
  JsMap.delete k (JsMap.set k v m) = JsMap.delete k m.
Proof.
  induction m as [|[k' v'] m IH]; simpl.
  - now rewrite str_eqb_refl.
  - destruct (str_eqb k k') eqn:E; simpl; rewrite E; simpl; auto.
    now f_equal.
Qed.

Lemma store_ok_delete rid st : store_ok st -> store_ok (deleteRoom rid st).
Proof.
  intros [W F]. split; simpl.
  - now apply wf_delete.
  - rewrite Forall_forall in *. intros e I. apply in_delete in I.
    exact (F _ (proj1 I)).
Qed.

Lemma store_ok_put rid room st :
  store_ok st -> room_ok st rid room -> store_ok (put_room rid room st).
Proof.
  intros [W F] R. split; simpl.
  - now apply wf_set.
  - now apply Forall_pair_set.
Qed.

Lemma current_room_get ws st rid room :
  current_room ws st = inl (rid, Some room) ->
  roomId ws = Some rid /\ rid <> [] /\ getRoom rid st = Some room.
Proof.
  unfold current_room. destruct (roomId ws) as [r|]; simpl; [|discriminate].
  destruct r as [|c r]; simpl; [discriminate|].
  intros E. injection E as <- G. repeat split; auto. discriminate.
Qed.

Lemma store_ok_on_close h ws st :
  store_ok st -> store_ok (fst (on_close h ws st)).
Proof.
  intros SO. unfold on_close.
  destruct (current_room ws st) as [[rid [room|]]|e] eqn:CR; auto.
  apply current_room_get in CR. destruct CR as (_ & _ & G).
  pose proof (store_ok_get _ SO G) as (A & NE & T & D & E & F & H).
  set (cid := clientId ws). set (room1 := remove_member cid room).
  destruct (match hostId room1 with
            | Some hid => str_eqb hid cid
            | None => false
            end) eqn:HC; cbn [fst].
  - apply store_ok_sockets with (st := deleteRoom rid st).
    + simpl. rewrite rooms_close_all. simpl. apply delete_set_same.
    + intros h' i X. unfold ids in *; simpl.
      change (nth_error
        (ids (close_all (JsMap.values (clients room1))
                (put_room rid room1 st))) h' = Some i).
      now rewrite ids_close_all.
    + now apply store_ok_delete.
  - assert (R1 : room_ok st rid room1).
    { room_ok_parts; [exact A | exact NE | exact T | | | | ].
      - simpl. intros hid EH NH. simpl in HC. rewrite EH in HC.
        apply str_eqb_neq in HC. unfold JsMap.has.
        rewrite get_delete_other by congruence.
        exact (D _ EH NH).
      - simpl. intros EH. now rewrite (E EH).
      - intros i n I. simpl in I. apply in_delete in I. apply (F i n), I.
      - intros i h' I. simpl in I. apply in_delete in I. apply H, I. }
    destruct (Nat.eqb _ 0).
    + apply store_ok_delete. now apply store_ok_put.
    + now apply store_ok_put.
Qed.

Lemma store_ok_dispatch now h ws m st st' out :
  store_ok st -> sock st h = Some ws ->
  dispatch now h ws m st = Some (st', out) -> store_ok st'.
Proof.
  intros SO S. unfold dispatch.
  assert (Same : forall o, Some (st, o) = Some (st', out) -> store_ok st').
  { intros o E. same_result E. exact SO. }
  destruct (is_str (msg_type m) (js "join")).
  { unfold on_join. destruct (join_roomId m) as [rid|] eqn:ER; [|discriminate].
    destruct (join_name m) as [name|] eqn:EN; [|discriminate].
    intros E. same_result E.
    apply store_ok_join_room; auto.
    - now apply join_roomId_trimmed with (m := m).
    - exact (join_name_ok _ EN). }
  destruct (is_str (msg_type m) (js "signal")).
  { unfold on_signal. destruct (current_room ws st) as [[rid [room|]]|e];
      try apply Same.
    destruct (signal_target m) as [to|]; [|discriminate].
    destruct (_ || _); apply Same. }
  destruct (is_str (msg_type m) (js "chat")).
  { unfold on_chat. destruct (current_room ws st) as [[rid [room|]]|e];
      try apply Same.
    destruct (chat_text m) as [text|]; [|discriminate]. apply Same. }
  destruct (is_str (msg_type m) (js "leave")).
  - intros E. same_result E. simpl.
    apply store_ok_sockets with (st := st); auto.
    + apply rooms_lib_close.
    + intros h' i X. now rewrite ids_lib_close.
  - unfold on_unknown. destruct (toString (msg_type m)); [|discriminate].
    apply Same.
Qed.

Lemma store_ok_step st e st' out :
  store_ok st -> step st e = Some (st', out) -> store_ok st'.
Proof.
  intros SO St. destruct e as [uuid|h raw now|h|h|].
  - rewrite step_connect in St. same_result St.
    apply store_ok_sockets with (st := st); auto.
    intros h' i X. unfold ids in *; simpl. rewrite map_app.
    rewrite nth_error_app1; auto. apply nth_error_Some. congruence.
  - simpl in St. destruct (sock st h) as [w|] eqn:S; [|discriminate].
    assert (M : on_message now h w raw st = Some (st', out))
      by (destruct (readyState w); congruence).
    destruct raw as [| |m]; simpl in M; try discriminate.
    + same_result M. exact SO.
    + eapply store_ok_dispatch; eauto.
  - apply step_pong_inv in St. destruct St as (w0 & S0 & _ & ->).
    apply store_ok_sockets with (st := st); auto.
    intros h' i X. erewrite ids_set_sock; eauto.
  - apply step_closed_inv in St. destruct St as (w0 & S0 & _ & E).
    apply (f_equal fst) in E. simpl in E. subst st'.
    apply store_ok_on_close.
    apply store_ok_sockets with (st := st); auto.
    intros h' i X.
    change (nth_error (ids (set_sock h (set_readyState w0 CLOSED) st)) h'
            = Some i).
    erewrite ids_set_sock; eauto.
  - rewrite step_tick in St. same_result St.
    apply store_ok_sockets with (st := st); auto.
    + unfold sweep. apply rooms_sweep_fold.
    + intros h' i X. now rewrite ids_sweep.
Qed.

Lemma reachable_store_ok st : reachable st -> store_ok st.
Proof.
  intros (evs & out & Rn).
  assert (G : forall evs s s' o, store_ok s -> run s evs = Some (s', o) ->
                                 store_ok s').
  { clear. induction evs as [|e evs IH]; intros s s' o C R; simpl in R.
    - injection R as <- _. exact C.
    - destruct (step s e) as [[s1 o1]|] eqn:S; [|discriminate].
      destruct (run s1 evs) as [[s2 o2]|] eqn:R1; [|discriminate].
      injection R as <- _. eapply IH; [|exact R1].
      eapply store_ok_step; eauto. }
  eapply G; [|exact Rn]. split; constructor.
Qed.

Lemma keys_nil (V : Type) (m : JsMap.t V) : JsMap.keys m = [] -> m = [].
Proof. destruct m; [reflexivity | discriminate]. Qed.

Lemma reachable_room st rid room :
  reachable st -> In (rid, room) (rooms st) ->
  room_ok st rid room /\ index_consistent room /\ room_wf room
  /\ getRoom rid st = Some room.
Proof.
  intros Re I.
  pose proof (reachable_store_ok Re) as [W F].
  pose proof (reachable_consistent Re) as C.
  pose proof (reachable_wf Re) as Wf.
  unfold rooms_consistent, every_room in *. rewrite Forall_forall in *.
  split; [exact (F _ I)|]. split; [exact (C _ I)|]. split; [exact (Wf _ I)|].
  now apply in_get_wf.
Qed.

(** X3. In every reachable state a room is stored under its own identifier,
    which is not empty and has no white space at either end, and no
    identifier has two rooms. *)
Theorem store_keys st rid room :
  reachable st -> In (rid, room) (rooms st) ->
  room_roomId room = rid
  /\ rid <> []
  /\ trim rid = rid
  /\ getRoom rid st = Some room
  /\ NoDup (JsMap.keys (rooms st)).
Proof.
  intros Re I. destruct (@reachable_room _ _ _ Re I) as ((A & B & C & _) & _ & _ & G).
  repeat split; auto. apply (reachable_store_ok Re).
Qed.

Lemma store_keys_witness :
  room_roomId (room_at "r1" takeover) = js "r1"
  /\ getRoom (js "r1") takeover = Some (room_at "r1" takeover).
Proof.
  assert (Re : reachable takeover).
  { exists takeover_events. eexists. vm_compute. reflexivity. }
  assert (I : In (js "r1", room_at "r1" takeover) (rooms takeover))
    by (vm_compute; left; reflexivity).
  destruct (@store_keys takeover _ _ Re I) as (A & _ & _ & G & _).
  split; [exact A | exact G].
Defined.

(** X4. In every reachable state the host identifier of a room, once set, is
    the identifier of a member, whose handle is a socket carrying that
    identifier (open or not); and a room without host identifier has no
    member at all. *)
Theorem host_is_member st rid room :
  reachable st -> In (rid, room) (rooms st) ->
  (forall hid, hostId room = Some hid -> hid <> [] ->
     exists h w, JsMap.get hid (clients room) = Some h
                 /\ sock st h = Some w /\ clientId w = hid)
  /\ (hostId room = None ->
      clients room = [] /\ roles room = [] /\ names room = []).
Proof.
  intros Re I.
  destruct (@reachable_room _ _ _ Re I)
    as ((_ & _ & _ & D & E & _ & H) & (C1 & C2) & _ & _).
  split.
  - intros hid EH NH. pose proof (D _ EH NH) as Hs. unfold JsMap.has in Hs.
    destruct (JsMap.get hid (clients room)) as [h|] eqn:G; [|discriminate].
    destruct (H hid h (get_some_in _ _ G)) as (w & S & Cw). eauto.
  - intros EH. pose proof (E EH) as X. rewrite X in C1. simpl in C1.
    symmetry in C1. apply keys_nil in C1. rewrite C1 in C2. simpl in C2.
    symmetry in C2. apply keys_nil in C2. auto.
Qed.

Lemma host_is_member_witness :
  hostId (room_at "r1" takeover) = Some (js "H2")
  /\ exists h w, JsMap.get (js "H2") (clients (room_at "r1" takeover)) = Some h
                 /\ sock takeover h = Some w /\ clientId w = js "H2".
Proof.
  assert (Re : reachable takeover).
  { exists takeover_events. eexists. vm_compute. reflexivity. }
  assert (I : In (js "r1", room_at "r1" takeover) (rooms takeover))
    by (vm_compute; left; reflexivity).
  assert (EH : hostId (room_at "r1" takeover) = Some (js "H2"))
    by (vm_compute; reflexivity).
  assert (NH : js "H2" <> []) by (vm_compute; discriminate).
  destruct (@host_is_member takeover _ _ Re I) as (A & _).
  split; [exact EH | exact (A _ EH NH)].
Defined.

(** X5. In every reachable state every stored display name is non-empty and at
    most 40 code units long, so the roster and the chat never fall back on
    "Viewer", "Host" or "User" for a member. *)
Theorem names_bounded st rid room id n :
  reachable st -> In (rid, room) (rooms st) ->
  JsMap.get id (names room) = Some n ->
  n <> [] /\ List.length n <= 40
  /\ forall dflt, get_or id (names room) dflt = n.
Proof.
  intros Re I G. destruct (@reachable_room _ _ _ Re I) as ((_ & _ & _ & _ & _ & F & _) & _).
  destruct (F id n (get_some_in _ _ G)) as [A B].
  repeat split; auto. intros dflt. unfold get_or, str_or. rewrite G.
  destruct n; [congruence | reflexivity].
Qed.

Lemma names_bounded_witness :
  JsMap.get (js "V") (names (room_at "r1" takeover)) = Some (js "Bob")
  /\ get_or (js "V") (names (room_at "r1" takeover)) (js "Viewer") = js "Bob".
Proof.
  assert (Re : reachable takeover).
  { exists takeover_events. eexists. vm_compute. reflexivity. }
  assert (I : In (js "r1", room_at "r1" takeover) (rooms takeover))
    by (vm_compute; left; reflexivity).
  assert (G : JsMap.get (js "V") (names (room_at "r1" takeover))
              = Some (js "Bob")) by (vm_compute; reflexivity).
  destruct (@names_bounded takeover _ _ _ _ Re I G) as (_ & _ & D).
  split; [exact G | apply D].
Defined.

(** X6. In every reachable state the handle a room keeps for an identifier is a
    socket of the heap whose [clientId] is that identifier: a relay
    addressed to B goes to B's own socket. *)
Theorem member_handle_carries_id st rid room id h :
  reachable st -> In (rid, room) (rooms st) ->
  JsMap.get id (clients room) = Some h ->
  exists w, sock st h = Some w /\ clientId w = id.
Proof.
  intros Re I G.
  destruct (@reachable_room _ _ _ Re I) as ((_ & _ & _ & _ & _ & _ & H) & _).
  apply H. now apply get_some_in.
Qed.

Lemma member_handle_carries_id_witness :
  JsMap.get (js "V") (clients (room_at "r1" takeover)) = Some 1
  /\ exists w, sock takeover 1 = Some w /\ clientId w = js "V".
Proof.
  assert (Re : reachable takeover).
  { exists takeover_events. eexists. vm_compute. reflexivity. }
  assert (I : In (js "r1", room_at "r1" takeover) (rooms takeover))
    by (vm_compute; left; reflexivity).
  assert (G : JsMap.get (js "V") (clients (room_at "r1" takeover)) = Some 1)
    by (vm_compute; reflexivity).
  split; [exact G|].
  exact (@member_handle_carries_id takeover _ _ _ _ Re I G).
Defined.

(** X7. In a reachable state a viewer join is rolled back exactly when the room
    is not in the store or has no (non-empty) host identifier; whether the
    host's socket is still open plays no part. *)
Theorem viewer_join_gate now h ws rid name st :
  reachable st -> rid <> [] ->
  host_absent (join_target now h ws rid Viewer name st)
  = negb (match getRoom rid st with
          | Some room => truthy_id (hostId room)
          | None => false
          end).
Proof.
  intros Re NE. unfold join_target.
  destruct (getRoom rid st) as [room|] eqn:G.
  - rewrite (ensureRoom_existing now _ _ G). cbn [fst].
    unfold host_absent; simpl.
    destruct (hostId room) as [hid|] eqn:EH; [|reflexivity].
    destruct hid as [|c hid]; [reflexivity|]. simpl.
    assert (I : In (rid, room) (rooms st)) by now apply get_some_in.
    destruct (@reachable_room _ _ _ Re I) as ((_ & _ & _ & D & _) & _).
    assert (Hs : JsMap.has (c :: hid) (clients room) = true)
      by (apply D; [exact EH | discriminate]).
    apply has_set with (k := clientId ws) (v := h) in Hs.
    unfold JsMap.has in Hs.
    destruct (JsMap.get (c :: hid) (JsMap.set (clientId ws) h (clients room)));
      [reflexivity | discriminate].
  - rewrite (ensureRoom_fresh now _ _ G). reflexivity.
Qed.

Lemma viewer_join_gate_witness :
  host_absent (join_target 200 1 (sock_at 1 viewer_gone) (js "r1") Viewer
                 (js "Bob") viewer_gone) = false
  /\ host_absent (join_target 200 1 (sock_at 1 viewer_gone) (js "zz") Viewer
                    (js "Bob") viewer_gone) = true.
Proof.
  assert (Re : reachable viewer_gone).
  { exists (hosted_room_events ++ [Closed 1]). eexists.
    vm_compute. reflexivity. }
  split.
  - rewrite (@viewer_join_gate 200 1 (sock_at 1 viewer_gone) (js "r1")
               (js "Bob") viewer_gone Re); [vm_compute; reflexivity|].
    vm_compute; discriminate.
  - rewrite (@viewer_join_gate 200 1 (sock_at 1 viewer_gone) (js "zz")
               (js "Bob") viewer_gone Re); [vm_compute; reflexivity|].
    vm_compute; discriminate.
Defined.

(* ================================================================= *)
(** ** Who is sent what *)

Lemma is_open_membership st st1 h ws a b rid room h' :
  sockets st1 = sockets st -> sock st h = Some ws ->
  is_open (put_room rid room (set_sock h (set_membership ws a b) st1)) h'
  = is_open st h'.
Proof.
  intros SK S. unfold is_open, sock in *; simpl. rewrite SK.
  destruct (Nat.eq_dec h h') as [<-|N].
  - now rewrite (nth_error_list_upd_same _ _ _ S), S.
  - now rewrite nth_error_list_upd_other.
Qed.

Lemma send_safeSend st t obj h' obj' :
  In (WsSend h' obj') (safeSend st t obj) ->
  t = Some h' /\ obj' = stringify obj /\ is_open st h' = true.
Proof.
  destruct t as [h|]; [|intros []]. intros I. apply in_safeSend in I.
  destruct I as [E O]. injection E as -> ->. auto.
Qed.

Lemma send_broadcast st room obj h' obj' :
  In (WsSend h' obj') (broadcast st room obj) ->
  obj' = stringify obj /\ is_open st h' = true
  /\ exists id, In (id, h') (clients room).
Proof.
  intros I. apply in_broadcast in I. destruct I as (id & hm & I & O & E).
  injection E as -> ->. eauto.
Qed.

Lemma send_notify st room cid h' obj' :
  In (WsSend h' obj') (notify_viewers st room cid) ->
  obj' = MHostReady cid /\ is_open st h' = true
  /\ exists id, id <> cid /\ In (id, Viewer) (roles room)
                /\ JsMap.get id (clients room) = Some h'.
Proof.
  unfold notify_viewers, JsMap.entries. rewrite in_flat_map.
  intros ([id r] & I & X). simpl in X. destruct r; [destruct X|].
  destruct (str_eqb id cid) eqn:E; [destruct X|].
  apply str_eqb_neq in E. apply send_safeSend in X.
  destruct X as (G & -> & O). eauto 6.
Qed.

Lemma notify_send st room cid id h' :
  id <> cid -> In (id, Viewer) (roles room) ->
  JsMap.get id (clients room) = Some h' -> is_open st h' = true ->
  In (WsSend h' (MHostReady cid)) (notify_viewers st room cid).
Proof.
  intros N I G O. unfold notify_viewers, JsMap.entries. apply in_flat_map.
  exists (id, Viewer). split; auto. simpl.
  apply str_eqb_neq in N. rewrite N, G. rewrite safeSend_open; simpl; auto.
Qed.

Lemma same_open_safeSend s1 s2 :
  (forall h, is_open s1 h = is_open s2 h) ->
  forall t obj, safeSend s1 t obj = safeSend s2 t obj.
Proof. intros E [h|] obj; simpl; auto. now rewrite E. Qed.

Lemma same_open_broadcast s1 s2 :
  (forall h, is_open s1 h = is_open s2 h) ->
  forall room obj, broadcast s1 room obj = broadcast s2 room obj.
Proof.
  intros E room obj. unfold broadcast. apply flat_map_ext. intros h.
  now apply same_open_safeSend.
Qed.

Lemma same_open_notify s1 s2 :
  (forall h, is_open s1 h = is_open s2 h) ->
  forall room cid, notify_viewers s1 room cid = notify_viewers s2 room cid.
Proof.
  intros E room cid. unfold notify_viewers. apply flat_map_ext.
  intros [id r]. simpl. destruct r; auto. destruct (str_eqb id cid); auto.
  now apply same_open_safeSend.
Qed.

(** X8. An accepted viewer join: the viewer is acknowledged with the host
    identifier and a roster that lists it, the host's socket is told of the
    viewer with its identifier and name, and every member - the viewer
    included - gets the "joined" notice; all best effort.  The room keeps
    its host identifier. *)
Theorem viewer_join_accepted now h ws m st rid name room0 hid :
  sock st h = Some ws ->
  join_roomId m = Some rid ->
  join_name m = Some name ->
  join_role m = Viewer ->
  rid <> [] ->
  getRoom rid st = Some room0 ->
  hostId room0 = Some hid -> hid <> [] ->
  JsMap.has hid (clients room0) = true ->
  let cid := clientId ws in
  let room1 := insert_member cid h Viewer name room0 in
  exists st',
    on_join now h ws m st
    = Some (st',
            safeSend st (Some h)
              (MJoined rid cid Viewer (Some hid) (roster room1))
            ++ safeSend st (JsMap.get hid (clients room1))
                 (MViewerJoined rid cid name)
            ++ broadcast st room1 (MSystem (name ++ js " joined.")))
    /\ getRoom rid st' = Some room1
    /\ hostId room1 = Some hid
    /\ sock st' h = Some (set_membership ws (Some rid) (Some Viewer))
    /\ host (roster room1)
       = Some (mkDesc hid (get_or hid (names room1) (js "Host")))
    /\ In (mkDesc cid name) (viewers (roster room1))
    /\ JsMap.get cid (clients room1) = Some h.
Proof.
  intros S ER EN R NE G EH NH Hs cid room1.
  unfold on_join. rewrite ER, EN, R. unfold join_room.
  assert (NE' := NE). apply is_empty_false in NE'. rewrite NE'.
  rewrite (ensureRoom_existing now _ _ G). fold cid. fold room1.
  assert (HA : host_absent room1 = false).
  { unfold host_absent. unfold room1 at 1 2. simpl. rewrite EH.
    destruct hid as [|c hid]; [congruence|]. simpl.
    apply has_set with (k := cid) (v := h) in Hs. unfold JsMap.has in Hs.
    destruct (JsMap.get (c :: hid) (JsMap.set cid h (clients room0)));
      [reflexivity | discriminate]. }
  rewrite HA.
  assert (EH1 : hostId room1 = Some hid) by exact EH.
  rewrite EH1. cbn [get_opt].
  assert (IO : forall room a b h',
    is_open (put_room rid room (set_sock h (set_membership ws a b) st)) h'
    = is_open st h') by (intros; now apply is_open_membership).
  eexists. split.
  { rewrite !(same_open_safeSend _ _ (IO _ _ _)).
    rewrite (same_open_broadcast _ _ (IO _ _ _)). reflexivity. }
  split; [apply getRoom_put_same|]. split; [reflexivity|].
  split; [unfold sock in *; simpl; apply (nth_error_list_upd_same _ _ _ S)|].
  split.
  { unfold roster; simpl. rewrite EH.
    destruct hid; [congruence | reflexivity]. }
  split.
  { simpl. apply in_viewer_descriptors. exists cid. split.
    - unfold room1; simpl. apply get_some_in, get_set_same.
    - unfold get_or. unfold room1; simpl. rewrite get_set_same.
      destruct (join_name_ok _ EN) as (NN & _).
      unfold str_or. destruct name; [congruence | reflexivity]. }
  unfold room1; simpl. apply get_set_same.
Qed.

Lemma viewer_join_accepted_witness :
  exists st',
    on_join 101 1 (sock_at 1 host_only) (join_msg "r1" "viewer" "Bob")
      host_only
    = Some (st',
            [WsSend 1 (MJoined (js "r1") (js "V") Viewer (Some (js "H"))
                         (mkRoster (Some (mkDesc (js "H") (js "Ann")))
                                   [mkDesc (js "V") (js "Bob")]));
             WsSend 0 (MViewerJoined (js "r1") (js "V") (js "Bob"));
             WsSend 0 (MSystem (js "Bob joined."));
             WsSend 1 (MSystem (js "Bob joined."))]).
Proof.
  assert (S : sock host_only 1 = Some (sock_at 1 host_only))
    by (vm_compute; reflexivity).
  assert (ER : join_roomId (join_msg "r1" "viewer" "Bob") = Some (js "r1"))
    by (vm_compute; reflexivity).
  assert (EN : join_name (join_msg "r1" "viewer" "Bob") = Some (js "Bob"))
    by (vm_compute; reflexivity).
  assert (R : join_role (join_msg "r1" "viewer" "Bob") = Viewer)
    by (vm_compute; reflexivity).
  assert (NE : js "r1" <> []) by (vm_compute; discriminate).
  assert (G : getRoom (js "r1") host_only = Some (room_at "r1" host_only))
    by (vm_compute; reflexivity).
  assert (EH : hostId (room_at "r1" host_only) = Some (js "H"))
    by (vm_compute; reflexivity).
  assert (NH : js "H" <> []) by (vm_compute; discriminate).
  assert (Hs : JsMap.has (js "H") (clients (room_at "r1" host_only)) = true)
    by (vm_compute; reflexivity).
  destruct (@viewer_join_accepted 101 1 _ _ host_only _ _ _ _
              S ER EN R NE G EH NH Hs)
    as (st' & J & _).
  exists st'. rewrite J. f_equal.
Defined.

Lemma roster_host_self cid h r name room0 :
  cid <> [] -> name <> [] ->
  host (roster (set_hostId (Some cid) (insert_member cid h r name room0)))
  = Some (mkDesc cid name).
Proof.
  intros NC NN. unfold roster; simpl. destruct cid as [|c t]; [congruence|].
  unfold get_or. rewrite get_set_same. unfold str_or.
  destruct name; [congruence | reflexivity].
Qed.

(** X9. An accepted host join: the new host is acknowledged with a roster that
    names it as host (a roster without viewers when the room is new), every
    member gets the "is hosting" notice, and [host_ready] with the new host
    identifier goes to the open socket of every other identifier whose role
    is "viewer" and to nobody else; all best effort. *)
Theorem host_join_notifies now h ws m st rid name :
  sock st h = Some ws ->
  join_roomId m = Some rid ->
  join_name m = Some name ->
  join_role m = Host ->
  rid <> [] ->
  clientId ws <> [] ->
  let cid := clientId ws in
  let room2 := set_hostId (Some cid) (join_target now h ws rid Host name st) in
  exists st',
    on_join now h ws m st
    = Some (st',
            safeSend st (Some h) (MJoined rid cid Host None (roster room2))
            ++ broadcast st room2
                 (MSystem (name ++ js " is hosting room " ++ rid))
            ++ notify_viewers st room2 cid)
    /\ getRoom rid st' = Some room2
    /\ host (roster room2) = Some (mkDesc cid name)
    /\ (getRoom rid st = None ->
        roster room2 = mkRoster (Some (mkDesc cid name)) [])
    /\ (forall h' x,
          In (WsSend h' (MHostReady x))
             (safeSend st (Some h) (MJoined rid cid Host None (roster room2))
              ++ broadcast st room2
                   (MSystem (name ++ js " is hosting room " ++ rid))
              ++ notify_viewers st room2 cid)
          <-> x = cid /\ is_open st h' = true
              /\ exists id, id <> cid /\ In (id, Viewer) (roles room2)
                            /\ JsMap.get id (clients room2) = Some h').
Proof.
  intros S ER EN R NE NC cid room2.
  unfold on_join. rewrite ER, EN, R. unfold join_room.
  assert (NE' := NE). apply is_empty_false in NE'. rewrite NE'.
  pose proof (sockets_ensureRoom now rid st) as SK.
  unfold room2, join_target.
  destruct (ensureRoom now rid st) as [room0 st1] eqn:EE. cbn [fst].
  fold cid. simpl in SK.
  set (r2 := set_hostId (Some cid) (insert_member cid h Host name room0)).
  assert (IO : forall room a b h',
    is_open (put_room rid room (set_sock h (set_membership ws a b) st1)) h'
    = is_open st h') by (intros; now apply is_open_membership).
  assert (NN : name <> []) by (destruct (join_name_ok _ EN); auto).
  assert (HR : host (roster r2) = Some (mkDesc cid name))
    by (apply roster_host_self; auto).
  eexists. split.
  { rewrite (same_open_safeSend _ _ (IO _ _ _)).
    rewrite (same_open_broadcast _ _ (IO _ _ _)).
    rewrite (same_open_notify _ _ (IO _ _ _)). reflexivity. }
  split; [apply getRoom_put_same|]. split; [exact HR|]. split.
  { intros GN. rewrite (ensureRoom_fresh now _ _ GN) in EE.
    injection EE as <- _. unfold roster. fold (roster r2). 
    change (roster r2) with (mkRoster (host (roster r2)) (viewers (roster r2))).
    rewrite HR. reflexivity. }
  intros h' x. rewrite !in_app_iff. split.
  - intros [I|[I|I]].
    + apply send_safeSend in I. destruct I as (_ & X & _). discriminate.
    + apply send_broadcast in I. destruct I as (X & _). discriminate.
    + apply send_notify in I. destruct I as (X & O & Y).
      injection X as ->. auto.
  - intros (-> & O & id & N & I & G). right. right.
    eapply notify_send; eauto.
Qed.

Lemma host_join_notifies_witness :
  exists st',
    on_join 103 2 (sock_at 2 before_takeover) (join_msg "r1" "host" "Cid")
      before_takeover
    = Some (st',
            [WsSend 2 (MJoined (js "r1") (js "H2") Host None
                         (mkRoster (Some (mkDesc (js "H2") (js "Cid")))
                                   [mkDesc (js "V") (js "Bob")]));
             WsSend 0 (MSystem (js "Cid is hosting room r1"));
             WsSend 1 (MSystem (js "Cid is hosting room r1"));
             WsSend 2 (MSystem (js "Cid is hosting room r1"));
             WsSend 1 (MHostReady (js "H2"))]).
Proof.
  assert (S : sock before_takeover 2 = Some (sock_at 2 before_takeover))
    by (vm_compute; reflexivity).
  assert (ER : join_roomId (join_msg "r1" "host" "Cid") = Some (js "r1"))
    by (vm_compute; reflexivity).
  assert (EN : join_name (join_msg "r1" "host" "Cid") = Some (js "Cid"))
    by (vm_compute; reflexivity).
  assert (R : join_role (join_msg "r1" "host" "Cid") = Host)
    by (vm_compute; reflexivity).
  assert (NE : js "r1" <> []) by (vm_compute; discriminate).
  assert (NC : clientId (sock_at 2 before_takeover) <> [])
    by (vm_compute; discriminate).
  destruct (@host_join_notifies 103 2 _ _ before_takeover _ _ S ER EN R NE NC)
    as (st' & J & _).
  exists st'. rewrite J. f_equal.
Defined.

(* ================================================================= *)
(** ** Departure of a member that is not the host *)

(** X10. When the closing connection's current room is in the store and its
    host identifier is another connection's (or unset), the connection
    leaves the three indexes; the room is kept unless it became empty; no
    other room changes and nobody is closed; the host's socket, if the host
    identifier is a member, is sent [viewer_left], and every remaining
    member the "left" notice, best effort. *)
Theorem member_close_notifies h ws st rid room :
  roomId ws = Some rid -> rid <> [] ->
  getRoom rid st = Some room ->
  hostId room <> Some (clientId ws) ->
  let cid := clientId ws in
  let room1 := remove_member cid room in
  let name :=
    get_or cid (names room)
      (match role ws with Some Host => js "Host" | _ => js "Viewer" end) in
  getRoom rid (fst (on_close h ws st))
  = (if Nat.eqb (JsMap.size (clients room1)) 0 then None else Some room1)
  /\ (forall rid', rid' <> rid ->
        getRoom rid' (fst (on_close h ws st)) = getRoom rid' st)
  /\ sockets (fst (on_close h ws st)) = sockets st
  /\ JsMap.get cid (clients room1) = None
  /\ (forall e, In e (snd (on_close h ws st)) ->
        exists h', e = WsSend h' (MViewerLeft rid cid)
                   \/ e = WsSend h' (MSystem (name ++ js " left.")))
  /\ (forall hid hh,
        hostId room = Some hid -> hid <> [] ->
        JsMap.get hid (clients room1) = Some hh -> is_open st hh = true ->
        In (WsSend hh (MViewerLeft rid cid)) (snd (on_close h ws st)))
  /\ (forall id hm,
        JsMap.get id (clients room1) = Some hm -> is_open st hm = true ->
        In (WsSend hm (MSystem (name ++ js " left.")))
           (snd (on_close h ws st))).
Proof.
  intros E NE G NH cid room1 name. unfold on_close.
  rewrite (current_room_joined ws st E NE), G. fold cid. fold room1.
  fold name.
  assert (HC : match hostId room1 with
               | Some hid => str_eqb hid cid
               | None => false
               end = false).
  { unfold room1, cid; simpl. destruct (hostId room) as [hid|]; auto.
    apply str_eqb_neq. congruence. }
  rewrite HC.
  set (st1 := put_room rid room1 st).
  set (to_host := if truthy_id (hostId room1)
                     && match get_opt (hostId room1) (clients room1) with
                        | Some _ => true
                        | None => false
                        end
                  then safeSend st1 (get_opt (hostId room1) (clients room1))
                         (MViewerLeft rid cid)
                  else []).
  cbn [fst snd].
  split.
  { destruct (Nat.eqb (JsMap.size (clients room1)) 0).
    - unfold getRoom, deleteRoom; simpl. apply get_delete_same.
    - apply getRoom_put_same. }
  split.
  { intros rid' N. destruct (Nat.eqb (JsMap.size (clients room1)) 0).
    - unfold getRoom, deleteRoom; simpl.
      rewrite get_delete_other by congruence. now apply get_set_other.
    - now apply getRoom_put_other. }
  split; [destruct (Nat.eqb _ 0); reflexivity|].
  split; [unfold room1; simpl; apply get_delete_same|].
  split.
  { intros e I. apply in_app_iff in I. destruct I as [I|I].
    - unfold to_host in I. destruct (_ && _); [|destruct I].
      destruct (get_opt (hostId room1) (clients room1)) as [hh|];
        [|destruct I].
      apply in_safeSend in I. destruct I as [-> _]. eauto.
    - apply in_broadcast in I. destruct I as (id & hm & _ & _ & ->). eauto. }
  split.
  { intros hid hh EH NHid GH O. apply in_app_iff. left. unfold to_host.
    assert (EH1 : hostId room1 = Some hid) by exact EH.
    rewrite EH1. cbn [get_opt]. rewrite GH.
    destruct hid; [congruence|]. simpl.
    change (is_open st1 hh) with (is_open st hh). rewrite O. now left. }
  intros id hm GM O. apply in_app_iff. right. apply in_broadcast.
  exists id, hm. split; [now apply get_some_in|]. auto.
Qed.

Lemma member_close_notifies_witness :
  on_close 1 (sock_at 1 hosted_room) hosted_room
  = (viewer_gone_rooms_state, [WsSend 0 (MViewerLeft (js "r1") (js "V"));
                               WsSend 0 (MSystem (js "Bob left."))])
  /\ JsMap.keys (clients (room_at "r1" viewer_gone_rooms_state)) = [js "H"].
Proof.
  assert (E : roomId (sock_at 1 hosted_room) = Some (js "r1"))
    by (vm_compute; reflexivity).
  assert (NE : js "r1" <> []) by (vm_compute; discriminate).
  assert (G : getRoom (js "r1") hosted_room = Some (room_at "r1" hosted_room))
    by (vm_compute; reflexivity).
  assert (NH : hostId (room_at "r1" hosted_room)
               <> Some (clientId (sock_at 1 hosted_room)))
    by (vm_compute; discriminate).
  destruct (@member_close_notifies 1 _ hosted_room _ _ E NE G NH)
    as (A & _).
  split; [|vm_compute; reflexivity].
  vm_compute. reflexivity.
Defined.

(* ================================================================= *)
(** ** Requests outside a room, and errors *)

(** X11. A signal or a chat from a connection that is not in a room is answered
    with "Not in a room", and one whose current room is no longer in the
    store with "Room not found"; the state is unchanged, and the [to] and
    [message] fields are not even read. *)
Theorem relay_requires_room now h ws m st :
  (truthy_id (roomId ws) = false ->
   on_signal h ws m st
   = Some (st, safeSend st (Some h) (MError (js "Not in a room")))
   /\ on_chat now h ws m st
      = Some (st, safeSend st (Some h) (MError (js "Not in a room"))))
  /\ (forall rid,
        roomId ws = Some rid -> rid <> [] -> getRoom rid st = None ->
        on_signal h ws m st
        = Some (st, safeSend st (Some h) (MError (js "Room not found")))
        /\ on_chat now h ws m st
           = Some (st, safeSend st (Some h) (MError (js "Room not found")))).
Proof.
  split.
  - intros F. unfold on_signal, on_chat, current_room. rewrite F. auto.
  - intros rid E NE G. unfold on_signal, on_chat.
    rewrite (current_room_joined ws st E NE), G. auto.
Qed.

Lemma relay_requires_room_witness :
  on_chat 200 0 (sock_at 0 after_unseen_join) (chat_msg "hi")
    after_unseen_join
  = Some (after_unseen_join, [WsSend 0 (MError (js "Not in a room"))])
  /\ on_signal 1 (sock_at 1 host_gone) (signal_msg "H" None) host_gone
     = Some (host_gone, safeSend host_gone (Some 1)
                          (MError (js "Room not found"))).
Proof.
  destruct (@relay_requires_room 200 0 (sock_at 0 after_unseen_join)
              (chat_msg "hi") after_unseen_join) as [A _].
  destruct (@relay_requires_room 200 1 (sock_at 1 host_gone)
              (signal_msg "H" None) host_gone) as [_ B].
  split.
  - destruct A as [_ C]; [vm_compute; reflexivity|].
    rewrite C. vm_compute. reflexivity.
  - apply (B (js "r1")); vm_compute; [reflexivity | discriminate | reflexivity].
Defined.

Ltac effects_of M I :=
  apply some_pair in M; destruct M as [_ ->]; cbn [snd] in I.

Lemma join_room_errors now h ws rid r name st e :
  In e (snd (join_room now h ws rid r name st)) -> is_error e ->
  is_send_to h e.
Proof.
  unfold join_room. destruct (is_empty rid).
  { intros I _. apply in_safeSend in I. destruct I as [-> _].
    eexists; reflexivity. }
  destruct (ensureRoom now rid st) as [room0 st1].
  destruct r.
  - cbn [snd]. rewrite !in_app_iff. intros [I|[I|I]] Er; exfalso; revert Er.
    + revert I. apply not_error_safeSend. discriminate.
    + revert I. apply not_error_broadcast. discriminate.
    + revert I. apply not_error_notify.
  - destruct (host_absent _); cbn [snd].
    + intros I _. apply in_safeSend in I. destruct I as [-> _].
      eexists; reflexivity.
    + rewrite !in_app_iff. intros [I|[I|I]] Er; exfalso; revert Er.
      * revert I. apply not_error_safeSend. discriminate.
      * revert I. apply not_error_safeSend. discriminate.
      * revert I. apply not_error_broadcast. discriminate.
Qed.

(** X12. Whatever the message, an error reply goes to the socket the message
    came from and to no other. *)
Theorem errors_go_to_sender now h ws raw st st' out :
  on_message now h ws raw st = Some (st', out) ->
  forall h' msg, In (WsSend h' (MError msg)) out -> h' = h.
Proof.
  intros M h' msg I.
  assert (K : is_send_to h (WsSend h' (MError msg)) -> h' = h).
  { intros (obj & E). now injection E as ->. }
  apply K. clear K.
  assert (Own : forall s t, In (WsSend h' (MError msg))
                             (safeSend s (Some h) t) ->
                            is_send_to h (WsSend h' (MError msg))).
  { intros s t X. apply in_safeSend in X. destruct X as [X _].
    rewrite X. eexists; reflexivity. }
  assert (Er : is_error (WsSend h' (MError msg))) by (do 2 eexists; reflexivity).
  destruct raw as [| |m]; cbn [on_message] in M; [|discriminate|].
  { effects_of M I. exact (Own _ _ I). }
  unfold dispatch in M.
  destruct (is_str (msg_type m) (js "join")).
  { unfold on_join in M. destruct (join_roomId m) as [rid|]; [|discriminate].
    destruct (join_name m) as [name|]; [|discriminate].
    apply some_pair in M. destruct M as [_ ->].
    eapply join_room_errors; eauto. }
  destruct (is_str (msg_type m) (js "signal")).
  { unfold on_signal in M.
    destruct (current_room ws st) as [[rid [room|]]|e].
    - destruct (signal_target m) as [to|]; [|discriminate].
      destruct (_ || _); effects_of M I.
      + exact (Own _ _ I).
      + exfalso. revert Er. revert I. apply not_error_safeSend. discriminate.
    - effects_of M I. exact (Own _ _ I).
    - effects_of M I. exact (Own _ _ I). }
  destruct (is_str (msg_type m) (js "chat")).
  { unfold on_chat in M.
    destruct (current_room ws st) as [[rid [room|]]|e].
    - destruct (chat_text m) as [text|]; [|discriminate].
      effects_of M I.
      exfalso. revert Er. revert I. apply not_error_broadcast. discriminate.
    - effects_of M I. exact (Own _ _ I).
    - effects_of M I. exact (Own _ _ I). }
  destruct (is_str (msg_type m) (js "leave")).
  { effects_of M I. simpl in I. destruct I as [X|[]]. discriminate. }
  unfold on_unknown in M. destruct (toString (msg_type m)); [|discriminate].
  effects_of M I. exact (Own _ _ I).
Qed.

Lemma errors_go_to_sender_witness :
  on_message 200 1 (sock_at 1 hosted_room) (Parsed (signal_msg "zz" None))
    hosted_room
  = Some (hosted_room, [WsSend 1 (MError (js "Invalid 'to' target"))])
  /\ (forall h' msg,
        In (WsSend h' (MError msg))
           [WsSend 1 (MError (js "Invalid 'to' target"))] ->
        h' = 1).
Proof.
  assert (M : on_message 200 1 (sock_at 1 hosted_room)
                (Parsed (signal_msg "zz" None)) hosted_room
              = Some (hosted_room,
                      [WsSend 1 (MError (js "Invalid 'to' target"))]))
    by (vm_compute; reflexivity).
  split; [exact M|].
  exact (@errors_go_to_sender 200 1 _ _ hosted_room _ _ M).
Defined.

(* ================================================================= *)
(** ** Nothing is sent on a socket that is not open *)

Lemma join_room_sends now h ws rid r name st h' obj :
  sock st h = Some ws ->
  In (WsSend h' obj) (snd (join_room now h ws rid r name st)) ->
  is_open st h' = true.
Proof.
  intros S. unfold join_room. destruct (is_empty rid).
  { cbn [snd]. intros I. now apply send_safeSend in I. }
  pose proof (sockets_ensureRoom now rid st) as SK.
  destruct (ensureRoom now rid st) as [room0 st1]. simpl in SK.
  assert (IO : forall room a b,
    is_open (put_room rid room (set_sock h (set_membership ws a b) st1)) h'
    = is_open st h') by (intros; now apply is_open_membership).
  assert (SS : forall s t o, In (WsSend h' obj) (safeSend s t o) ->
                             is_open s h' = true)
    by (intros s t o I; now apply send_safeSend in I).
  assert (SB : forall s rm o, In (WsSend h' obj) (broadcast s rm o) ->
                              is_open s h' = true)
    by (intros s rm o I; now apply send_broadcast in I).
  assert (SN : forall s rm c, In (WsSend h' obj) (notify_viewers s rm c) ->
                              is_open s h' = true)
    by (intros s rm c I; now apply send_notify in I).
  destruct r.
  - cbn [snd]. rewrite !in_app_iff.
    intros [I|[I|I]]; [apply SS in I|apply SB in I|apply SN in I];
      now rewrite IO in I.
  - destruct (host_absent _); cbn [snd].
    + intros I. apply SS in I. now rewrite IO in I.
    + rewrite !in_app_iff.
      intros [I|[I|I]]; [apply SS in I|apply SS in I|apply SB in I];
        now rewrite IO in I.
Qed.

Lemma on_close_sends h ws st h' obj :
  In (WsSend h' obj) (snd (on_close h ws st)) -> is_open st h' = true.
Proof.
  unfold on_close. destruct (current_room ws st) as [[rid [room|]]|e];
    try (intros []).
  destruct (match hostId (remove_member (clientId ws) room) with
            | Some hid => str_eqb hid (clientId ws)
            | None => false
            end); cbn [snd]; rewrite in_app_iff; intros [I|I].
  - apply send_broadcast in I. apply I.
  - apply in_map_iff in I. destruct I as (x & X & _). discriminate.
  - destruct (_ && _); [|destruct I]. apply send_safeSend in I. apply I.
  - apply send_broadcast in I. apply I.
Qed.

Lemma dispatch_sends now h ws m st st' out h' obj :
  sock st h = Some ws ->
  dispatch now h ws m st = Some (st', out) ->
  In (WsSend h' obj) out -> is_open st h' = true.
Proof.
  intros S M I. unfold dispatch in M.
  destruct (is_str (msg_type m) (js "join")).
  { unfold on_join in M. destruct (join_roomId m) as [rid|]; [|discriminate].
    destruct (join_name m) as [name|]; [|discriminate].
    apply some_pair in M. destruct M as [_ ->].
    eapply join_room_sends; eauto. }
  destruct (is_str (msg_type m) (js "signal")).
  { unfold on_signal in M.
    destruct (current_room ws st) as [[rid [room|]]|e].
    - destruct (signal_target m) as [to|]; [|discriminate].
      destruct (_ || _); effects_of M I; now apply send_safeSend in I.
    - effects_of M I. now apply send_safeSend in I.
    - effects_of M I. now apply send_safeSend in I. }
  destruct (is_str (msg_type m) (js "chat")).
  { unfold on_chat in M.
    destruct (current_room ws st) as [[rid [room|]]|e].
    - destruct (chat_text m) as [text|]; [|discriminate].
      effects_of M I. apply send_broadcast in I. apply I.
    - effects_of M I. now apply send_safeSend in I.
    - effects_of M I. now apply send_safeSend in I. }
  destruct (is_str (msg_type m) (js "leave")).
  { effects_of M I. simpl in I. destruct I as [X|[]]. discriminate. }
  unfold on_unknown in M. destruct (toString (msg_type m)); [|discriminate].
  effects_of M I. now apply send_safeSend in I.
Qed.

Lemma sweep_fold_calls hs : forall acc e,
  In e (snd (fold_left sweep_one hs acc)) ->
  In e (snd acc)
  \/ exists h, In h hs /\ (e = WsPing h \/ e = WsTerminate h).
Proof.
  induction hs as [|h hs IH]; intros acc e I; simpl in I; auto.
  apply IH in I. destruct I as [I|(h0 & I0 & E)].
  - destruct acc as [s out]. simpl in *.
    destruct (sock s h) as [w|]; auto.
    destruct (isAlive w); simpl in I; apply in_app_iff in I;
      (destruct I as [I|[<-|[]]]; [auto | right; exists h; simpl; auto]).
  - right. exists h0. simpl. auto.
Qed.

(** X13. In every step, a message is sent only on a socket that was open when
    the step began, and never on the socket whose close event is being
    handled; the one exception is the hello sent on the socket a connection
    event has just created. *)
Theorem sends_only_to_open st e st' out h' obj :
  step st e = Some (st', out) ->
  In (WsSend h' obj) out ->
  (is_open st h' = true /\ e <> Closed h')
  \/ (exists uuid, e = Connect uuid /\ obj = MHello uuid
                   /\ h' = List.length (sockets st)).
Proof.
  intros St I. destruct e as [uuid|h raw now|h|h|].
  - right. rewrite step_connect in St. effects_of St I.
    unfold on_connection in I. cbn [snd] in I.
    apply send_safeSend in I. destruct I as (E & -> & _).
    injection E as <-. eauto.
  - left. split; [|discriminate]. simpl in St.
    destruct (sock st h) as [w|] eqn:S; [|discriminate].
    assert (M : on_message now h w raw st = Some (st', out))
      by (destruct (readyState w); congruence).
    destruct raw as [| |m]; cbn [on_message] in M; try discriminate.
    + effects_of M I. now apply send_safeSend in I.
    + eapply dispatch_sends; eauto.
  - exfalso. simpl in St.
    destruct (sock st h) as [w|]; [|discriminate].
    destruct (readyState w); try discriminate;
      apply some_pair in St; destruct St as [_ ->]; destruct I.
  - left. apply step_closed_inv in St. destruct St as (w0 & S0 & _ & E).
    apply (f_equal snd) in E. cbn [snd] in E. subst out.
    apply on_close_sends in I.
    unfold is_open, sock in *; simpl in *.
    destruct (Nat.eq_dec h h') as [<-|N].
    + rewrite (nth_error_list_upd_same _ _ _ S0) in I. discriminate.
    + rewrite nth_error_list_upd_other in I by auto.
      split; [exact I | congruence].
  - exfalso. rewrite step_tick in St. effects_of St I.
    apply (sweep_fold_calls (wss_clients st) (st, [])) in I.
    destruct I as [[]|(h0 & _ & [E|E])]; discriminate.
Qed.

Lemma sends_only_to_open_witness :
  step hosted_room (Closed 0)
  = Some (host_gone,
          [WsSend 1 (MHostLeft (js "r1") (js "Host left. Room closed."));
           WsClose 1])
  /\ is_open hosted_room 1 = true
  /\ is_open host_gone 1 = false.
Proof.
  assert (St : step hosted_room (Closed 0)
               = Some (host_gone,
                       [WsSend 1 (MHostLeft (js "r1")
                                    (js "Host left. Room closed."));
                        WsClose 1])) by (vm_compute; reflexivity).
  split; [exact St|].
  destruct (@sends_only_to_open hosted_room (Closed 0) host_gone _ 1
              (MHostLeft (js "r1") (js "Host left. Room closed.")) St)
    as [[O _]|(u & E & _)].
  - left. reflexivity.
  - split; [exact O | vm_compute; reflexivity].
  - discriminate.
Defined.

(* ================================================================= *)
(** ** Keepalive: what a sweep does and does not do *)

Lemma sweep_fold_targets hs : forall acc,
  (forall h, In h hs -> sock (fst acc) h <> None) ->
  map call_target (snd (fold_left sweep_one hs acc))
  = map call_target (snd acc) ++ hs.
Proof.
  induction hs as [|h hs IH]; intros acc A; simpl.
  - now rewrite app_nil_r.
  - rewrite IH.
    + destruct acc as [st out]. simpl.
      specialize (A h (or_introl eq_refl)). simpl in A.
      destruct (sock st h) as [w|]; [|congruence].
      destruct (isAlive w); cbn [snd]; rewrite map_app, <- app_assoc;
        reflexivity.
    + intros h' I.
      destruct (evolves_sweep_fold [h] acc) as [_ K]. simpl in K.
      specialize (A h' (or_intror I)).
      destruct (sock (fst acc) h') as [w'|] eqn:S; [|congruence].
      destruct (K _ _ S) as (w2 & S2 & _). congruence.
Qed.

(** X14. In a reachable state a sweep makes exactly one call for each
    registered socket, in the order of the registry, each of them a ping or
    a terminate; it sends no message, leaves every room as it was and
    removes no socket from the registry. *)
Theorem sweep_calls st :
  reachable st ->
  map call_target (snd (sweep st)) = wss_clients st
  /\ Forall (fun e => exists h, e = WsPing h \/ e = WsTerminate h)
            (snd (sweep st))
  /\ rooms (fst (sweep st)) = rooms st
  /\ wss_clients (fst (sweep st)) = wss_clients st.
Proof.
  intros Re. destruct (reachable_registry_ok Re) as [_ A].
  split; [|split; [|split]].
  - unfold sweep. rewrite sweep_fold_targets; [reflexivity|].
    intros h I. destruct (A _ I) as (w & S & _). simpl. congruence.
  - apply Forall_forall. intros e I.
    apply (sweep_fold_calls (wss_clients st) (st, [])) in I.
    destruct I as [[]|(h & _ & E)]. eauto.
  - apply (rooms_sweep_fold (wss_clients st) (st, [])).
  - apply wss_clients_sweep.
Qed.

Lemma sweep_calls_witness :
  map call_target (snd (sweep hosted_room)) = [0; 1]
  /\ rooms swept = rooms hosted_room.
Proof.
  assert (Re : reachable hosted_room).
  { exists hosted_room_events. eexists. vm_compute. reflexivity. }
  destruct (@sweep_calls hosted_room Re) as (A & _ & B & _).
  split; [exact A | exact B].
Defined.

Lemma event_eq_pong (e : event) h : e = Pong h \/ e <> Pong h.
Proof.
  destruct e as [u|h0 raw now|h0|h0|]; try (right; discriminate).
  destruct (Nat.eq_dec h0 h) as [->|N]; [now left | right; congruence].
Qed.

Lemma step_undisturbed st e st' out h w :
  step st e = Some (st', out) -> undisturbed h e ->
  In h (wss_clients st) -> sock st h = Some w -> isAlive w = true ->
  In h (wss_clients st')
  /\ exists w', sock st' h = Some w' /\ isAlive w' = true.
Proof.
  intros St [NC NT] I S AL.
  destruct (event_eq_pong e h) as [->|NP].
  - apply step_pong_inv in St. destruct St as (w0 & S0 & _ & ->).
    split; [exact I|]. exists (set_isAlive w0 true). split; [|reflexivity].
    unfold sock; simpl. apply (nth_error_list_upd_same _ _ _ S0).
  - destruct (@step_quiet st e st' out h w St) as (I' & w' & S' & A'); auto.
    + repeat split; auto.
    + split; auto. exists w'. split; congruence.
Qed.

Lemma run_undisturbed evs : forall st st' out h w,
  run st evs = Some (st', out) -> Forall (undisturbed h) evs ->
  In h (wss_clients st) -> sock st h = Some w -> isAlive w = true ->
  In h (wss_clients st')
  /\ exists w', sock st' h = Some w' /\ isAlive w' = true.
Proof.
  induction evs as [|e evs IH]; intros st st' out h w Rn Q I S AL;
    simpl in Rn.
  - injection Rn as <- _. eauto.
  - inversion Q as [|? ? Qe Qs]; subst.
    destruct (step st e) as [[st1 out1]|] eqn:St; [|discriminate].
    destruct (run st1 evs) as [[st2 out2]|] eqn:R1; [|discriminate].
    injection Rn as <- _.
    destruct (step_undisturbed _ St Qe I S AL) as (I1 & w1 & S1 & A1).
    apply (IH _ _ _ _ _ R1 Qs I1 S1 A1).
Qed.

(** X15. A pong keeps its socket: when a registered socket's pong has been
    handled, and neither its close event nor a sweep came since, the next
    sweep pings the socket and does not terminate it, whatever the flag was
    before the pong. *)
Theorem pong_keeps_alive st h st1 out1 evs st2 out2 :
  reachable st -> In h (wss_clients st) ->
  step st (Pong h) = Some (st1, out1) ->
  run st1 evs = Some (st2, out2) -> Forall (undisturbed h) evs ->
  out1 = []
  /\ In (WsPing h) (snd (sweep st2))
  /\ ~ In (WsTerminate h) (snd (sweep st2))
  /\ In h (wss_clients (fst (sweep st2))).
Proof.
  intros Re I St Rn Q.
  assert (O : out1 = []).
  { simpl in St. destruct (sock st h) as [w|]; [|discriminate].
    destruct (readyState w); try discriminate;
      apply some_pair in St; now destruct St as [_ ->]. }
  split; [exact O|].
  assert (Re1 : reachable st1) by (eapply reachable_step; eauto).
  assert (Re2 : reachable st2) by (eapply reachable_run; eauto).
  pose proof St as P. apply step_pong_inv in P.
  destruct P as (w0 & S0 & _ & E1).
  assert (S1 : sock st1 h = Some (set_isAlive w0 true)).
  { subst st1. unfold sock; simpl.
    apply (nth_error_list_upd_same _ _ _ S0). }
  assert (I1 : In h (wss_clients st1)) by (subst st1; exact I).
  destruct (@run_undisturbed _ _ _ _ _ _ Rn Q I1 S1 eq_refl)
    as (I2 & w2 & S2 & A2).
  destruct (reachable_registry_ok Re2) as [ND _].
  assert (NoEff : forall e, about h e -> ~ In e (@nil effect))
    by (intros e _ []).
  pose proof (@sweep_fold_present h w2 (wss_clients st2) (st2, []) ND I2 S2
                NoEff) as SW.
  cbn zeta in SW. fold (sweep st2) in SW. rewrite A2 in SW.
  destruct SW as (_ & P1 & P2).
  repeat split; auto. now rewrite wss_clients_sweep.
Qed.

Lemma pong_keeps_alive_witness :
  alive swept 1 = Some false
  /\ In (WsPing 1) (snd (sweep answered))
  /\ ~ In (WsTerminate 1) (snd (sweep answered)).
Proof.
  assert (Re : reachable swept).
  { exists (hosted_room_events ++ [Tick]). eexists. vm_compute. reflexivity. }
  assert (I : In 1 (wss_clients swept))
    by (vm_compute; right; left; reflexivity).
  assert (St : step swept (Pong 1)
               = Some (final (step swept (Pong 1)), []))
    by (vm_compute; reflexivity).
  assert (Rn : run (final (step swept (Pong 1))) answered_events
               = Some (answered,
                       trace (run (final (step swept (Pong 1)))
                                answered_events)))
    by (vm_compute; reflexivity).
  assert (Q : Forall (undisturbed 1) answered_events)
    by (repeat constructor; discriminate).
  destruct (@pong_keeps_alive swept 1 _ _ answered_events _ _ Re I St Rn Q)
    as (_ & A & B & _).
  split; [vm_compute; reflexivity|]. split; [exact A | exact B].
Defined.

(* ================================================================= *)
(** ** Connection identifiers *)

Lemma ids_dispatch now h ws m st st' out :
  sock st h = Some ws ->
  dispatch now h ws m st = Some (st', out) -> ids st' = ids st.
Proof.
  intros S M. unfold dispatch in M.
  destruct (is_str (msg_type m) (js "join")).
  { unfold on_join in M. destruct (join_roomId m) as [rid|]; [|discriminate].
    destruct (join_name m) as [name|]; [|discriminate].
    apply some_pair in M. destruct M as [-> _]. now apply ids_join_room. }
  destruct (is_str (msg_type m) (js "signal")).
  { unfold on_signal in M.
    destruct (current_room ws st) as [[rid [room|]]|e];
      [destruct (signal_target m) as [to|]; [|discriminate];
       destruct (_ || _)| |];
      apply some_pair in M; now destruct M as [-> _]. }
  destruct (is_str (msg_type m) (js "chat")).
  { unfold on_chat in M.
    destruct (current_room ws st) as [[rid [room|]]|e];
      [destruct (chat_text m) as [text|]; [|discriminate]| |];
      apply some_pair in M; now destruct M as [-> _]. }
  destruct (is_str (msg_type m) (js "leave")).
  { apply some_pair in M. destruct M as [-> _]. apply ids_lib_close. }
  unfold on_unknown in M. destruct (toString (msg_type m)); [|discriminate].
  apply some_pair in M. now destruct M as [-> _].
Qed.

Lemma ids_step st e st' out :
  step st e = Some (st', out) -> ids st' = ids st ++ uuids [e].
Proof.
  intros St. destruct e as [uuid|h raw now|h|h|]; simpl uuids;
    rewrite ?app_nil_r.
  - rewrite step_connect in St. apply some_pair in St. destruct St as [-> _].
    unfold ids, on_connection. cbn [fst sockets]. now rewrite map_app.
  - simpl in St. destruct (sock st h) as [w|] eqn:S; [|discriminate].
    assert (M : on_message now h w raw st = Some (st', out))
      by (destruct (readyState w); congruence).
    destruct raw as [| |m]; cbn [on_message] in M; try discriminate.
    + apply some_pair in M. now destruct M as [-> _].
    + eapply ids_dispatch; eauto.
  - apply step_pong_inv in St. destruct St as (w0 & S0 & _ & ->).
    apply (@ids_set_sock st h (set_isAlive w0 true) w0 S0 eq_refl).
  - apply step_closed_inv in St. destruct St as (w0 & S0 & _ & E).
    apply (f_equal fst) in E. cbn [fst] in E. subst st'.
    rewrite ids_on_close.
    apply (@ids_set_sock st h (set_readyState w0 CLOSED) w0 S0 eq_refl).
  - rewrite step_tick in St. apply some_pair in St. destruct St as [-> _].
    apply ids_sweep.
Qed.

(** X16. The identifier of a connection is the one drawn when it connected
    and never changes: along any run the identifiers of the sockets, in
    handle order, are those there were followed by the identifiers of the
    connection events of the run. *)
Theorem client_ids_fixed evs : forall st st' out,
  run st evs = Some (st', out) -> ids st' = ids st ++ uuids evs.
Proof.
  induction evs as [|e evs IH]; intros st st' out Rn; simpl in Rn.
  - injection Rn as <- _. simpl. now rewrite app_nil_r.
  - destruct (step st e) as [[st1 out1]|] eqn:St; [|discriminate].
    destruct (run st1 evs) as [[st2 out2]|] eqn:R1; [|discriminate].
    injection Rn as <- _.
    rewrite (IH _ _ _ R1), (ids_step _ _ St).
    assert (U : uuids (e :: evs) = uuids [e] ++ uuids evs)
      by (unfold uuids; simpl; now rewrite app_nil_r).
    now rewrite U, app_assoc.
Qed.

Lemma client_ids_fixed_witness :
  ids takeover = uuids takeover_events.
Proof.
  assert (Rn : run init takeover_events
               = Some (takeover, trace (run init takeover_events)))
    by (vm_compute; reflexivity).
  exact (@client_ids_fixed takeover_events init takeover _ Rn).
Defined.

(* ================================================================= *)
(** ** Leaving *)

Lemma list_upd_twice (A : Type) (l : list A) n x y :
  list_upd n y (list_upd n x l) = list_upd n y l.
Proof.
  revert n. induction l as [|a l IH]; intros [|n]; simpl; auto.
  now rewrite IH.
Qed.

Lemma set_sock_twice h w1 w2 st :
  set_sock h w2 (set_sock h w1 st) = set_sock h w2 st.
Proof. unfold set_sock; simpl. now rewrite list_upd_twice. Qed.

Lemma is_str_leave v :
  is_str v (js "leave") = true ->
  is_str v (js "join") = false /\ is_str v (js "signal") = false
  /\ is_str v (js "chat") = false.
Proof.
  destruct v as [| |b|s|b r]; simpl; try discriminate.
  intros E. apply str_eqb_eq in E. subst s. repeat split; reflexivity.
Qed.

(** X17. A leave message only calls [close()] on the sender's socket: it
    sends nothing, changes no room, and leaves the socket not open.  The
    teardown of the membership is left to the close event, which then does
    exactly what it would have done without the leave message. *)
Theorem leave_then_close st h m now st1 out1 :
  is_str (msg_type m) (js "leave") = true ->
  step st (Message h (Parsed m) now) = Some (st1, out1) ->
  out1 = [WsClose h]
  /\ rooms st1 = rooms st
  /\ is_open st1 h = false
  /\ step st1 (Closed h) = step st (Closed h).
Proof.
  intros L St. destruct (is_str_leave _ L) as (J & Sg & C).
  simpl in St. destruct (sock st h) as [w|] eqn:S; [|discriminate].
  assert (M : readyState w <> CLOSED
              /\ Some (on_leave h st) = Some (st1, out1)).
  { unfold dispatch in St. rewrite J, Sg, C, L in St.
    destruct (readyState w); split; congruence. }
  destruct M as [NC M]. apply some_pair in M. destruct M as [-> ->].
  unfold on_leave. cbn [fst snd].
  split; [reflexivity|]. unfold lib_close. rewrite S.
  destruct (readyState w) eqn:RS; [| |congruence].
  - repeat split.
    + unfold is_open, sock; simpl.
      now rewrite (nth_error_list_upd_same _ _ _ S).
    + simpl. unfold sock at 1; simpl.
      rewrite (nth_error_list_upd_same _ _ _ S), S, RS. simpl.
      unfold close_event. rewrite set_sock_twice. reflexivity.
  - repeat split. unfold is_open. now rewrite S, RS.
Qed.

Lemma leave_then_close_witness :
  rooms leaving = rooms hosted_room
  /\ step leaving (Closed 1) = step hosted_room (Closed 1).
Proof.
  assert (L : is_str (msg_type leave_msg) (js "leave") = true)
    by reflexivity.
  assert (St : step hosted_room (Message 1 (Parsed leave_msg) 300)
               = Some (leaving, [WsClose 1])) by (vm_compute; reflexivity).
  destruct (@leave_then_close hosted_room 1 leave_msg 300 _ _ L St)
    as (_ & A & _ & B).
  split; [exact A | exact B].
Defined.

(* ================================================================= *)
(** ** The close event of a host *)

Lemma is_open_lib_close h' st h :
  is_open (lib_close h' st) h = is_open st h && negb (Nat.eqb h' h).
Proof.
  unfold lib_close. destruct (sock st h') as [w|] eqn:S.
  - destruct (readyState w) eqn:RS.
    + unfold is_open, sock in *; simpl.
      destruct (Nat.eq_dec h' h) as [<-|N].
      * rewrite (nth_error_list_upd_same _ _ _ S), Nat.eqb_refl. simpl.
        now rewrite andb_false_r.
      * rewrite nth_error_list_upd_other by auto.
        apply Nat.eqb_neq in N. rewrite N. now rewrite andb_true_r.
    + destruct (Nat.eqb h' h) eqn:E; [|now rewrite andb_true_r].
      apply Nat.eqb_eq in E. subst h'. unfold is_open. now rewrite S, RS.
    + destruct (Nat.eqb h' h) eqn:E; [|now rewrite andb_true_r].
      apply Nat.eqb_eq in E. subst h'. unfold is_open. now rewrite S, RS.
  - destruct (Nat.eqb h' h) eqn:E; [|now rewrite andb_true_r].
    apply Nat.eqb_eq in E. subst h'. unfold is_open. now rewrite S.
Qed.

Lemma is_open_close_all hs : forall st h,
  In h hs -> is_open (close_all hs st) h = false.
Proof.
  unfold close_all.
  assert (K : forall hs st h, is_open st h = false ->
                is_open (fold_left (fun s h' => lib_close h' s) hs st) h
                = false).
  { clear. induction hs as [|h0 hs IH]; intros st h E; simpl; auto.
    apply IH. now rewrite is_open_lib_close, E. }
  induction hs as [|h0 hs IH]; intros st h I; [destruct I|].
  destruct I as [E|I]; simpl.
  - subst h0. apply K. rewrite is_open_lib_close, Nat.eqb_refl.
    apply andb_false_r.
  - now apply IH.
Qed.

(** X18. The close event of a socket whose current room still names it as
    host, in a reachable state: the room is gone from the store afterwards
    and the other rooms are as they were; [close()] is called on the socket
    of every other member, none of which is open afterwards; and each of
    them that was open is sent the host_left notice. *)
Theorem host_close_event st h ws rid room st' out :
  reachable st ->
  sock st h = Some ws -> roomId ws = Some rid ->
  getRoom rid st = Some room -> hostId room = Some (clientId ws) ->
  step st (Closed h) = Some (st', out) ->
  getRoom rid st' = None
  /\ (forall rid', rid' <> rid -> getRoom rid' st' = getRoom rid' st)
  /\ forall id hm,
       In (id, hm) (clients room) -> id <> clientId ws ->
       In (WsClose hm) out
       /\ is_open st' hm = false
       /\ (is_open st hm = true -> hm <> h ->
           In (WsSend hm (MHostLeft rid (js "Host left. Room closed.")))
              out).
Proof.
  intros Re S E G Hh St.
  pose proof (@store_ok_get _ _ _ (reachable_store_ok Re) G) as (_ & NE & _).
  apply step_closed_inv in St. destruct St as (w0 & S0 & _ & Eq).
  assert (w0 = ws) by congruence. subst w0.
  set (w' := set_readyState ws CLOSED) in *.
  set (st0 := deregister h (set_sock h w' st)) in *.
  assert (E0 : roomId w' = Some rid) by exact E.
  assert (G0 : getRoom rid st0 = Some room) by exact G.
  assert (H0 : hostId room = Some (clientId w')) by exact Hh.
  destruct (@host_close_cascade h w' st0 rid room E0 NE G0 H0)
    as (A & B & C).
  assert (F : st' = fst (on_close h w' st0)) by now rewrite <- Eq.
  assert (O : out = snd (on_close h w' st0)) by now rewrite <- Eq.
  split; [now rewrite F|]. split.
  - intros rid' N. rewrite F. unfold on_close.
    rewrite (current_room_joined w' st0 E0 NE), G0.
    cbn [hostId remove_member]. rewrite H0, str_eqb_refl. cbn [fst].
    unfold getRoom, deleteRoom; simpl. rewrite rooms_close_all. simpl.
    rewrite get_delete_other by congruence.
    now rewrite get_set_other by congruence.
  - intros id hm I N. destruct (C id hm I N) as [C1 C2].
    split; [now rewrite O|]. split.
    + rewrite F. unfold on_close.
      rewrite (current_room_joined w' st0 E0 NE), G0.
      cbn [hostId remove_member]. rewrite H0, str_eqb_refl. cbn [fst].
      change (is_open (close_all
                (JsMap.values (JsMap.delete (clientId w') (clients room)))
                (put_room rid (remove_member (clientId w') room) st0)) hm
              = false).
      apply is_open_close_all. unfold JsMap.values.
      change hm with (snd (id, hm)). apply in_map. apply in_delete. auto.
    + intros Op Nh. rewrite O. apply C2.
      unfold is_open, sock in *; simpl.
      now rewrite nth_error_list_upd_other by congruence.
Qed.

Lemma host_close_event_witness :
  getRoom (js "r1") host_gone = None
  /\ is_open host_gone 1 = false
  /\ In (WsSend 1 (MHostLeft (js "r1") (js "Host left. Room closed.")))
        (snd (close_event 0 (sock_at 0 hosted_room) hosted_room)).
Proof.
  assert (Re : reachable hosted_room).
  { exists hosted_room_events. eexists. vm_compute. reflexivity. }
  assert (S : sock hosted_room 0 = Some (sock_at 0 hosted_room))
    by (vm_compute; reflexivity).
  assert (E : roomId (sock_at 0 hosted_room) = Some (js "r1"))
    by (vm_compute; reflexivity).
  assert (G : getRoom (js "r1") hosted_room = Some (room_at "r1" hosted_room))
    by (vm_compute; reflexivity).
  assert (Hh : hostId (room_at "r1" hosted_room)
               = Some (clientId (sock_at 0 hosted_room)))
    by (vm_compute; reflexivity).
  assert (St : step hosted_room (Closed 0)
               = Some (host_gone,
                       snd (close_event 0 (sock_at 0 hosted_room)
                              hosted_room)))
    by (vm_compute; reflexivity).
  destruct (@host_close_event hosted_room 0 _ _ _ _ _ Re S E G Hh St)
    as (A & _ & B).
  assert (I : In (js "V", 1) (clients (room_at "r1" hosted_room)))
    by (vm_compute; right; left; reflexivity).
  assert (N : js "V" <> clientId (sock_at 0 hosted_room))
    by (vm_compute; discriminate).
  destruct (B _ _ I N) as (_ & B2 & B3).
  split; [exact A|]. split; [exact B2|].
  apply B3; [vm_compute; reflexivity | discriminate].
Defined.

(* ================================================================= *)
(** ** The room store *)

Lemma set_absent (V : Type) k (v : V) m :
  JsMap.get k m = None -> JsMap.set k v m = m ++ [(k, v)].
Proof.
  induction m as [|[k' v'] m IH]; simpl; auto.
  destruct (str_eqb k k'); [discriminate|]. intros G. now rewrite IH.
Qed.

Lemma delete_absent (V : Type) k (m : JsMap.t V) :
  JsMap.get k m = None -> JsMap.delete k m = m.
Proof.
  induction m as [|[k' v'] m IH]; simpl; auto.
  destruct (str_eqb k k'); [discriminate|]. simpl. intros G. now rewrite IH.
Qed.

(** X19. [ensureRoom] returns the room that [getRoom] then finds under the
    identifier; a second call returns that same room and creates nothing
    (the creation time is that of the first call); no other identifier is
    affected; and when the identifier was not in the store, the room made is
    the last entry of the store, has no host and no member, and [deleteRoom]
    puts the store back as it was. *)
Theorem ensureRoom_round_trip now rid st :
  getRoom rid (snd (ensureRoom now rid st)) = Some (fst (ensureRoom now rid st))
  /\ (forall now',
        ensureRoom now' rid (snd (ensureRoom now rid st))
        = ensureRoom now rid st)
  /\ (forall rid', rid' <> rid ->
        getRoom rid' (snd (ensureRoom now rid st)) = getRoom rid' st)
  /\ (getRoom rid st = None ->
        rooms (snd (ensureRoom now rid st))
        = rooms st
          ++ [(rid, mkRoom rid None JsMap.empty JsMap.empty JsMap.empty now)]
        /\ deleteRoom rid (snd (ensureRoom now rid st)) = st).
Proof.
  unfold ensureRoom, getRoom.
  destruct (JsMap.get rid (rooms st)) as [room|] eqn:G; cbn [fst snd].
  - split; [exact G|]. split; [intros; now rewrite G|].
    split; [reflexivity | discriminate].
  - split; [simpl; apply get_set_same|].
    split; [intros now'; simpl; now rewrite get_set_same|].
    split; [intros rid' N; simpl; now apply get_set_other|].
    intros _. split; [simpl; now apply set_absent|].
    unfold deleteRoom, put_room, set_rooms; simpl.
    rewrite delete_set_same, (delete_absent _ _ G). now destruct st.
Qed.

Lemma ensureRoom_round_trip_witness :
  getRoom (js "zz") hosted_room = None
  /\ deleteRoom (js "zz") (snd (ensureRoom 7 (js "zz") hosted_room))
     = hosted_room.
Proof.
  assert (G : getRoom (js "zz") hosted_room = None)
    by (vm_compute; reflexivity).
  destruct (@ensureRoom_round_trip 7 (js "zz") hosted_room)
    as (_ & _ & _ & A).
  split; [exact G | exact (proj2 (A G))].
Defined.

(* ================================================================= *)
(** ** Room identifiers made by the server *)

Lemma is_hex_cases c :
  is_hex c = true ->
  In c [48; 49; 50; 51; 52; 53; 54; 55; 56; 57; 97; 98; 99; 100; 101; 102]%N.
Proof.
  unfold is_hex. rewrite orb_true_iff, !andb_true_iff, !N.leb_le. simpl.
  lia.
Qed.

Lemma is_hex_plain c : is_hex c = true -> is_ws c = false /\ N.eqb c 45 = false.
Proof.
  intros H. apply is_hex_cases in H. simpl in H.
  repeat (destruct H as [<-|H]; [split; reflexivity|]). destruct H.
Qed.

Lemma first_segment_hex seg rest :
  forallb is_hex seg = true -> first_segment (seg ++ 45%N :: rest) = seg.
Proof.
  induction seg as [|c seg IH]; simpl; auto.
  rewrite andb_true_iff. intros [H F].
  destruct (is_hex_plain _ H) as [_ ->]. now rewrite IH.
Qed.

Lemma trim_plain s : forallb (fun c => negb (is_ws c)) s = true -> trim s = s.
Proof.
  intros F. rewrite forallb_forall in F. unfold trim.
  assert (A : trim_start s = s).
  { apply trim_start_fixed. intros c t ->.
    apply negb_true_iff, F. now left. }
  rewrite A.
  assert (B : trim_start (rev s) = rev s).
  { apply trim_start_fixed. intros c t E.
    apply negb_true_iff, F, in_rev. rewrite E. now left. }
  rewrite B. apply rev_involutive.
Qed.

(** X20. [/api/new-room] answers with the first group of the [uuidv4()] it
    draws.  When that group is a non-empty run of hexadecimal digits, as it
    is for a UUID, a join that names it keeps it as it is (nothing is
    trimmed away); with role host and a [name] field that converts to a
    string, the join is accepted whatever the state, no error being sent;
    when the conversion of [name] throws, the handler throws. *)
Theorem new_room_joinable seg rest m :
  seg <> [] -> forallb is_hex seg = true ->
  msg_roomId m = JStr (new_room (seg ++ 45%N :: rest)) ->
  is_str (msg_role m) (js "host") = true ->
  new_room (seg ++ 45%N :: rest) = seg
  /\ forall now h ws st,
       on_join now h ws m st
       = match join_name m with
         | Some name => Some (join_room now h ws seg Host name st)
         | None => None
         end
       /\ forall name e,
            In e (snd (join_room now h ws seg Host name st)) ->
            ~ is_error e.
Proof.
  intros NE F R Ro.
  assert (E : new_room (seg ++ 45%N :: rest) = seg)
    by now apply first_segment_hex.
  split; [exact E|]. intros now h ws st.
  assert (T : trim seg = seg).
  { apply trim_plain. rewrite forallb_forall in *. intros c I.
    destruct (is_hex_plain _ (F _ I)) as [W _]. now rewrite W. }
  split.
  - unfold on_join, join_roomId, string_or_empty, join_role.
    rewrite R, E, Ro. simpl.
    destruct seg; [congruence|]. simpl. now rewrite T.
  - intros name e I Er.
    destruct (join_room_accepts now h ws seg Host name st) as [A _].
    destruct (A e I Er) as [X|[X _]]; congruence.
Qed.

Lemma new_room_joinable_witness :
  new_room sample_uuid = js "3f2a9c1e"
  /\ on_join 100 0 (sock_at 0 host_only) new_room_join host_only
     = Some (join_room 100 0 (sock_at 0 host_only) (js "3f2a9c1e") Host
               (js "Host") host_only).
Proof.
  assert (NE : js "3f2a9c1e" <> []) by (vm_compute; discriminate).
  assert (F : forallb is_hex (js "3f2a9c1e") = true)
    by (vm_compute; reflexivity).
  assert (R : msg_roomId new_room_join
              = JStr (new_room (js "3f2a9c1e" ++ 45%N
                                  :: js "7b2d-4c1a-9e0f-5a6b7c8d9e0f")))
    by (vm_compute; reflexivity).
  assert (Ro : is_str (msg_role new_room_join) (js "host") = true)
    by (vm_compute; reflexivity).
  destruct (@new_room_joinable _ _ _ NE F R Ro) as [A B].
  split; [exact A|].
  exact (proj1 (B 100%Z 0 (sock_at 0 host_only) host_only)).
Defined.

(* ================================================================= *)
(** ** Escaping in the page *)

Lemma escape_text_app a b :
  escape_text (a ++ b) = escape_text a ++ escape_text b.
Proof. unfold escape_text, replaceAll. now rewrite !flat_map_app. Qed.

Lemma escape_text_unit c : escape_text [c] = escape_unit c.
Proof.
  unfold escape_unit.
  destruct (N.eqb c 38) eqn:E1; [apply N.eqb_eq in E1; now subst|].
  destruct (N.eqb c 60) eqn:E2; [apply N.eqb_eq in E2; now subst|].
  destruct (N.eqb c 62) eqn:E3; [apply N.eqb_eq in E3; now subst|].
  destruct (N.eqb c 34) eqn:E4; [apply N.eqb_eq in E4; now subst|].
  destruct (N.eqb c 39) eqn:E5; [apply N.eqb_eq in E5; now subst|].
  unfold escape_text, replaceAll. simpl.
  rewrite E1. simpl. rewrite E2. simpl. rewrite E3. simpl.
  rewrite E4. simpl. now rewrite E5.
Qed.

Lemma escape_text_units s : escape_text s = flat_map escape_unit s.
Proof.
  induction s as [|c s IH]; [reflexivity|].
  change (c :: s) with ([c] ++ s).
  now rewrite escape_text_app, escape_text_unit, IH.
Qed.

Lemma escape_unit_delimiter c x : In x (escape_unit c) -> delimiter x = false.
Proof.
  unfold escape_unit.
  destruct (N.eqb c 38) eqn:E1;
    [simpl; intros I; repeat (destruct I as [<-|I]; [reflexivity|]);
     destruct I|].
  destruct (N.eqb c 60) eqn:E2;
    [simpl; intros I; repeat (destruct I as [<-|I]; [reflexivity|]);
     destruct I|].
  destruct (N.eqb c 62) eqn:E3;
    [simpl; intros I; repeat (destruct I as [<-|I]; [reflexivity|]);
     destruct I|].
  destruct (N.eqb c 34) eqn:E4;
    [simpl; intros I; repeat (destruct I as [<-|I]; [reflexivity|]);
     destruct I|].
  destruct (N.eqb c 39) eqn:E5;
    [simpl; intros I; repeat (destruct I as [<-|I]; [reflexivity|]);
     destruct I|].
  intros [<-|[]]. unfold delimiter. now rewrite E2, E3, E4, E5.
Qed.

Lemma escape_unit_plain c : markup_unit c = false -> escape_unit c = [c].
Proof.
  unfold markup_unit, escape_unit. rewrite !orb_false_iff.
  intros ((((-> & ->) & ->) & ->) & ->). reflexivity.
Qed.

Lemma escape_units_plain s :
  existsb markup_unit s = false -> flat_map escape_unit s = s.
Proof.
  induction s as [|c s IH]; simpl; auto.
  rewrite orb_false_iff. intros [M F].
  now rewrite (escape_unit_plain _ M), IH.
Qed.

(** What [escape_unit] makes starts with [&] exactly for a special code
    unit, and the code unit after the [&] tells which one it was. *)
Lemma escape_unit_shape c :
  (markup_unit c = false /\ escape_unit c = [c] /\ c <> 38%N)
  \/ (exists t, escape_unit c = 38%N :: t
                /\ In (c, t) [(38, js "amp;"); (60, js "lt;"); (62, js "gt;");
                              (34, js "quot;"); (39, js "#039;")]%N).
Proof.
  unfold escape_unit, markup_unit.
  destruct (N.eqb c 38) eqn:E1.
  { apply N.eqb_eq in E1. subst. right. eexists. split; [reflexivity|].
    simpl. auto. }
  destruct (N.eqb c 60) eqn:E2.
  { apply N.eqb_eq in E2. subst. right. eexists. split; [reflexivity|].
    simpl. auto. }
  destruct (N.eqb c 62) eqn:E3.
  { apply N.eqb_eq in E3. subst. right. eexists. split; [reflexivity|].
    simpl. auto. }
  destruct (N.eqb c 34) eqn:E4.
  { apply N.eqb_eq in E4. subst. right. eexists. split; [reflexivity|].
    simpl. auto. }
  destruct (N.eqb c 39) eqn:E5.
  { apply N.eqb_eq in E5. subst. right. eexists. split; [reflexivity|].
    simpl. auto 6. }
  left. repeat split. now apply N.eqb_neq.
Qed.

Lemma escape_units_injective a : forall b,
  flat_map escape_unit a = flat_map escape_unit b -> a = b.
Proof.
  induction a as [|c a IH]; intros [|d b]; simpl; auto.
  - intros E. symmetry in E. apply app_eq_nil in E. destruct E as [E _].
    destruct (escape_unit_shape d) as [(_ & X & _)|(t & X & _)];
      rewrite X in E; discriminate.
  - intros E. apply app_eq_nil in E. destruct E as [E _].
    destruct (escape_unit_shape c) as [(_ & X & _)|(t & X & _)];
      rewrite X in E; discriminate.
  - destruct (escape_unit_shape c) as [(_ & X & Nc)|(t & X & It)];
      destruct (escape_unit_shape d) as [(_ & Y & Nd)|(u & Y & Iu)];
      rewrite X, Y; simpl; intros E.
    + injection E as -> E. f_equal. now apply IH.
    + injection E as -> _. congruence.
    + injection E as <- _. congruence.
    + injection E as E.
      simpl in It, Iu.
      repeat (destruct It as [It|It]; [injection It as <- <-|]);
        try destruct It;
        repeat (destruct Iu as [Iu|Iu]; [injection Iu as <- <-|]);
        try destruct Iu;
        simpl in E; try discriminate;
        f_equal; apply IH;
        repeat (injection E as E); exact E.
Qed.

(** X21. [escapeHtml] acts on each code unit on its own, in spite of its five
    passes: the ampersands that the later passes bring in are not escaped
    again.  Its result holds none of the delimiters [<], [>], the double
    quote and the apostrophe, and a text with none of the five special code
    units is returned as it is.  It throws only when [String(s)] does. *)
Theorem escapeHtml_units v :
  escapeHtml v = option_map (flat_map escape_unit) (toString v)
  /\ (forall out x, escapeHtml v = Some out -> In x out ->
        delimiter x = false)
  /\ (forall s, toString v = Some s -> existsb markup_unit s = false ->
        escapeHtml v = Some s).
Proof.
  unfold escapeHtml. destruct (toString v) as [s|]; simpl.
  - split; [now rewrite escape_text_units|]. split.
    + intros out x E I. injection E as <-. rewrite escape_text_units in I.
      apply in_flat_map in I. destruct I as (c & _ & I).
      now apply escape_unit_delimiter in I.
    + intros s0 E F. injection E as <-.
      now rewrite escape_text_units, escape_units_plain.
  - repeat split; discriminate.
Qed.

Lemma escapeHtml_units_witness :
  escapeHtml (JStr (js "a<b & 'c'"))
  = Some (js "a&lt;b &amp; &#039;c&#039;")
  /\ escapeHtml (JStr (js "plain text")) = Some (js "plain text").
Proof.
  destruct (@escapeHtml_units (JStr (js "a<b & 'c'"))) as (A & _ & _).
  destruct (@escapeHtml_units (JStr (js "plain text"))) as (_ & _ & B).
  split; [rewrite A; vm_compute; reflexivity|].
  apply B; vm_compute; reflexivity.
Defined.

(** X22. [escapeHtml] loses nothing: two values with the same escaped text
    have the same text. *)
Theorem escapeHtml_injective v1 v2 out :
  escapeHtml v1 = Some out -> escapeHtml v2 = Some out ->
  toString v1 = toString v2.
Proof.
  unfold escapeHtml.
  destruct (toString v1) as [a|]; [|discriminate].
  destruct (toString v2) as [b|]; [|discriminate]. simpl.
  intros E1 E2. f_equal. apply escape_units_injective.
  rewrite <- !escape_text_units. congruence.
Qed.

Lemma escapeHtml_injective_witness :
  toString (JBool true) = toString (JStr (js "true")).
Proof.
  apply (@escapeHtml_injective (JBool true) (JStr (js "true")) (js "true"));
    vm_compute; reflexivity.
Defined.

(* ################################################################# *)
(** * Index consistency, operation by operation *)

Section HasFacts.
Variable V : Type.
Implicit Types (m : JsMap.t V) (k : jsstring) (v : V).

Lemma has_set_same k v m : JsMap.has k (JsMap.set k v m) = true.
Proof. unfold JsMap.has. now rewrite get_set_same. Qed.

Lemma has_set_other k k' v m :
  k <> k' -> JsMap.has k' (JsMap.set k v m) = JsMap.has k' m.
Proof. intros N. unfold JsMap.has. now rewrite get_set_other. Qed.

Lemma has_delete_same k m : JsMap.has k (JsMap.delete k m) = false.
Proof. unfold JsMap.has. now rewrite get_delete_same. Qed.

Lemma has_delete_other k k' m :
  k <> k' -> JsMap.has k' (JsMap.delete k m) = JsMap.has k' m.
Proof. intros N. unfold JsMap.has. now rewrite get_delete_other. Qed.
End HasFacts.

Lemma in_indexes_get id rid st room :
  getRoom rid st = Some room ->
  in_indexes id rid st
  = (JsMap.has id (clients room), JsMap.has id (roles room),
     JsMap.has id (names room)).
Proof. intros G. unfold in_indexes. now rewrite G. Qed.

Lemma in_indexes_same_room id rid st st' :
  getRoom rid st' = getRoom rid st ->
  in_indexes id rid st' = in_indexes id rid st.
Proof. intros G. unfold in_indexes. now rewrite G. Qed.

(** The room a join fetches or creates has the keys the store had under the
    identifier. *)
Lemma in_indexes_ensureRoom now id rid st :
  (JsMap.has id (clients (fst (ensureRoom now rid st))),
   JsMap.has id (roles (fst (ensureRoom now rid st))),
   JsMap.has id (names (fst (ensureRoom now rid st))))
  = in_indexes id rid st.
Proof.
  unfold in_indexes, ensureRoom, getRoom.
  destruct (JsMap.get rid (rooms st)); reflexivity.
Qed.

(** What a join that passed the [roomId] test leaves in the store. *)
Lemma join_room_store now h ws rid r name st :
  rid <> [] ->
  let room1 := join_target now h ws rid r name st in
  let st' := fst (join_room now h ws rid r name st) in
  (exists room',
     getRoom rid st' = Some room'
     /\ room'
        = (if join_kept now h ws rid r name st
           then match r with
                | Host => set_hostId (Some (clientId ws)) room1
                | Viewer => room1
                end
           else remove_member (clientId ws) room1))
  /\ forall rid', rid' <> rid -> getRoom rid' st' = getRoom rid' st.
Proof.
  intros NE room1 st'. unfold st', room1, join_kept, join_target, join_room.
  apply is_empty_false in NE. rewrite NE.
  assert (Other : forall rid', rid' <> rid ->
            getRoom rid' (snd (ensureRoom now rid st)) = getRoom rid' st)
    by (intros rid' N; apply getRoom_ensureRoom_other; congruence).
  destruct (ensureRoom now rid st) as [room0 st1]. cbn [fst snd] in *.
  destruct r.
  - cbn [fst]. split.
    + eexists. split; [apply getRoom_put_same | reflexivity].
    + intros rid' N. rewrite getRoom_put_other by congruence.
      rewrite getRoom_set_sock. now apply Other.
  - destruct (host_absent _); cbn [fst negb]; split;
      try (eexists; split; [apply getRoom_put_same | reflexivity]);
      intros rid' N; rewrite getRoom_put_other by congruence;
      rewrite getRoom_set_sock; now apply Other.
Qed.

Lemma in_indexes_join_room now h ws rid r name st :
  rid <> [] ->
  let st' := fst (join_room now h ws rid r name st) in
  in_indexes (clientId ws) rid st'
  = (if join_kept now h ws rid r name st
     then (true, true, true) else (false, false, false))
  /\ forall id rid',
       id <> clientId ws \/ rid' <> rid ->
       in_indexes id rid' st' = in_indexes id rid' st.
Proof.
  intros NE st'.
  destruct (@join_room_store now h ws rid r name st NE)
    as ((room' & G & E) & Other). fold st' in G, Other.
  split.
  - rewrite (in_indexes_get _ _ _ G), E.
    destruct (join_kept now h ws rid r name st).
    + destruct r; unfold join_target; simpl; now rewrite !has_set_same.
    + simpl. now rewrite !has_delete_same.
  - intros id rid' [N|N].
    + destruct (list_eq_dec N.eq_dec rid' rid) as [->|N'].
      * rewrite (in_indexes_get _ _ _ G), E,
          <- (in_indexes_ensureRoom now id rid st).
        assert (N2 : clientId ws <> id) by congruence.
        destruct (join_kept now h ws rid r name st).
        -- destruct r; unfold join_target; simpl;
             now rewrite !has_set_other by exact N2.
        -- unfold join_target; simpl.
           rewrite !has_delete_other by exact N2.
           now rewrite !has_set_other by exact N2.
      * apply in_indexes_same_room. now apply Other.
    + apply in_indexes_same_room. now apply Other.
Qed.

(** What the close handler leaves in the store: the room of the closing
    connection is deleted or has lost the connection's three entries, and
    no other room changes. *)
Lemma on_close_store h ws st rid :
  roomId ws = Some rid -> rid <> [] ->
  let st' := fst (on_close h ws st) in
  (forall rid', rid' <> rid -> getRoom rid' st' = getRoom rid' st)
  /\ (getRoom rid st' = None
      \/ exists room,
           getRoom rid st = Some room
           /\ getRoom rid st' = Some (remove_member (clientId ws) room)).
Proof.
  intros E NE st'. unfold st', on_close.
  rewrite (current_room_joined ws st E NE).
  destruct (getRoom rid st) as [room|] eqn:G; [|split; auto].
  destruct (match hostId (remove_member (clientId ws) room) with
            | Some hid => str_eqb hid (clientId ws)
            | None => false
            end); cbn [fst].
  - split.
    + intros rid' N. unfold getRoom, deleteRoom; simpl.
      rewrite rooms_close_all. simpl.
      rewrite get_delete_other by congruence.
      now rewrite get_set_other by congruence.
    + left. unfold getRoom, deleteRoom; simpl. apply get_delete_same.
  - destruct (Nat.eqb _ 0).
    + split.
      * intros rid' N. unfold getRoom, deleteRoom; simpl.
        rewrite get_delete_other by congruence.
        now rewrite get_set_other by congruence.
      * left. unfold getRoom, deleteRoom; simpl. apply get_delete_same.
    + split.
      * intros rid' N. now apply getRoom_put_other.
      * right. exists room. split; [reflexivity | apply getRoom_put_same].
Qed.

Lemma on_close_idle h ws st :
  (forall rid, roomId ws = Some rid -> rid = []) ->
  fst (on_close h ws st) = st.
Proof.
  intros Hn. unfold on_close, current_room.
  destruct (roomId ws) as [[|c rid]|]; simpl; auto.
  specialize (Hn _ eq_refl). discriminate.
Qed.

Lemma in_indexes_on_close h ws st :
  let st' := fst (on_close h ws st) in
  (forall rid, roomId ws = Some rid -> rid <> [] ->
               in_indexes (clientId ws) rid st' = (false, false, false))
  /\ forall id rid',
       in_indexes id rid' st' = in_indexes id rid' st
       \/ in_indexes id rid' st' = (false, false, false).
Proof.
  intros st'. split.
  - intros rid E NE.
    destruct (@on_close_store h ws st rid E NE) as [_ [G|(room & _ & G)]];
      fold st' in G.
    + unfold in_indexes. now rewrite G.
    + rewrite (in_indexes_get _ _ _ G). simpl. now rewrite !has_delete_same.
  - intros id rid'.
    destruct (roomId ws) as [rid|] eqn:E;
      [|left; unfold st'; rewrite on_close_idle; auto; congruence].
    destruct rid as [|c rid];
      [left; unfold st'; rewrite on_close_idle; auto; congruence|].
    assert (NE : c :: rid <> []) by discriminate.
    destruct (@on_close_store h ws st _ E NE) as [Other Here].
    fold st' in Other, Here.
    destruct (list_eq_dec N.eq_dec rid' (c :: rid)) as [->|N'];
      [|left; apply in_indexes_same_room; now apply Other].
    destruct Here as [G|(room & G0 & G)].
    + right. unfold in_indexes. now rewrite G.
    + destruct (list_eq_dec N.eq_dec id (clientId ws)) as [->|N].
      * right. rewrite (in_indexes_get _ _ _ G). simpl.
        now rewrite !has_delete_same.
      * left. rewrite (in_indexes_get _ _ _ G), (in_indexes_get _ _ _ G0).
        simpl. assert (N2 : clientId ws <> id) by congruence.
        now rewrite !has_delete_other by exact N2.
Qed.

(** C1. Index consistency.  In every state the server can reach by any
    sequence of connections, messages, pongs, close events and sweeps:
    - every room of the store has the same connection identifiers as keys
      of its handle, role and name indexes (in the same order), so that an
      identifier is in all three or in none;
    - a join that the handler completes with a non-empty room identifier
      puts the joiner's identifier in all three indexes of the named room
      when it is accepted, and leaves it in none of them when it is rolled
      back (role viewer, host absent); the membership of any other
      identifier, and of any identifier in another room, is as before; a
      join with an empty room identifier changes no room; the handler
      fails to complete a join only by throwing in the conversions of lines
      123-125, before it has written anything;
    - a leave message changes no room (the removal is the close event's);
    - the close event of a connection leaves the connection's identifier in
      none of the three indexes of its current room, and the membership of
      any identifier in any room is as before or gone with its room. *)
Theorem index_consistency (st : Server) :
  reachable st ->
  (forall rid room, In (rid, room) (rooms st) ->
     JsMap.keys (clients room) = JsMap.keys (roles room)
     /\ JsMap.keys (roles room) = JsMap.keys (names room))
  /\ (forall id rid,
        in_indexes id rid st = (true, true, true)
        \/ in_indexes id rid st = (false, false, false))
  /\ (forall h m now st' out,
        is_str (msg_type m) (js "join") = true ->
        step st (Message h (Parsed m) now) = Some (st', out) ->
        exists ws rid name,
          sock st h = Some ws
          /\ join_roomId m = Some rid /\ join_name m = Some name
          /\ (rid = [] -> rooms st' = rooms st)
          /\ (rid <> [] ->
              in_indexes (clientId ws) rid st'
              = (if join_kept now h ws rid (join_role m) name st
                 then (true, true, true) else (false, false, false))
              /\ forall id rid',
                   id <> clientId ws \/ rid' <> rid ->
                   in_indexes id rid' st' = in_indexes id rid' st))
  /\ (forall h ws m now,
        is_str (msg_type m) (js "join") = true ->
        sock st h = Some ws -> readyState ws <> CLOSED ->
        (step st (Message h (Parsed m) now) = None
         <-> join_roomId m = None \/ join_name m = None))
  /\ (forall h m now st' out,
        is_str (msg_type m) (js "leave") = true ->
        step st (Message h (Parsed m) now) = Some (st', out) ->
        rooms st' = rooms st)
  /\ (forall h st' out,
        step st (Closed h) = Some (st', out) ->
        exists ws,
          sock st h = Some ws
          /\ (forall rid, roomId ws = Some rid -> rid <> [] ->
                in_indexes (clientId ws) rid st' = (false, false, false))
          /\ forall id rid',
               in_indexes id rid' st' = in_indexes id rid' st
               \/ in_indexes id rid' st' = (false, false, false)).
Proof.
  intros Re. split; [|split; [|split; [|split; [|split]]]].
  - intros rid room I.
    destruct (reachable_same_keys Re _ _ I) as (A & B & _). auto.
  - intros id rid. unfold in_indexes.
    destruct (getRoom rid st) as [room|] eqn:G; [|now right].
    apply get_some_in in G.
    destruct (reachable_same_keys Re _ _ G) as (_ & _ & K).
    destruct (K id) as [A B]. rewrite <- B, <- A.
    destruct (JsMap.has id (clients room)); auto.
  - intros h m now st' out J St. simpl in St.
    destruct (sock st h) as [ws|] eqn:S; [|discriminate].
    assert (M : dispatch now h ws m st = Some (st', out))
      by (destruct (readyState ws); [exact St | exact St | discriminate]).
    unfold dispatch in M. rewrite J in M. unfold on_join in M.
    destruct (join_roomId m) as [rid|] eqn:ER; [|discriminate].
    destruct (join_name m) as [name|] eqn:EN; [|discriminate].
    apply some_pair in M. destruct M as [-> _].
    exists ws, rid, name.
    refine (conj eq_refl (conj eq_refl (conj eq_refl (conj _ _)))).
    + intros ->. reflexivity.
    + intros NE. now apply in_indexes_join_room.
  - intros h ws m now J S NC. simpl. rewrite S.
    assert (E : match readyState ws with
                | CLOSED => None
                | _ => dispatch now h ws m st
                end = on_join now h ws m st).
    { unfold dispatch. rewrite J. destruct (readyState ws); congruence. }
    rewrite E. unfold on_join.
    destruct (join_roomId m); [|split; auto].
    destruct (join_name m); split; try discriminate; auto.
    intros [X|X]; discriminate.
  - intros h m now st' out L St.
    destruct (is_str_leave _ L) as (J & Sg & C). simpl in St.
    destruct (sock st h) as [ws|] eqn:S; [|discriminate].
    assert (M : dispatch now h ws m st = Some (st', out))
      by (destruct (readyState ws); [exact St | exact St | discriminate]).
    unfold dispatch in M. rewrite J, Sg, C, L in M.
    apply some_pair in M. destruct M as [-> _]. apply rooms_lib_close.
  - intros h st' out St.
    apply step_closed_inv in St. destruct St as (ws & S & _ & E).
    apply (f_equal fst) in E. cbn [fst] in E. subst st'.
    exists ws. split; [exact S|].
    exact (in_indexes_on_close h (set_readyState ws CLOSED)
             (deregister h (set_sock h (set_readyState ws CLOSED) st))).
Qed.

Lemma index_consistency_witness :
  in_indexes (js "V") (js "r1") hosted_room = (true, true, true)
  /\ in_indexes (js "V") (js "r1") viewer_gone = (false, false, false)
  /\ in_indexes (js "H") (js "r1") viewer_gone = (true, true, true).
Proof.
  assert (Re : reachable hosted_room).
  { exists hosted_room_events. eexists. vm_compute. reflexivity. }
  destruct (@index_consistency hosted_room Re) as (_ & _ & _ & _ & _ & C).
  assert (St : step hosted_room (Closed 1)
               = Some (viewer_gone,
                       snd (close_event 1 (sock_at 1 hosted_room)
                              hosted_room)))
    by (vm_compute; reflexivity).
  destruct (C 1 _ _ St) as (ws & S & A & B).
  assert (W : ws = sock_at 1 hosted_room).
  { assert (E : sock hosted_room 1 = Some (sock_at 1 hosted_room))
      by (vm_compute; reflexivity).
    rewrite E in S. now injection S as <-. }
  subst ws.
  assert (NE : js "r1" <> []) by (vm_compute; discriminate).
  split; [vm_compute; reflexivity|].
  split; [exact (A (js "r1") eq_refl NE)|].
  destruct (B (js "H") (js "r1")) as [K|K]; [|vm_compute in K; discriminate].
  rewrite K. vm_compute. reflexivity.
Defined.

(* ################################################################# *)
(** * Liveness reaping *)

(* ================================================================= *)
(** ** Identifier and current room of a socket *)

Lemma identity_set_sock st t w0 w h :
  sock st t = Some w0 -> clientId w = clientId w0 -> roomId w = roomId w0 ->
  identity (set_sock t w st) h = identity st h.
Proof.
  intros S C R. unfold identity, sock in *; simpl.
  destruct (Nat.eq_dec t h) as [<-|N].
  - rewrite (nth_error_list_upd_same _ _ _ S), S. simpl. congruence.
  - now rewrite nth_error_list_upd_other.
Qed.

Lemma identity_lib_close t st h : identity (lib_close t st) h = identity st h.
Proof.
  unfold lib_close. destruct (sock st t) as [w|] eqn:S; auto.
  destruct (readyState w); auto. now apply identity_set_sock with (w0 := w).
Qed.

Lemma identity_lib_terminate t st h :
  identity (lib_terminate t st) h = identity st h.
Proof.
  unfold lib_terminate. destruct (sock st t) as [w|] eqn:S; auto.
  destruct (readyState w); auto; now apply identity_set_sock with (w0 := w).
Qed.

Lemma identity_close_all hs : forall st h,
  identity (close_all hs st) h = identity st h.
Proof.
  unfold close_all. induction hs as [|t hs IH]; intros st h; simpl; auto.
  rewrite IH. apply identity_lib_close.
Qed.

Lemma identity_same_sockets st st' h :
  sockets st' = sockets st -> identity st' h = identity st h.
Proof. intros E. unfold identity, sock. now rewrite E. Qed.

Lemma identity_on_close t ws st h :
  identity (fst (on_close t ws st)) h = identity st h.
Proof.
  unfold on_close.
  destruct (current_room ws st) as [[rid [room|]]|e]; auto.
  destruct (match hostId (remove_member (clientId ws) room) with
            | Some hid => str_eqb hid (clientId ws)
            | None => false
            end); cbn [fst].
  - rewrite (@identity_same_sockets
               (close_all (JsMap.values
                             (clients (remove_member (clientId ws) room)))
                  (put_room rid (remove_member (clientId ws) room) st)))
      by reflexivity.
    rewrite identity_close_all. now apply identity_same_sockets.
  - destruct (Nat.eqb _ 0); now apply identity_same_sockets.
Qed.

Lemma identity_close_event t w st h :
  sock st t = Some w ->
  identity (fst (close_event t w st)) h = identity st h.
Proof.
  intros S. unfold close_event. rewrite identity_on_close.
  rewrite (@identity_same_sockets (set_sock t (set_readyState w CLOSED) st))
    by reflexivity.
  now apply identity_set_sock with (w0 := w).
Qed.

Lemma identity_sweep_fold hs : forall acc h,
  identity (fst (fold_left sweep_one hs acc)) h = identity (fst acc) h.
Proof.
  induction hs as [|t hs IH]; intros acc h; simpl; auto.
  rewrite IH. destruct acc as [s out]. simpl.
  destruct (sock s t) as [w|] eqn:S; auto.
  destruct (isAlive w); cbn [fst].
  - now apply identity_set_sock with (w0 := w).
  - apply identity_lib_terminate.
Qed.

Lemma identity_sock st st' h w :
  identity st' h = identity st h -> sock st h = Some w ->
  exists w', sock st' h = Some w'
             /\ clientId w' = clientId w /\ roomId w' = roomId w.
Proof.
  unfold identity. intros E S. rewrite S in E.
  destruct (sock st' h) as [w'|]; [|discriminate].
  simpl in E. injection E as C R. eauto.
Qed.

(* ================================================================= *)
(** ** The close events of the sockets a sweep destroyed *)

Lemma in_terminated h out : In h (terminated out) <-> In (WsTerminate h) out.
Proof.
  unfold terminated. rewrite in_flat_map. split.
  - intros (e & I & X). destruct e; simpl in X; try tauto.
    destruct X as [<-|[]]. exact I.
  - intros I. exists (WsTerminate h). split; [exact I | now left].
Qed.

Lemma terminated_targets h out :
  In h (terminated out) -> In h (map call_target out).
Proof.
  intros I. apply in_terminated in I.
  change h with (call_target (WsTerminate h)). now apply in_map.
Qed.

Lemma NoDup_terminated out :
  NoDup (map call_target out) -> NoDup (terminated out).
Proof.
  induction out as [|e out IH]; simpl; [constructor|].
  intros ND. inversion ND as [|? ? NI ND']; subst.
  destruct e; simpl; auto. constructor; auto.
  intros I. apply NI. now apply terminated_targets.
Qed.

Lemma step_closed_in_indexes st x st' out id rid :
  step st (Closed x) = Some (st', out) ->
  in_indexes id rid st' = in_indexes id rid st
  \/ in_indexes id rid st' = (false, false, false).
Proof.
  intros St. apply step_closed_inv in St. destruct St as (ws & S & _ & E).
  apply (f_equal fst) in E. cbn [fst] in E. subst st'.
  destruct (in_indexes_on_close x (set_readyState ws CLOSED)
              (deregister x (set_sock x (set_readyState ws CLOSED) st)))
    as [_ F].
  exact (F id rid).
Qed.

Lemma run_closes_out ts : forall st st' out id rid,
  run st (map Closed ts) = Some (st', out) ->
  in_indexes id rid st = (false, false, false) ->
  in_indexes id rid st' = (false, false, false).
Proof.
  induction ts as [|t ts IH]; intros st st' out id rid Rn F;
    cbn [run map] in Rn.
  - injection Rn as <- _. exact F.
  - destruct (step st (Closed t)) as [[st1 out1]|] eqn:St; [|discriminate].
    destruct (run st1 (map Closed ts)) as [[st2 out2]|] eqn:R1;
      [|discriminate].
    injection Rn as <- _. apply (IH _ _ _ _ _ R1).
    destruct (@step_closed_in_indexes _ _ _ _ id rid St) as [E|E];
      congruence.
Qed.

Lemma run_stays_closed evs : forall st st' out h w,
  run st evs = Some (st', out) -> ~ In (Closed h) evs ->
  sock st h = Some w -> readyState w = CLOSED ->
  exists w', sock st' h = Some w' /\ readyState w' = CLOSED.
Proof.
  induction evs as [|e evs IH]; intros st st' out h w Rn NI S C; simpl in Rn.
  - injection Rn as <- _. eauto.
  - destruct (step st e) as [[st1 out1]|] eqn:St; [|discriminate].
    destruct (run st1 evs) as [[st2 out2]|] eqn:R1; [|discriminate].
    injection Rn as <- _. simpl in NI.
    assert (NC : e <> Closed h) by tauto.
    destruct (step_same_closed _ St NC S) as (w1 & S1 & R).
    apply (@IH _ _ _ h w1 R1); [tauto | exact S1 | now apply R].
Qed.

Lemma wss_clients_close_event t w st :
  wss_clients (fst (close_event t w st))
  = filter (fun x => negb (Nat.eqb t x)) (wss_clients st).
Proof.
  unfold close_event.
  destruct (evolves_on_close t (set_readyState w CLOSED)
    (deregister t (set_sock t (set_readyState w CLOSED) st))) as [W _].
  exact W.
Qed.

(** The close events of distinct registered sockets can be played one
    after the other; each of the sockets is then [CLOSED], out of
    [wss.clients] and out of the indexes of the room it was in. *)
Lemma run_closes ts : forall s,
  registry_ok s -> NoDup ts ->
  (forall t, In t ts -> In t (wss_clients s)) ->
  exists s' out,
    run s (map Closed ts) = Some (s', out)
    /\ (forall x, In x (wss_clients s') <->
                  In x (wss_clients s) /\ ~ In x ts)
    /\ forall t w, In t ts -> sock s t = Some w ->
         (exists w', sock s' t = Some w' /\ readyState w' = CLOSED)
         /\ forall rid, roomId w = Some rid -> rid <> [] ->
              in_indexes (clientId w) rid s' = (false, false, false).
Proof.
  induction ts as [|t ts IH]; intros s RO ND Sub.
  - exists s, []. split; [reflexivity|]. split; [intros x; tauto|].
    intros t w [].
  - inversion ND as [|? ? NI ND']; subst.
    destruct RO as [NDc A].
    destruct (A t (Sub t (or_introl eq_refl))) as (wt & St & NC).
    pose proof (@step_closed_enabled _ _ _ St NC) as Step.
    set (s1 := fst (close_event t wt s)) in *.
    assert (Step1 : step s (Closed t) = Some (s1, snd (close_event t wt s)))
      by (rewrite Step; unfold s1; now destruct (close_event t wt s)).
    assert (RO1 : registry_ok s1)
      by (eapply step_registry_ok; [split; eauto | exact Step1]).
    assert (W1 : wss_clients s1
                 = filter (fun x => negb (Nat.eqb t x)) (wss_clients s))
      by apply wss_clients_close_event.
    assert (Sub1 : forall t', In t' ts -> In t' (wss_clients s1)).
    { intros t' I. rewrite W1. apply filter_In. split.
      - apply Sub. now right.
      - apply negb_true_iff, Nat.eqb_neq. intros <-. contradiction. }
    destruct (IH s1 RO1 ND' Sub1) as (s' & out2 & Rn & Wc & El).
    exists s', (snd (close_event t wt s) ++ out2).
    split; [cbn [run map]; now rewrite Step1, Rn|]. split.
    + intros x. rewrite Wc, W1, filter_In, negb_true_iff, Nat.eqb_neq.
      simpl. split.
      * intros [[I N] NIx]. split; [exact I|]. intros [E|I']; auto.
      * intros [I NIx]. split; [split; [exact I|]|]; intros E; apply NIx;
          auto.
    + intros t0 w [E|I] S0.
      * subst t0. assert (w = wt) by congruence. subst w.
        destruct (@close_event_final s t wt St) as (_ & w4 & S4 & C4).
        fold s1 in S4. split.
        -- apply (@run_stays_closed _ _ _ _ t w4 Rn); auto.
           intros X. apply in_map_iff in X. destruct X as (x & X & Ix).
           injection X as ->. contradiction.
        -- intros rid E NE. apply (@run_closes_out _ _ _ _ _ _ Rn).
           destruct (in_indexes_on_close t (set_readyState wt CLOSED)
                       (deregister t
                          (set_sock t (set_readyState wt CLOSED) s)))
             as [F _].
           exact (F rid E NE).
      * destruct (@identity_sock s s1 t0 w
                    (@identity_close_event t wt s t0 St) S0)
          as (w1 & S1 & C1 & R1).
        destruct (El t0 w1 I S1) as [Cl Td]. split; [exact Cl|].
        intros rid E NE. rewrite <- C1. apply Td; congruence.
Qed.

Lemma step_keeps_registered st e st' out h :
  step st e = Some (st', out) -> e <> Closed h ->
  In h (wss_clients st) -> In h (wss_clients st').
Proof.
  intros St NC I. destruct e as [uuid|h0 raw now|h0|h0|].
  - rewrite step_connect in St. apply some_pair in St. destruct St as [-> _].
    simpl. apply in_app_iff. now left.
  - apply step_message_evolves in St. destruct St as [W _]. now rewrite W.
  - apply step_pong_inv in St. destruct St as (w0 & _ & _ & ->). exact I.
  - assert (N : h0 <> h) by congruence.
    pose proof St as St'. apply step_closed_inv in St'.
    destruct St' as (w0 & S0 & _ & E).
    apply (f_equal fst) in E. cbn [fst] in E. subst st'.
    change (In h (wss_clients (fst (close_event h0 w0 st)))).
    rewrite wss_clients_close_event. apply filter_In. split; auto.
    now apply negb_true_iff, Nat.eqb_neq.
  - rewrite step_tick in St. apply some_pair in St. destruct St as [-> _].
    now rewrite wss_clients_sweep.
Qed.

Lemma run_keeps_registered evs : forall st st' out h,
  run st evs = Some (st', out) -> ~ In (Closed h) evs ->
  In h (wss_clients st) -> In h (wss_clients st').
Proof.
  induction evs as [|e evs IH]; intros st st' out h Rn NI I; simpl in Rn.
  - injection Rn as <- _. exact I.
  - destruct (step st e) as [[st1 out1]|] eqn:St; [|discriminate].
    destruct (run st1 evs) as [[st2 out2]|] eqn:R1; [|discriminate].
    injection Rn as <- _. simpl in NI.
    apply (@IH _ _ _ h R1); [tauto|].
    apply (@step_keeps_registered _ _ _ _ h St); tauto.
Qed.

Lemma reachable_sweep st : reachable st -> reachable (fst (sweep st)).
Proof.
  intros Re.
  apply (@reachable_step st Tick (fst (sweep st)) (snd (sweep st))); auto.
  rewrite step_tick. now destruct (sweep st).
Qed.

(** The close events a sweep brings about can be played, whatever the
    state. *)
Lemma sweep_closes st :
  reachable st ->
  NoDup (terminated (snd (sweep st)))
  /\ (forall t, In t (terminated (snd (sweep st))) ->
                In t (wss_clients (fst (sweep st))))
  /\ registry_ok (fst (sweep st)).
Proof.
  intros Re. destruct (reachable_registry_ok Re) as [ND A].
  assert (T : map call_target (snd (sweep st)) = wss_clients st).
  { unfold sweep. rewrite sweep_fold_targets; [reflexivity|].
    intros h I. destruct (A _ I) as (w & S & _). simpl. congruence. }
  split; [apply NoDup_terminated; now rewrite T|]. split.
  - intros t I. rewrite wss_clients_sweep, <- T.
    now apply terminated_targets.
  - apply reachable_registry_ok. now apply reachable_sweep.
Qed.

Lemma reap_run st s' out2 :
  run (fst (sweep st)) (map Closed (terminated (snd (sweep st))))
  = Some (s', out2) ->
  reap st = Some (s', snd (sweep st) ++ out2).
Proof.
  intros Rn. unfold reap, emitted.
  change (run st (Tick :: map Closed (terminated (snd (sweep st)))))
    with (match step st Tick with
          | Some (st1, out1) =>
              match run st1 (map Closed (terminated (snd (sweep st)))) with
              | Some (st2, out2) => Some (st2, out1 ++ out2)
              | None => None
              end
          | None => None
          end).
  rewrite step_tick. destruct (sweep st) as [s out]. cbn [fst snd] in *.
  now rewrite Rn.
Qed.

(** A registered socket whose flag is pending is reaped by the tick. *)
Lemma reap_pending st h w :
  reachable st -> In h (wss_clients st) ->
  sock st h = Some w -> isAlive w = false ->
  reaped h w st.
Proof.
  intros Re I S Al.
  destruct (reachable_registry_ok Re) as [ND A].
  assert (NoEff : forall e, about h e -> ~ In e (@nil effect))
    by (intros e _ []).
  pose proof (@sweep_fold_present h w (wss_clients st) (st, []) ND I S NoEff)
    as SW.
  cbn zeta in SW. fold (sweep st) in SW. rewrite Al in SW.
  destruct SW as (_ & T & _).
  destruct (sweep_closes Re) as (NDt & Sub & RO).
  destruct (@run_closes _ _ RO NDt Sub) as (s' & out2 & Rn & Wc & El).
  assert (It : In h (terminated (snd (sweep st))))
    by now apply in_terminated.
  destruct (@identity_sock st (fst (sweep st)) h w
              (identity_sweep_fold (wss_clients st) (st, []) h) S)
    as (w1 & S1 & C1 & R1).
  destruct (El h w1 It S1) as [(w' & S' & C') Td].
  exists s', (snd (sweep st) ++ out2).
  split; [now apply reap_run|].
  split; [apply in_app_iff; now left|].
  split.
  { destruct (in_split _ _ It) as (a & b & E).
    exists (map Closed a), (map Closed b). unfold emitted. rewrite E.
    rewrite map_app. split; [reflexivity|].
    rewrite E in NDt. apply NoDup_remove_2 in NDt.
    split; intros X; apply in_map_iff in X; destruct X as (x & X & Ix);
      injection X as ->; apply NDt, in_app_iff; auto. }
  split; [intros X; apply Wc in X; tauto|].
  split; [eauto|].
  split.
  - intros rid E NE. rewrite <- C1. apply Td; congruence.
  - intros evs r Rn'. eapply closed_forever; eauto.
Qed.

Lemma set_readyState_twice w a b :
  set_readyState (set_readyState w a) b = set_readyState w b.
Proof. reflexivity. Qed.

(** C8. For a connection [h] registered in any reachable state, with [w]
    its socket record.
    - A keepalive sweep calls [terminate()] on it when its liveness flag is
      pending (false), and otherwise sets the flag to pending and calls
      [ping()].
    - When the flag is pending the tick reaps the connection: the library
      emits the close event of the socket that [terminate()] destroyed,
      once, and with it the socket is [CLOSED] and out of [wss.clients],
      the close handler has taken its identifier out of the three indexes
      of its room (or deleted the room), and no second close event of the
      socket can occur.
    - When the flag is not pending the tick leaves it registered and
      pinged; if then neither a pong nor a close event of [h] comes before
      the next tick, that tick reaps it.
    - Until its close event comes, whatever else happens, the connection
      stays registered and its close event can occur.
    - The close event after [terminate()] is the one the socket would have
      had without it: the teardown is that of an explicit disconnect. *)
Theorem liveness_reaping (st : Server) (h : handle) :
  reachable st -> In h (wss_clients st) ->
  exists w,
    sock st h = Some w
    /\ (if isAlive w
        then sock (fst (sweep st)) h = Some (set_isAlive w false)
             /\ In (WsPing h) (snd (sweep st))
             /\ ~ In (WsTerminate h) (snd (sweep st))
        else alive (fst (sweep st)) h = Some false
             /\ In (WsTerminate h) (snd (sweep st))
             /\ ~ In (WsPing h) (snd (sweep st)))
    /\ (isAlive w = false -> reaped h w st)
    /\ (isAlive w = true ->
        exists st1 out1,
          reap st = Some (st1, out1)
          /\ In (WsPing h) out1
          /\ In h (wss_clients st1)
          /\ alive st1 h = Some false
          /\ forall evs st2 out2,
               run st1 evs = Some (st2, out2) -> Forall (quiet h) evs ->
               exists w2, sock st2 h = Some w2 /\ reaped h w2 st2)
    /\ (forall evs st2 out2,
          run st evs = Some (st2, out2) -> ~ In (Closed h) evs ->
          In h (wss_clients st2)
          /\ exists w2, sock st2 h = Some w2
                        /\ step st2 (Closed h) = Some (close_event h w2 st2))
    /\ step (lib_terminate h st) (Closed h) = step st (Closed h).
Proof.
  intros Re I.
  destruct (reachable_registry_ok Re) as [ND A].
  destruct (A _ I) as (w & S & NC). exists w. split; [exact S|].
  assert (NoEff : forall e, about h e -> ~ In e (@nil effect))
    by (intros e _ []).
  pose proof (@sweep_fold_present h w (wss_clients st) (st, []) ND I S NoEff)
    as SW.
  cbn zeta in SW. fold (sweep st) in SW. split; [exact SW|].
  split; [intros Al; now apply reap_pending|].
  split; [|split].
  - intros Al. rewrite Al in SW. destruct SW as (S1 & P & NT).
    destruct (sweep_closes Re) as (NDt & Sub & RO).
    destruct (@run_closes _ _ RO NDt Sub) as (s' & out2 & Rn & Wc & El).
    assert (Q : Forall (quiet h) (map Closed (terminated (snd (sweep st))))).
    { apply Forall_forall. intros e X. apply in_map_iff in X.
      destruct X as (t & <- & It). apply in_terminated in It.
      repeat split; try discriminate. intros E. injection E as ->.
      contradiction. }
    assert (I1 : In h (wss_clients (fst (sweep st))))
      by now rewrite wss_clients_sweep.
    destruct (run_quiet _ Rn Q I1 S1) as (I2 & w2 & S2 & A2).
    pose proof (@reap_run st _ _ Rn) as Rp.
    exists s', (snd (sweep st) ++ out2).
    split; [exact Rp|]. split; [apply in_app_iff; now left|].
    split; [exact I2|].
    split; [unfold alive; rewrite S2; simpl; now rewrite A2|].
    intros evs st2 o2 Rn2 Q2.
    destruct (run_quiet _ Rn2 Q2 I2 S2) as (I3 & w3 & S3 & A3).
    exists w3. split; [exact S3|].
    apply reap_pending; auto; [|simpl in *; congruence].
    eapply reachable_run; [|exact Rn2].
    eapply reachable_run; [exact Re | exact Rp].
  - intros evs st2 out2 Rn NI.
    pose proof (@run_keeps_registered _ _ _ _ h Rn NI I) as I2.
    split; [exact I2|].
    assert (Re2 : reachable st2) by (eapply reachable_run; eauto).
    destruct (reachable_registry_ok Re2) as [_ A2].
    destruct (A2 _ I2) as (w2 & S2 & NC2). exists w2. split; [exact S2|].
    now apply step_closed_enabled.
  - unfold lib_terminate. rewrite S.
    destruct (readyState w) eqn:RS; [| |congruence]; simpl;
      unfold sock at 1; simpl;
      rewrite (nth_error_list_upd_same _ _ _ S), S, RS; simpl;
      unfold close_event; rewrite set_sock_twice; reflexivity.
Qed.

Lemma liveness_reaping_witness :
  In (WsPing 1) (trace (reap hosted_room))
  /\ reaped 1 (sock_at 1 unanswered) unanswered
  /\ wss_clients (final (reap unanswered)) = []
  /\ rooms (final (reap unanswered)) = [].
Proof.
  assert (Re : reachable hosted_room).
  { exists hosted_room_events. eexists. vm_compute. reflexivity. }
  assert (I : In 1 (wss_clients hosted_room))
    by (vm_compute; right; left; reflexivity).
  destruct (@liveness_reaping hosted_room 1 Re I) as (w & S & _ & _ & C & _).
  assert (W : w = sock_at 1 hosted_room).
  { assert (E : sock hosted_room 1 = Some (sock_at 1 hosted_room))
      by (vm_compute; reflexivity).
    rewrite E in S. now injection S as <-. }
  subst w.
  assert (Al : isAlive (sock_at 1 hosted_room) = true)
    by (vm_compute; reflexivity).
  destruct (C Al) as (st1 & out1 & Rp & P & _ & _ & K).
  assert (E1 : reap hosted_room
               = Some (final (reap hosted_room), trace (reap hosted_room)))
    by (vm_compute; reflexivity).
  rewrite E1 in Rp. apply some_pair in Rp. destruct Rp as [-> ->].
  cbn [fst snd] in *.
  assert (Rn : run (final (reap hosted_room)) silent_events
               = Some (unanswered,
                       trace (run (final (reap hosted_room)) silent_events)))
    by (vm_compute; reflexivity).
  assert (Q : Forall (quiet 1) silent_events)
    by (repeat constructor; discriminate).
  destruct (K _ _ _ Rn Q) as (w2 & S2 & R2).
  assert (W2 : w2 = sock_at 1 unanswered).
  { assert (E : sock unanswered 1 = Some (sock_at 1 unanswered))
      by (vm_compute; reflexivity).
    rewrite E in S2. now injection S2 as <-. }
  subst w2.
  split; [exact P|]. split; [exact R2|].
  split; vm_compute; reflexivity.
Defined.

(* ################################################################# *)
(** * Where the handlers throw *)

(** C3 (fails on the code). The third connection, "H2", asks to host room
    "r1" - a join with role host and a non-empty room identifier - with a
    [name] whose conversion to a string throws: the handler throws at line
    125, before it reaches the room, and the host identifier of "r1" is not
    overwritten. *)
Theorem host_join_can_throw :
  is_str (msg_type unprintable_name_msg) (js "join") = true
  /\ join_role unprintable_name_msg = Host
  /\ join_roomId unprintable_name_msg = Some (js "r1")
  /\ clientId (sock_at 2 before_takeover) = js "H2"
  /\ hostId (room_at "r1" before_takeover) = Some (js "H")
  /\ on_message 103 2 (sock_at 2 before_takeover)
       (Parsed unprintable_name_msg) before_takeover = None
  /\ step before_takeover (Message 2 (Parsed unprintable_name_msg) 103)
     = None.
Proof. repeat split; vm_compute; reflexivity. Qed.

(** C6 (fails on the code). Two chats from a connection that has joined
    "r1".  The first has a [message] whose conversion to a string throws:
    the handler throws at line 213 and nothing is broadcast.  The second
    comes after the host has left and another connection has made a room
    "r1" again, while the sender's socket is closing: the sender is in no
    index of that room, and its chat goes to the room's members under the
    name "User". *)
Theorem chat_can_fail :
  roomId (sock_at 1 hosted_room) = Some (js "r1")
  /\ in_indexes (js "V") (js "r1") hosted_room = (true, true, true)
  /\ step hosted_room (Message 1 (Parsed unprintable_chat_msg) 200) = None
  /\ roomId (sock_at 1 recreated) = Some (js "r1")
  /\ in_indexes (js "V") (js "r1") recreated = (false, false, false)
  /\ step recreated (Message 1 (Parsed (chat_msg "hi")) 300)
     = Some (recreated,
             [WsSend 2 (MChat (js "r1") (js "V") (js "User") (js "hi") 300)]).
Proof. repeat split; vm_compute; reflexivity. Qed.

(* ################################################################# *)
(** * Joining again *)

Lemma ins_key_present k ks : In k ks -> JsMap.ins_key k ks = ks.
Proof.
  induction ks as [|k0 ks IH]; simpl; [tauto|].
  destruct (str_eqb k k0) eqn:E; auto.
  intros [X|I]; [subst; now rewrite str_eqb_refl in E | now rewrite IH].
Qed.

Lemma sock_join_room_kept now h ws rid r name st :
  sock st h = Some ws -> rid <> [] ->
  join_kept now h ws rid r name st = true ->
  sock (fst (join_room now h ws rid r name st)) h
  = Some (set_membership ws (Some rid) (Some r)).
Proof.
  intros S NE K. unfold join_kept, join_target, join_room in *.
  apply is_empty_false in NE. rewrite NE.
  pose proof (sockets_ensureRoom now rid st) as SK.
  destruct (ensureRoom now rid st) as [room0 st1]. cbn [fst snd] in *.
  assert (S1 : sock st1 h = Some ws) by (unfold sock; now rewrite SK).
  destruct r.
  - cbn [fst]. unfold sock; simpl.
    apply (nth_error_list_upd_same _ _ _ S1).
  - apply negb_true_iff in K. rewrite K. cbn [fst]. unfold sock; simpl.
    apply (nth_error_list_upd_same _ _ _ S1).
Qed.

(** C9 (amended). The join handler never looks at the connection's current
    room: a join whose [roomId] and [name] fields convert to strings
    returns, and an error is among its effects only when the trimmed room
    identifier is empty or, for role viewer, when the host of the target
    room is absent.  So when a connection that is a member of a room [r1]
    sends a join for which neither holds, its handle, role and name are
    put under its identifier in the three indexes of the named room and its
    current-room and role fields are reassigned.  When the named room is
    another room, room [r1] - the connection's entries included - stays as
    it was; when it is [r1] itself, the room keeps its keys and the entries
    of the other members, and the connection's role and name entries are
    overwritten. *)
Theorem rejoin_accepted now h ws m st rid name :
  join_roomId m = Some rid ->
  join_name m = Some name ->
  exists st' out,
    on_join now h ws m st = Some (st', out)
    /\ (forall e, In e out -> is_error e ->
          rid = []
          \/ (join_role m = Viewer
              /\ host_absent
                   (join_target now h ws rid (join_role m) name st) = true))
    /\ (forall r1 room1,
          sock st h = Some ws ->
          roomId ws = Some r1 ->
          getRoom r1 st = Some room1 ->
          JsMap.has (clientId ws) (clients room1) = true ->
          rid <> [] ->
          join_role m = Host
          \/ host_absent
               (join_target now h ws rid (join_role m) name st) = false ->
          (forall e, In e out -> ~ is_error e)
          /\ (exists room',
                getRoom rid st' = Some room'
                /\ JsMap.get (clientId ws) (clients room') = Some h
                /\ JsMap.get (clientId ws) (roles room')
                   = Some (join_role m)
                /\ JsMap.get (clientId ws) (names room') = Some name)
          /\ sock st' h
             = Some (set_membership ws (Some rid) (Some (join_role m)))
          /\ (rid <> r1 -> getRoom r1 st' = Some room1)
          /\ (rid = r1 ->
              exists room',
                getRoom r1 st' = Some room'
                /\ JsMap.keys (clients room') = JsMap.keys (clients room1)
                /\ forall id, id <> clientId ws ->
                     JsMap.get id (clients room')
                     = JsMap.get id (clients room1)
                     /\ JsMap.get id (roles room') = JsMap.get id (roles room1)
                     /\ JsMap.get id (names room')
                        = JsMap.get id (names room1))).
Proof.
  intros ER EN. unfold on_join. rewrite ER, EN.
  set (r := join_role m).
  exists (fst (join_room now h ws rid r name st)),
         (snd (join_room now h ws rid r name st)).
  split; [now rewrite <- surjective_pairing|].
  destruct (join_room_accepts now h ws rid r name st) as [Errs _].
  split; [exact Errs|].
  intros r1 room1 S E1 G1 M1 NE D.
  assert (K : join_kept now h ws rid r name st = true).
  { unfold join_kept. destruct r; auto.
    destruct D as [D|D]; [discriminate | now rewrite D]. }
  destruct (@join_room_store now h ws rid r name st NE)
    as ((room' & G & E) & Other).
  rewrite K in E.
  assert (Ins : JsMap.get (clientId ws) (clients room') = Some h
                /\ JsMap.get (clientId ws) (roles room') = Some r
                /\ JsMap.get (clientId ws) (names room') = Some name).
  { rewrite E. unfold join_target.
    destruct r; simpl; repeat split; apply get_set_same. }
  split.
  { intros e I Er. destruct (Errs e I Er) as [X|[X Y]]; [contradiction|].
    destruct D as [D|D]; congruence. }
  split; [exists room'; split; [exact G | exact Ins]|].
  split; [now apply sock_join_room_kept|].
  split.
  - intros N. rewrite Other by congruence. exact G1.
  - intros ->. exists room'. split; [exact G|].
    assert (R0 : fst (ensureRoom now r1 st) = room1)
      by now rewrite (ensureRoom_existing now _ _ G1).
    rewrite E. unfold join_target. rewrite R0. split.
    + assert (Ks : JsMap.keys (JsMap.set (clientId ws) h (clients room1))
                   = JsMap.keys (clients room1)).
      { rewrite keys_set. apply ins_key_present. now apply has_keys. }
      destruct r; simpl; exact Ks.
    + intros id N. assert (N2 : clientId ws <> id) by congruence.
      destruct r; simpl; repeat split; now apply get_set_other.
Qed.

Lemma rejoin_accepted_witness :
  (exists st' out,
     on_join 102 0 (sock_at 0 hosted_room) (join_msg "r2" "host" "Ann")
       hosted_room = Some (st', out)
     /\ sock st' 0
        = Some (set_membership (sock_at 0 hosted_room) (Some (js "r2"))
                  (Some Host))
     /\ getRoom (js "r1") st' = Some (room_at "r1" hosted_room))
  /\ (exists st' out room',
        on_join 200 1 (sock_at 1 hosted_room) (join_msg "r1" "viewer" "Rob")
          hosted_room = Some (st', out)
        /\ getRoom (js "r1") st' = Some room'
        /\ JsMap.get (js "V") (names room') = Some (js "Rob")
        /\ JsMap.keys (clients room') = [js "H"; js "V"]).
Proof.
  assert (G1 : getRoom (js "r1") hosted_room
               = Some (room_at "r1" hosted_room))
    by (vm_compute; reflexivity).
  split.
  - assert (ER : join_roomId (join_msg "r2" "host" "Ann") = Some (js "r2"))
      by (vm_compute; reflexivity).
    assert (EN : join_name (join_msg "r2" "host" "Ann") = Some (js "Ann"))
      by (vm_compute; reflexivity).
    destruct (@rejoin_accepted 102 0 (sock_at 0 hosted_room)
                (join_msg "r2" "host" "Ann") hosted_room _ _ ER EN)
      as (st' & out & J & _ & K).
    assert (S : sock hosted_room 0 = Some (sock_at 0 hosted_room))
      by (vm_compute; reflexivity).
    assert (E1 : roomId (sock_at 0 hosted_room) = Some (js "r1"))
      by (vm_compute; reflexivity).
    assert (M1 : JsMap.has (clientId (sock_at 0 hosted_room))
                   (clients (room_at "r1" hosted_room)) = true)
      by (vm_compute; reflexivity).
    assert (NE : js "r2" <> []) by (vm_compute; discriminate).
    assert (NR : js "r2" <> js "r1") by (vm_compute; discriminate).
    assert (D : join_role (join_msg "r2" "host" "Ann") = Host
                \/ host_absent
                     (join_target 102 0 (sock_at 0 hosted_room) (js "r2")
                        (join_role (join_msg "r2" "host" "Ann")) (js "Ann")
                        hosted_room) = false)
      by (left; vm_compute; reflexivity).
    destruct (K _ _ S E1 G1 M1 NE D) as (_ & _ & B & C & _).
    exists st', out. split; [exact J|]. split; [exact B | exact (C NR)].
  - assert (ER : join_roomId (join_msg "r1" "viewer" "Rob") = Some (js "r1"))
      by (vm_compute; reflexivity).
    assert (EN : join_name (join_msg "r1" "viewer" "Rob") = Some (js "Rob"))
      by (vm_compute; reflexivity).
    destruct (@rejoin_accepted 200 1 (sock_at 1 hosted_room)
                (join_msg "r1" "viewer" "Rob") hosted_room _ _ ER EN)
      as (st' & out & J & _ & K).
    assert (S : sock hosted_room 1 = Some (sock_at 1 hosted_room))
      by (vm_compute; reflexivity).
    assert (E1 : roomId (sock_at 1 hosted_room) = Some (js "r1"))
      by (vm_compute; reflexivity).
    assert (M1 : JsMap.has (clientId (sock_at 1 hosted_room))
                   (clients (room_at "r1" hosted_room)) = true)
      by (vm_compute; reflexivity).
    assert (NE : js "r1" <> []) by (vm_compute; discriminate).
    assert (D : join_role (join_msg "r1" "viewer" "Rob") = Host
                \/ host_absent
                     (join_target 200 1 (sock_at 1 hosted_room) (js "r1")
                        (join_role (join_msg "r1" "viewer" "Rob")) (js "Rob")
                        hosted_room) = false)
      by (right; vm_compute; reflexivity).
    destruct (K _ _ S E1 G1 M1 NE D)
      as (_ & (room' & A1 & _ & _ & A4) & _ & _ & C).
    destruct (C eq_refl) as (room2 & B1 & B2 & _).
    assert (room2 = room') by congruence. subst room2.
    exists st', out, room'. split; [exact J|]. split; [exact A1|].
    split; [exact A4|]. rewrite B2. vm_compute. reflexivity.
Defined.

(** C9, the claim as stated fails: the viewer "V" of room "r1", named
    "Bob", joins "r1" again as "Rob"; the join is accepted and its name
    entry in the room it had joined is not left as it was. *)
Lemma rejoin_same_room_overwrites :
  roomId (sock_at 1 hosted_room) = Some (js "r1")
  /\ JsMap.get (js "V") (names (room_at "r1" hosted_room)) = Some (js "Bob")
  /\ step hosted_room (Message 1 (Parsed (join_msg "r1" "viewer" "Rob")) 200)
     = Some (renamed,
             [WsSend 1 (MJoined (js "r1") (js "V") Viewer (Some (js "H"))
                          (mkRoster (Some (mkDesc (js "H") (js "Ann")))
                                    [mkDesc (js "V") (js "Rob")]));
              WsSend 0 (MViewerJoined (js "r1") (js "V") (js "Rob"));
              WsSend 0 (MSystem (js "Rob joined."));
              WsSend 1 (MSystem (js "Rob joined."))])
  /\ JsMap.get (js "V") (names (room_at "r1" renamed)) = Some (js "Rob")
  /\ JsMap.get (js "V") (names (room_at "r1" renamed))
     <> JsMap.get (js "V") (names (room_at "r1" hosted_room)).
Proof.
  repeat split; try (vm_compute; reflexivity). vm_compute. discriminate.
Qed.
